(** * Verification of the xviz nuScenes converters

    Shallow embedding of the coordinate-frame and trajectory code of the
    nuScenes-to-XVIZ converters ([work/converter_v1], [work/converter_v2],
    [work/convert_v3]).  Coordinates are modelled as exact reals, dataset
    timestamps as integers (microseconds), tokens as strings. *)

From Stdlib Require Import Reals Lra Lia List String Ascii ZArith Bool.
From Stdlib Require Import Sorting.Sorted Sorting.Permutation.
Import ListNotations.

Open Scope R_scope.

(** ** pyquaternion, as used by [work/converter_v2/utils.py] *)

Module PyQuaternion.

Record Quaternion := Quat { qw : R; qx : R; qy : R; qz : R }.

Record vec3 := Vec3 { v0 : R; v1 : R; v2 : R }.

Definition vadd (a b : vec3) : vec3 :=
  Vec3 (v0 a + v0 b) (v1 a + v1 b) (v2 a + v2 b).

Definition vsub (a b : vec3) : vec3 :=
  Vec3 (v0 a - v0 b) (v1 a - v1 b) (v2 a - v2 b).

Definition vscale (a : vec3) (k : R) : vec3 :=
  Vec3 (v0 a * k) (v1 a * k) (v2 a * k).

(** [Quaternion.__mul__]: [self._q_matrix() @ other.q]. *)
Definition mul (a b : Quaternion) : Quaternion :=
  Quat (qw a * qw b - qx a * qx b - qy a * qy b - qz a * qz b)
       (qx a * qw b + qw a * qx b - qz a * qy b + qy a * qz b)
       (qy a * qw b + qz a * qx b + qw a * qy b - qx a * qz b)
       (qz a * qw b - qy a * qx b + qx a * qy b + qw a * qz b).

Definition _sum_of_squares (q : Quaternion) : R :=
  qw q * qw q + qx q * qx q + qy q * qy q + qz q * qz q.

Definition norm (q : Quaternion) : R := sqrt (_sum_of_squares q).

Definition conjugate (q : Quaternion) : Quaternion :=
  Quat (qw q) (- qx q) (- qy q) (- qz q).

Definition qdiv (q : Quaternion) (k : R) : Quaternion :=
  Quat (qw q / k) (qx q / k) (qy q / k) (qz q / k).

(** [Quaternion.inverse]: raises [ZeroDivisionError] on the zero
    quaternion, modelled as [None]. *)
Definition inverse (q : Quaternion) : option Quaternion :=
  let ss := _sum_of_squares q in
  if Rlt_dec 0 ss then Some (qdiv (conjugate q) ss) else None.

(** [Quaternion.is_unit(tolerance=1e-14)]. *)
Definition is_unit (q : Quaternion) : bool :=
  if Rlt_dec (Rabs (1 - _sum_of_squares q)) (1 / 10 ^ 14) then true else false.

(** [Quaternion._normalise]. *)
Definition _normalise (q : Quaternion) : Quaternion :=
  if is_unit q then q
  else if Rlt_dec 0 (norm q) then qdiv q (norm q) else q.

Definition of_vector (v : vec3) : Quaternion := Quat 0 (v0 v) (v1 v) (v2 v).

Definition vector (q : Quaternion) : vec3 := Vec3 (qx q) (qy q) (qz q).

(** [Quaternion.rotate] on a 3-vector:
    [self._normalise(); (self * Quaternion(vector=v) * self.conjugate).vector]. *)
Definition rotate (q : Quaternion) (v : vec3) : vec3 :=
  let q' := _normalise q in
  vector (mul (mul q' (of_vector v)) (conjugate q')).

(** [Quaternion.yaw_pitch_roll]: the yaw component. *)
Definition atan2 (y x : R) : R :=
  if Rlt_dec 0 x then atan (y / x)
  else if Rlt_dec x 0 then
    (if Rle_dec 0 y then atan (y / x) + PI else atan (y / x) - PI)
  else if Rlt_dec 0 y then PI / 2
  else if Rlt_dec y 0 then - (PI / 2)
  else 0.

Definition yaw (q : Quaternion) : R :=
  let q' := _normalise q in
  atan2 (2 * (qw q' * qz q' + qx q' * qy q'))
        (1 - 2 * (qy q' * qy q' + qz q' * qz q')).

End PyQuaternion.

Import PyQuaternion.

(** ** Frame transform ([work/converter_v2/utils.py]) *)

Module FrameTransform.

(** [global_to_vehicle_frame]: [ego_rotation.inverse.rotate(point - ego_translation)]. *)
Definition global_to_vehicle_frame (point ego_translation : vec3)
    (ego_rotation : Quaternion) : option vec3 :=
  let point_centered := vsub point ego_translation in
  match inverse ego_rotation with
  | Some inv => Some (rotate inv point_centered)
  | None => None
  end.

(** [vehicle_to_global_frame]: [ego_rotation.rotate(point) + ego_translation]. *)
Definition vehicle_to_global_frame (point ego_translation : vec3)
    (ego_rotation : Quaternion) : vec3 :=
  let point_rotated := rotate ego_rotation point in
  vadd point_rotated ego_translation.

End FrameTransform.

Import FrameTransform.

(** ** Shared helpers: option monad, Python dict, stable sort *)

Module PyBase.

Notation "'let*' x := e1 'in' e2" :=
  (match e1 with Some x => e2 | None => None end)
  (at level 200, x name, e1 at level 100, e2 at level 200).

(** [np.linalg.norm] of a 3-vector. *)
Definition vnorm (v : vec3) : R := sqrt (v0 v * v0 v + v1 v * v1 v + v2 v * v2 v).

(** [v / t] on a numpy vector. *)
Definition vdiv (v : vec3) (t : R) : vec3 := Vec3 (v0 v / t) (v1 v / t) (v2 v / t).

(** A Python dict with string keys, in insertion order. *)
Definition dict (A : Type) := list (string * A).

Fixpoint dict_get {A} (d : dict A) (k : string) : option A :=
  match d with
  | [] => None
  | (k', a) :: d' => if String.eqb k k' then Some a else dict_get d' k
  end.

(** [if k not in d: d[k] = []] followed by [d[k].append(x)]. *)
Fixpoint dict_append {A} (d : dict (list A)) (k : string) (x : A) : dict (list A) :=
  match d with
  | [] => [(k, [x])]
  | (k', l) :: d' =>
      if String.eqb k k' then (k', l ++ [x]) :: d' else (k', l) :: dict_append d' k x
  end.

(** [list.sort(key=...)]: Python's sort is stable; a stable insertion sort
    gives the same result. *)
Section SortByKey.
Context {A : Type} (key : A -> Z).

Fixpoint insert_by (x : A) (l : list A) : list A :=
  match l with
  | [] => [x]
  | y :: l' => if Z.leb (key x) (key y) then x :: y :: l' else y :: insert_by x l'
  end.

Fixpoint sort_by (l : list A) : list A :=
  match l with
  | [] => []
  | x :: l' => insert_by x (sort_by l')
  end.
End SortByKey.

(** [for i, p in enumerate(l): if pred(p): idx = i; break]. *)
Fixpoint find_index {A} (p : A -> bool) (l : list A) : option nat :=
  match l with
  | [] => None
  | x :: l' => if p x then Some 0%nat else option_map S (find_index p l')
  end.

Definition last_error {A} (l : list A) : option A := hd_error (rev l).

(** [d[k] = v]: an existing key keeps its position. *)
Fixpoint dict_set {A} (d : dict A) (k : string) (v : A) : dict A :=
  match d with
  | [] => [(k, v)]
  | (k', a) :: d' => if String.eqb k k' then (k', v) :: d' else (k', a) :: dict_set d' k v
  end.

(** A loop that appends [f x] for each [x] and lets the first exception
    escape. *)
Fixpoint map_opt {A B} (f : A -> option B) (l : list A) : option (list B) :=
  match l with
  | [] => Some []
  | x :: l' => let* y := f x in let* r := map_opt f l' in Some (y :: r)
  end.

(** [l[a:b]] for [0 <= a <= b]. *)
Definition slice {A} (l : list A) (a b : nat) : list A := firstn (b - a) (skipn a l).

End PyBase.

Import PyBase.

(** ** Frames and annotations of [work/converter_v2] *)

Module V2.

(** A [sample_annotation] record of the nuScenes store. *)
Record ann := Ann {
  a_token : string;
  a_instance_token : string;
  a_category_name : string;
  a_translation : vec3;
  a_rotation : Quaternion;
  a_size : vec3;
  a_velocity : option vec3   (* [ann.get('velocity', ...)] *)
}.

(** A frame of [NuscenesConverter._load_frames], with the sample's
    annotation records resolved: [timestamp] is [sample['timestamp']] in
    microseconds. *)
Record frame := Frame {
  f_token : string;
  f_timestamp : Z;
  f_anns : list ann
}.

Record ego_pose := EgoPose { e_translation : vec3; e_rotation : Quaternion }.

Inductive prim_kind := Polygon | Polyline | Circle.

Record primitive := Prim {
  p_stream : string;
  p_kind : prim_kind;
  p_vertices : list R;
  p_id : option string;
  p_classes : list string
}.

(** A pose as set on the builder: [xb.pose(stream).timestamp(t).position(x, y, z)];
    the orientation is not modelled. *)
Record pose_out := PoseOut {
  po_stream : string;
  po_timestamp : R;
  po_position : vec3
}.

Definition vlist (v : vec3) : list R := [v0 v; v1 v; v2 v].

Definition zero3 : vec3 := Vec3 0 0 0.

(** Generic one-pass track builder shared by [AnnotationConverter] and
    [FutureAnnoConverter] ([_build_object_trajectories]): one sample per
    (frame, annotation), grouped by [instance_token], then sorted by
    timestamp. *)
Section Builder.
Context {S : Type} (mk : Z -> ann -> S) (ts : S -> Z).

Definition scan_frame (d : dict (list S)) (f : frame) : dict (list S) :=
  fold_left (fun d a => dict_append d (a_instance_token a) (mk (f_timestamp f) a))
    (f_anns f) d.

Definition _build_object_trajectories (frames : list frame) : dict (list S) :=
  map (fun '(k, l) => (k, sort_by ts l)) (fold_left scan_frame frames []).
End Builder.

End V2.

(** ** [work/converter_v2/converters/furture_anno_converter.py] *)

Module FutureAnno.
Import V2.

Record sample := Sample {
  s_timestamp : Z;
  s_translation : vec3;
  s_rotation : Quaternion;
  s_size : vec3;
  s_velocity : vec3
}.

Definition mk_sample (t : Z) (a : ann) : sample :=
  Sample t (a_translation a) (a_rotation a) (a_size a)
    (match a_velocity a with Some v => v | None => zero3 end).

Definition build (frames : list frame) : dict (list sample) :=
  _build_object_trajectories mk_sample s_timestamp frames.

Definition prediction_horizon : R := 3.
Definition prediction_steps : nat := 6.
Definition time_step : R := prediction_horizon / INR prediction_steps.

Record future := Future {
  ft_timestamp : Z;
  ft_translation : vec3;
  ft_rotation : Quaternion
}.

(** [_estimate_velocity]. *)
Definition _estimate_velocity (trajectory : list sample) (current_idx : nat)
    : option vec3 :=
  let* current_point := nth_error trajectory current_idx in
  if Rlt_dec 0 (vnorm (s_velocity current_point)) then
    let velocity_2d := s_velocity current_point in
    Some (Vec3 (v0 velocity_2d) (v1 velocity_2d) 0)
  else
    let lookback := Nat.min 3 (current_idx + 1) in
    if Nat.ltb lookback 2 then None
    else
      let start_idx := (current_idx + 1 - lookback)%nat in
      let window := slice trajectory start_idx (current_idx + 1) in
      let positions := map s_translation window in
      let timestamps := map s_timestamp window in
      let* p_first := hd_error positions in
      let* p_last := last_error positions in
      let* t_first := hd_error timestamps in
      let* t_last := last_error timestamps in
      let total_displacement := vsub p_last p_first in
      let total_time := IZR (t_last - t_first) / 10 ^ 6 in
      if Rlt_dec total_time (1 / 100) then None
      else
        let velocity := vdiv total_displacement total_time in
        Some (Vec3 (v0 velocity) (v1 velocity) 0).

(** [_predict_future_positions]. *)
Definition _predict_future_positions (object_trajectories : dict (list sample))
    (instance_token : string) (current_timestamp : Z) : option (list future) :=
  let* trajectory := dict_get object_trajectories instance_token in
  let* current_idx :=
    find_index (fun p => Z.eqb (s_timestamp p) current_timestamp) trajectory in
  let* velocity := _estimate_velocity trajectory current_idx in
  if Rlt_dec (vnorm velocity) (1 / 10) then None
  else
    let* current := nth_error trajectory current_idx in
    let current_position := s_translation current in
    let current_rotation := s_rotation current in
    Some (map (fun step =>
           let dt := INR step * time_step in
           Future (current_timestamp + Int_part (dt * 10 ^ 6))
                  (vadd current_position (vscale velocity dt))
                  current_rotation)
         (seq 1 prediction_steps)).

Definition _global_to_vehicle (point : vec3) (ep : ego_pose) : option vec3 :=
  global_to_vehicle_frame point (e_translation ep) (e_rotation ep).

(** [_convert_future_trajectory]. *)
Definition _convert_future_trajectory (instance_token : string)
    (future_positions : list future) (ep : ego_pose) : option primitive :=
  let* pts := fold_right (fun pd acc =>
                 let* vp := _global_to_vehicle (ft_translation pd) ep in
                 let* rest := acc in Some (vlist vp ++ rest))
               (Some []) future_positions in
  Some (Prim "/object/future_trajectory"%string Polyline pts
         (Some (String.append instance_token "_future")) []).

(** [_convert_future_boxes]. *)
Definition _convert_future_boxes (instance_token : string)
    (future_positions : list future) (size : vec3) (ep : ego_pose)
    : option (list primitive) :=
  match last_error future_positions with
  | None => Some []
  | Some final_position =>
      let* vehicle_pos := _global_to_vehicle (ft_translation final_position) ep in
      let* ego_inv := inverse (e_rotation ep) in
      let rotation_vehicle := mul ego_inv (ft_rotation final_position) in
      Some [Prim "/object/future_boxes"%string Polygon
              (vlist vehicle_pos ++ vlist size ++ [yaw rotation_vehicle])
              (Some (String.append instance_token "_future_box")) []]
  end.

(** The body of the loop of [convert_message] for one annotation. *)
Definition convert_ann (object_trajectories : dict (list sample))
    (current_timestamp : Z) (ep : ego_pose) (a : ann) : option (list primitive) :=
  match _predict_future_positions object_trajectories (a_instance_token a)
          current_timestamp with
  | None | Some [] => Some []
  | Some future_positions =>
      let* traj := _convert_future_trajectory (a_instance_token a) future_positions ep in
      let* boxes := _convert_future_boxes (a_instance_token a) future_positions
                      (a_size a) ep in
      Some (traj :: boxes)
  end.

(** [convert_message]: [None] when an exception escapes. *)
Definition convert_message (object_trajectories : dict (list sample))
    (f : frame) (ep : ego_pose) : option (list primitive) :=
  fold_right (fun a acc =>
      let* ps := convert_ann object_trajectories (f_timestamp f) ep a in
      let* rest := acc in Some (ps ++ rest))
    (Some []) (f_anns f).

End FutureAnno.

(** ** [work/converter_v2/converters/annotation_converter.py] *)

Module AnnoV2.
Import V2.

Record track_point := TrackPoint {
  tp_timestamp : Z;
  tp_translation : vec3;
  tp_rotation : Quaternion;
  tp_size : vec3
}.

Definition mk_track_point (t : Z) (a : ann) : track_point :=
  TrackPoint t (a_translation a) (a_rotation a) (a_size a).

(** [AnnotationConverter._build_object_trajectories]. *)
Definition build (frames : list frame) : dict (list track_point) :=
  _build_object_trajectories mk_track_point tp_timestamp frames.

Definition _global_to_vehicle (point : vec3) (ep : ego_pose) : option vec3 :=
  global_to_vehicle_frame point (e_translation ep) (e_rotation ep).

Definition time_window : Z := 3000000.

(** [_convert_trajectory]: [Some []] when it returns without emitting,
    [None] when an exception escapes. *)
Definition _convert_trajectory (object_trajectories : dict (list track_point))
    (a : ann) (current_timestamp : Z) (ep : ego_pose) : option (list primitive) :=
  let instance_token := a_instance_token a in
  match dict_get object_trajectories instance_token with
  | None => Some []
  | Some trajectory =>
      let past_trajectory :=
        filter (fun point => Z.geb current_timestamp (tp_timestamp point) &&
                             Z.geb (tp_timestamp point) (current_timestamp - time_window))
               trajectory in
      if Nat.ltb (List.length past_trajectory) 2 then Some []
      else
        let* trajectory_points :=
          fold_right (fun point acc =>
              let* vehicle_pos := _global_to_vehicle (tp_translation point) ep in
              let* rest := acc in Some (vlist vehicle_pos ++ rest))
            (Some []) past_trajectory in
        Some [Prim "/object/trajectory"%string Polyline trajectory_points
                (Some instance_token) []]
  end.

End AnnoV2.

(** ** The nuScenes store and the frames of [_load_scene_data] *)

Module NuScenes.
Import V2.

Record sample_data := SampleData {
  sd_token : string;
  sd_timestamp : Z;          (* microseconds *)
  sd_ego_pose_token : string
}.

(** An [ego_pose] record; [rotation] is the list [w, x, y, z]. *)
Record ego_pose_rec := EgoPoseRec {
  ep_token : string;
  ep_timestamp : Z;          (* microseconds *)
  ep_translation : vec3;
  ep_rotation : list R
}.

(** A [sample]: its token, its [data] dict (sensor name to sample_data
    token) and [anns]. *)
Record sample := Sample {
  sm_token : string;
  sm_data : dict string;
  sm_anns : list string
}.

Definition LIDAR_TOP : string := "LIDAR_TOP".

Record nusc := NuSc {
  t_sample_annotation : list ann;
  t_sample_data : list sample_data;
  t_ego_pose : list ego_pose_rec
}.

(** [nuscenes.get(table, token)]: [None] is the [KeyError]. *)
Definition get_sample_annotation (db : nusc) (tok : string) : option ann :=
  find (fun a => String.eqb (a_token a) tok) (t_sample_annotation db).

Definition get_sample_data (db : nusc) (tok : string) : option sample_data :=
  find (fun d => String.eqb (sd_token d) tok) (t_sample_data db).

Definition get_ego_pose (db : nusc) (tok : string) : option ego_pose_rec :=
  find (fun e => String.eqb (ep_token e) tok) (t_ego_pose db).

(** The [frame_data] dict built by [_load_scene_data]. converter_v1 builds
    it with a ['token'] key (the sample token), convert_v3 without one; no
    convert_v3 code reads that key. The ['lidar_data'] and ['sensors']
    records are looked up, with their [KeyError]s, but not kept: no
    modelled converter reads them. *)
Record frame_data := FrameData {
  fd_token : string;
  fd_sample : sample;
  fd_timestamp : R;
  fd_ego_pose_token : string
}.

(** [_get_frame_sensors]: one [sample_data] lookup per sensor of
    [sample['data']]. *)
Definition _get_frame_sensors (db : nusc) (s : sample) : option (dict sample_data) :=
  fold_left (fun acc '(sensor_name, sample_data_token) =>
      let* sensors := acc in
      let* sample_data := get_sample_data db sample_data_token in
      Some (dict_set sensors sensor_name sample_data))
    (sm_data s) (Some []).

Definition load_frame (db : nusc) (s : sample) : option frame_data :=
  let* lidar_token := dict_get (sm_data s) LIDAR_TOP in
  let* lidar_data := get_sample_data db lidar_token in
  let* _ := _get_frame_sensors db s in
  Some (FrameData (sm_token s) s (IZR (sd_timestamp lidar_data) / 1000000)
          (sd_ego_pose_token lidar_data)).

Definition _load_scene_data (db : nusc) (samples : list sample) : option (list frame_data) :=
  map_opt (load_frame db) samples.

End NuScenes.

(** ** [scipy.spatial.transform.Rotation.from_quat] *)

Module ScipyRotation.

(** [Rotation.from_quat([x, y, z, w])] (scalar last): the quaternion is
    normalised; a zero norm raises [ValueError]. *)
Definition from_quat (x y z w : R) : option (R * R * R * R) :=
  let norm := sqrt (x * x + y * y + z * z + w * w) in
  if Req_EM_T norm 0 then None else Some (x / norm, y / norm, z / norm, w / norm).

(** [work/convert_v3/utils.py] [quaternion_to_euler(quaternion)]: the
    indexing (an [IndexError] below four components) and [from_quat].
    [as_euler('xyz')] is total on a rotation; the pose records of this
    development keep no orientation, so the rotation stands for its angles. *)
Definition quaternion_to_euler (quaternion : list R) : option (R * R * R * R) :=
  let* q1 := nth_error quaternion 1 in
  let* q2 := nth_error quaternion 2 in
  let* q3 := nth_error quaternion 3 in
  let* q0 := nth_error quaternion 0 in
  from_quat q1 q2 q3 q0.

End ScipyRotation.

(** ** [work/convert_v3/converters/pose_converter.py] *)

Module PoseV3.
Import V2 NuScenes.

Definition VEHICLE_POSE : string := "/vehicle_pose".
Definition VEHICLE_TRAJECTORY : string := "/vehicle/trajectory".

Definition _get_vehicle_trajectory (db : nusc) (frames : list frame_data)
    (frame_index : nat) : option (list vec3) :=
  let lookahead := 6%nat in
  let end_index := Nat.min (List.length frames) (frame_index + lookahead) in
  map_opt (fun i =>
      let* frame := nth_error frames i in
      let* ego_pose := get_ego_pose db (fd_ego_pose_token frame) in
      Some (ep_translation ego_pose))
    (seq frame_index (end_index - frame_index)).

(** [PoseConverter.convert]: the pose (without its orientation) and the
    primitives it adds; [quaternion_to_euler] is called on the ego
    rotation, with its failures. *)
Definition convert (db : nusc) (frames : list frame_data) (frame_index : nat)
    : option (pose_out * list primitive) :=
  let* frame := nth_error frames frame_index in
  let* ego_pose := get_ego_pose db (fd_ego_pose_token frame) in
  let* _ := ScipyRotation.quaternion_to_euler (ep_rotation ego_pose) in
  let pose := PoseOut VEHICLE_POSE (fd_timestamp frame) (ep_translation ego_pose) in
  let* trajectory := _get_vehicle_trajectory db frames frame_index in
  match trajectory with
  | [] => Some (pose, [])
  | _ => Some (pose, [Prim VEHICLE_TRAJECTORY Polyline (flat_map vlist trajectory) None []])
  end.

End PoseV3.

(** ** [work/converter_v1/utils.py] *)

Module EulerV1.

(** A numpy float: [np.arcsin] outside [-1, 1] gives [nan]. *)
Inductive float64 := Finite (r : R) | NaN.

Definition np_arcsin (x : R) : float64 :=
  if Rle_dec (-1) x then (if Rle_dec x 1 then Finite (asin x) else NaN) else NaN.

Definition quaternion_to_euler_angle (rotation : list R) : option (R * float64 * R) :=
  let* w := nth_error rotation 0 in
  let* x := nth_error rotation 1 in
  let* y := nth_error rotation 2 in
  let* z := nth_error rotation 3 in
  let ysqr := y * y in
  let t0 := -2 * (ysqr + z * z) + 1 in
  let t1 := 2 * (x * y + w * z) in
  let t2 := -2 * (x * z - w * y) in
  let t3 := 2 * (y * z + w * x) in
  let t4 := -2 * (x * x + ysqr) + 1 in
  let t2 := if Rlt_dec 1 t2 then 1 else t2 in
  let t2 := if Rlt_dec t2 (-1) then -1 else t2 in
  let pitch := np_arcsin t2 in
  let roll := atan2 t3 t4 in
  let yaw := atan2 t1 t0 in
  Some (roll, pitch, yaw).

End EulerV1.

(** ** [work/converter_v1/converter/coordinate_converter.py] *)

Module CoordV1.
Import V2 NuScenes EulerV1.

Record pose_entry := PoseEntry {
  pe_timestamp : R;
  pe_x : R; pe_y : R; pe_z : R;
  pe_roll : R; pe_pitch : float64; pe_yaw : R
}.

Record state := State {
  timestamps : list R;
  pose_by_frames : dict pose_entry
}.

Definition init_frame (db : nusc) (st : state) (frame : frame_data) : option state :=
  let* ego_pose := get_ego_pose db (fd_ego_pose_token frame) in
  match quaternion_to_euler_angle (ep_rotation ego_pose) with
  | None => None
  | Some (roll, pitch, yaw) =>
      let timestamp := IZR (ep_timestamp ego_pose) / 1000000 in
      let t := ep_translation ego_pose in
      Some (State (timestamps st ++ [timestamp])
              (dict_set (pose_by_frames st) (fd_token frame)
                 (PoseEntry (timestamp / 1000000) (v0 t) (v1 t) (v2 t) roll pitch yaw)))
  end.

(** [CoordinateConverter.init]. *)
Definition init (db : nusc) (frames : list frame_data) : option state :=
  fold_left (fun acc frame => let* st := acc in init_frame db st frame) frames
    (Some (State [] [])).

Definition EGO_POSE : string := "/ego_pose".

(** The pose set by [CoordinateConverter.convert]. *)
Definition convert_pose (st : state) (frames : list frame_data) (frame_index : nat)
    : option pose_out :=
  let* frame := nth_error frames frame_index in
  let* pose := dict_get (pose_by_frames st) (fd_token frame) in
  Some (PoseOut EGO_POSE (pe_timestamp pose) (Vec3 (pe_x pose) (pe_y pose) (pe_z pose))).

Definition EGO_TRAJECTORY : string := "/ego/trajectory".

(** [_get_ego_trajectory]: [np.asarray(trajectory).flatten().tolist()]. *)
Definition _get_ego_trajectory (st : state) (frames : list frame_data)
    (start_index end_index : nat) : option (list R) :=
  let* trajectory := map_opt (fun i =>
      let* frame := nth_error frames i in
      let* pose := dict_get (pose_by_frames st) (fd_token frame) in
      Some [pe_x pose; pe_y pose; pe_z pose])
    (seq start_index (end_index - start_index)) in
  Some (List.concat trajectory).

(** [CoordinateConverter.convert]: the pose and the trajectory primitive. *)
Definition convert (st : state) (frames : list frame_data) (frame_index : nat)
    : option (pose_out * list primitive) :=
  let* pose := convert_pose st frames frame_index in
  let* ego_trajectory := _get_ego_trajectory st frames frame_index
                           (Nat.min (List.length frames) (frame_index + 7)) in
  Some (pose, [Prim EGO_TRAJECTORY Polyline ego_trajectory None []]).

End CoordV1.

(** ** [work/convert_v3/converters/annotation_converter.py] *)

Module AnnoV3.
Import V2 NuScenes.

Definition CATEGORY_MAPPING : dict string := [
  ("movable_object.barrier", "barrier");
  ("vehicle.bicycle", "bicycle");
  ("vehicle.bus.bendy", "bus");
  ("vehicle.bus.rigid", "bus");
  ("vehicle.car", "car");
  ("vehicle.construction", "construction_vehicle");
  ("vehicle.motorcycle", "motorcycle");
  ("human.pedestrian.adult", "pedestrian");
  ("human.pedestrian.child", "pedestrian");
  ("human.pedestrian.construction_worker", "pedestrian");
  ("human.pedestrian.police_officer", "pedestrian");
  ("movable_object.trafficcone", "traffic_cone");
  ("vehicle.trailer", "trailer");
  ("vehicle.truck", "truck")]%string.

Definition OBJECTS_TRACKING_POINT : string := "/objects/tracking_point".

Definition _map_nuscenes_category (nuscenes_category : string) : option string :=
  match dict_get CATEGORY_MAPPING nuscenes_category with
  | Some category => Some ("/annotations/" ++ category)%string
  | None => None
  end.

(** nuScenes [Box(center, size=[w, l, h], orientation).corners()], corner
    with signs [(sx, sy, sz)] on [(l/2, w/2, h/2)]. *)
Definition box_corner (a : ann) (sx sy sz : R) : vec3 :=
  let w := v0 (a_size a) in
  let l := v1 (a_size a) in
  let h := v2 (a_size a) in
  vadd (rotate (a_rotation a) (Vec3 (sx * (l / 2)) (sy * (w / 2)) (sz * (h / 2))))
       (a_translation a).

(** [_get_3d_bbox]: bottom corners 2, 3, 7, 6, closed by repeating the first. *)
Definition _get_3d_bbox (a : ann) : list vec3 :=
  let vertices := [box_corner a 1 (-1) (-1); box_corner a 1 1 (-1);
                   box_corner a (-1) 1 (-1); box_corner a (-1) (-1) (-1)] in
  vertices ++ [box_corner a 1 (-1) (-1)].

(** The footprint polygon and tracking circle of one annotation. *)
Definition convert_ann (a : ann) : list primitive :=
  match _map_nuscenes_category (a_category_name a) with
  | None => []
  | Some category =>
      let center := a_translation a in
      [Prim category Polygon (flat_map vlist (_get_3d_bbox a)) (Some (a_token a)) [category];
       Prim OBJECTS_TRACKING_POINT Circle [v0 center; v1 center; 0] (Some (a_token a)) []]
  end.

(** The [for future_ann_token ...: ... break] search of one future frame. *)
Fixpoint find_future_position (db : nusc) (instance_token : string) (toks : list string)
    : option (option vec3) :=
  match toks with
  | [] => Some None
  | tok :: toks' =>
      let* future_ann := get_sample_annotation db tok in
      if String.eqb (a_instance_token future_ann) instance_token then
        let pos := a_translation future_ann in Some (Some (Vec3 (v0 pos) (v1 pos) 0))
      else find_future_position db instance_token toks'
  end.

Definition object_trajectory (db : nusc) (frames : list frame_data) (frame_index : nat)
    (a : ann) : option (list primitive) :=
  let lookahead := 6%nat in
  let end_index := Nat.min (List.length frames) (frame_index + lookahead) in
  match _map_nuscenes_category (a_category_name a) with
  | None => Some []
  | Some category =>
      let* found := map_opt (fun i =>
          let* future_frame := nth_error frames i in
          find_future_position db (a_instance_token a) (sm_anns (fd_sample future_frame)))
        (seq frame_index (end_index - frame_index)) in
      let trajectory := flat_map (fun o => match o with Some p => [p] | None => [] end) found in
      if Nat.ltb 1 (List.length trajectory) then
        Some [Prim (category ++ "/trajectory")%string Polyline (flat_map vlist trajectory) None []]
      else Some []
  end.

Definition _add_object_trajectories (db : nusc) (annotations : list ann)
    (frames : list frame_data) (frame_index : nat) : option (list primitive) :=
  let* l := map_opt (object_trajectory db frames frame_index) annotations in
  Some (List.concat l).

(** [AnnotationConverter.convert]. *)
Definition convert (db : nusc) (frames : list frame_data) (frame_index : nat)
    : option (list primitive) :=
  let* frame := nth_error frames frame_index in
  let* annotations := map_opt (get_sample_annotation db) (sm_anns (fd_sample frame)) in
  let* trajectories := _add_object_trajectories db annotations frames frame_index in
  Some (flat_map convert_ann annotations ++ trajectories).

End AnnoV3.

(** ** [work/converter_v1/converter/annotation_converter.py] *)

Module AnnoV1.
Import V2 NuScenes EulerV1.

(** The same table as convert_v3's. *)
Definition CATEGORY_MAPPING : dict string := AnnoV3.CATEGORY_MAPPING.

Definition ANNOTATIONS : string := "/annotations".

Record parsed := Parsed {
  pa_token : string;
  pa_instance_token : string;
  pa_category : string;
  pa_x : R; pa_y : R; pa_z : R;
  pa_roll : R; pa_pitch : float64; pa_yaw : R;
  pa_vertices : list R
}.

Definition qlist (q : Quaternion) : list R := [qw q; qx q; qy q; qz q].

Definition _parse_ann_data (a : ann) : option parsed :=
  let translation := a_translation a in
  let size := a_size a in
  match quaternion_to_euler_angle (qlist (a_rotation a)) with
  | None => None
  | Some (roll, pitch, yaw) =>
      let* category := dict_get CATEGORY_MAPPING (a_category_name a) in
      let bounds := [[- v1 size / 2; - v0 size / 2; 0];
                     [- v1 size / 2; v0 size / 2; 0];
                     [v1 size / 2; v0 size / 2; 0];
                     [v1 size / 2; - v0 size / 2; 0];
                     [- v1 size / 2; - v0 size / 2; 0]] in
      Some (Parsed (a_token a) (a_instance_token a) category
              (v0 translation) (v1 translation) (v2 translation) roll pitch yaw
              (List.concat bounds))
  end.

Definition init_ann (db : nusc) (frame_token : string)
    (acc : option (dict (dict parsed))) (ann_token : string) : option (dict (dict parsed)) :=
  let* d := acc in
  let* a := get_sample_annotation db ann_token in
  match dict_get CATEGORY_MAPPING (a_category_name a) with
  | None => Some d
  | Some _ =>
      let* p := _parse_ann_data a in
      let* inner := dict_get d frame_token in
      Some (dict_set d frame_token (dict_set inner (a_instance_token a) p))
  end.

(** [AnnotationConverter.init]: [anns_by_frame]. *)
Definition init (db : nusc) (frames : list frame_data) : option (dict (dict parsed)) :=
  fold_left (fun acc frame =>
      let* d := acc in
      fold_left (init_ann db (fd_token frame)) (sm_anns (fd_sample frame))
        (Some (dict_set d (fd_token frame) [])))
    frames (Some []).

Fixpoint obj_trajectory_go (anns_by_frame : dict (dict parsed)) (frames : list frame_data)
    (obj : parsed) (is : list nat) : option (list R) :=
  match is with
  | [] => Some []
  | i :: is' =>
      let* frame := nth_error frames i in
      let* objs := dict_get anns_by_frame (fd_token frame) in
      match dict_get objs (pa_instance_token obj) with
      | None => Some []
      | Some frame_obj =>
          let* rest := obj_trajectory_go anns_by_frame frames obj is' in
          Some ([pa_x frame_obj; pa_y frame_obj; pa_z frame_obj] ++ rest)
      end
  end.

Definition _get_obj_trajectory (anns_by_frame : dict (dict parsed)) (frames : list frame_data)
    (obj : parsed) (start_index end_index : nat) : option (list R) :=
  obj_trajectory_go anns_by_frame frames obj (seq start_index (end_index - start_index)).

(** [AnnotationConverter.convert]. *)
Definition convert (anns_by_frame : dict (dict parsed)) (frames : list frame_data)
    (frame_index : nat) : option (list primitive) :=
  let* frame := nth_error frames frame_index in
  let* frame_annotations := dict_get anns_by_frame (fd_token frame) in
  let* l := map_opt (fun '(_, anno) =>
      let stream := (ANNOTATIONS ++ "/" ++ pa_category anno)%string in
      let* anno_trajectory := _get_obj_trajectory anns_by_frame frames anno frame_index
                                (Nat.min (List.length frames) (frame_index + 7)) in
      Some [Prim stream Polygon (pa_vertices anno) (Some (pa_token anno)) [pa_category anno];
            Prim (stream ++ "/trajectory")%string Polyline anno_trajectory None []])
    frame_annotations in
  Some (List.concat l).

End AnnoV1.

(** ** [_union_ped] of [work/convert_v3/map_utils.py] *)

Module MapUtils.

(** The shapely operations are parameters: [minimum_rotated_rectangle g]
    gives [rect.exterior.coords], [query ped_geoms g] the indices returned
    by [STRtree(ped_geoms).query(g)]. *)
Section UnionPed.
Context {G : Type}
  (minimum_rotated_rectangle : G -> list (R * R))
  (union : G -> G -> G)
  (query : list G -> G -> list nat)
  (split_collections : G -> list G).

Definition vsub2 (p q : R * R) : R * R := (fst p - fst q, snd p - snd q).

Definition norm2 (v : R * R) : R := sqrt (fst v * fst v + snd v * snd v).

Definition dot2 (v w : R * R) : R := fst v * fst w + snd v * snd w.

(** [get_rec_direction]: the longest of the first two edges of the
    minimum rotated rectangle ([argmax] keeps the first maximum). *)
Definition get_rec_direction (geom : G) : option ((R * R) * R) :=
  match minimum_rotated_rectangle geom with
  | p0 :: p1 :: p2 :: _ =>
      let v0 := vsub2 p1 p0 in
      let v1 := vsub2 p2 p1 in
      let l0 := norm2 v0 in
      let l1 := norm2 v1 in
      if Rlt_dec l0 l1 then Some (v1, l1) else Some (v0, l0)
  | _ => None
  end.

(** [remain_idx], a Python set of indices. *)
Definition mem (i : nat) (s : list nat) : bool := existsb (Nat.eqb i) s.
Definition discard (i : nat) (s : list nat) : list nat := remove Nat.eq_dec i s.

(** One candidate [o_idx] of the inner loop, on [(remain_idx, final_pgeom[-1])];
    the last output group also records its member indices. *)
Definition merge_candidate (ped_geoms : list G) (i : nat) (pgeom_v : R * R)
    (pgeom_v_norm : R) (st : option (list nat * (G * list nat))) (o_idx : nat)
    : option (list nat * (G * list nat)) :=
  match st with
  | None => None
  | Some (remain_idx, (last, members)) =>
      if negb (mem o_idx remain_idx) || Nat.eqb o_idx i then st
      else
        let* o := nth_error ped_geoms o_idx in
        let* o_dir := get_rec_direction o in
        let cos := dot2 pgeom_v (fst o_dir) / (pgeom_v_norm * snd o_dir) in
        if Rlt_dec (1 - Rabs cos) (1 / 100)
        then Some (discard o_idx remain_idx, (union last o, members ++ [o_idx]))
        else st
  end.

(** One iteration [i, pgeom] of the outer loop, on [(remain_idx, final_pgeom)]. *)
Definition visit (ped_geoms : list G) (st : option (list nat * list (G * list nat)))
    (ip : nat * G) : option (list nat * list (G * list nat)) :=
  match st with
  | None => None
  | Some (remain_idx, final_pgeom) =>
      let (i, pgeom) := ip in
      if negb (mem i remain_idx) then st
      else
        let remain_idx := discard i remain_idx in
        let* pgeom_dir := get_rec_direction pgeom in
        match fold_left (merge_candidate ped_geoms i (fst pgeom_dir) (snd pgeom_dir))
                (query ped_geoms pgeom) (Some (remain_idx, (pgeom, [i]))) with
        | None => None
        | Some (remain_idx, last) => Some (remain_idx, final_pgeom ++ [last])
        end
  end.

(** [final_pgeom], each merged geometry with the indices it was built from. *)
Definition union_groups (ped_geoms : list G) : option (list (G * list nat)) :=
  let n := List.length ped_geoms in
  let* st := fold_left (visit ped_geoms) (combine (seq 0 n) ped_geoms) (Some (seq 0 n, [])) in
  Some (snd st).

Definition _union_ped (ped_geoms : list G) : option (list G) :=
  match ped_geoms with
  | [] => Some []
  | _ =>
      let* final_pgeom := union_groups ped_geoms in
      Some (flat_map (fun gm => split_collections (fst gm)) final_pgeom)
  end.
End UnionPed.

(** A concrete geometry: polygons with integer vertices, as their rings. *)
Definition zgeom := list (list (Z * Z)).

Definition to_R2 (p : Z * Z) : R * R := (IZR (fst p), IZR (snd p)).

(** The rectangles used below are their own minimum rotated rectangle. *)
Definition zmrr (g : zgeom) : list (R * R) := map to_R2 (hd [] g).

Definition zunion (a b : zgeom) : zgeom := a ++ b.

Definition zsplit (g : zgeom) : list zgeom := map (fun r => [r]) g.

Definition envelope (pts : list (Z * Z)) : option (Z * Z * Z * Z) :=
  fold_right (fun p acc =>
      match acc with
      | None => Some (fst p, snd p, fst p, snd p)
      | Some (x0, y0, x1, y1) =>
          Some (Z.min x0 (fst p), Z.min y0 (snd p), Z.max x1 (fst p), Z.max y1 (snd p))
      end) None pts.

Definition envelopes_intersect (e1 e2 : option (Z * Z * Z * Z)) : bool :=
  match e1, e2 with
  | Some (ax0, ay0, ax1, ay1), Some (bx0, by0, bx1, by1) =>
      (ax0 <=? bx1)%Z && (bx0 <=? ax1)%Z && (ay0 <=? by1)%Z && (by0 <=? ay1)%Z
  | _, _ => false
  end.

(** [STRtree.query]: the indices whose envelope meets that of [g]. *)
Definition zquery (ped_geoms : list zgeom) (g : zgeom) : list nat :=
  filter (fun j => match nth_error ped_geoms j with
                   | Some h => envelopes_intersect (envelope (List.concat h)) (envelope (List.concat g))
                   | None => false
                   end)
    (seq 0 (List.length ped_geoms)).

(** A 4 x 1 crossing strip at height [k]; strips [k] and [k + 1] share a long edge. *)
Definition strip (k : Z) : zgeom :=
  [[(0, k); (4, k); (4, k + 1); (0, k + 1); (0, k)]%Z].

(** A rectangle turned by 45 degrees. *)
Definition diamond : zgeom := [[(0, 0); (2, 2); (1, 3); (-1, 1); (0, 0)]%Z].

End MapUtils.

(** ** Concrete scenes used to exercise the model *)

Module Scenarios.
Import V2.

(** A car annotated at [x] metres along the x axis, heading +x. *)
Definition car_at (tok : string) (x : R) : ann :=
  Ann tok "car-1" "vehicle.car" (Vec3 x 0 0) (Quat 1 0 0 0) (Vec3 2 4 1) None.

(** Two key frames one second apart: the car moves from x = -2 to x = 0,
    i.e. at 2 m/s along x. *)
Definition two_frames : list frame :=
  [Frame "s0" 0 [car_at "a0" (-2)]; Frame "s1" 1000000 [car_at "a1" 0]].

Definition identity_pose : ego_pose := EgoPose (Vec3 0 0 0) (Quat 1 0 0 0).

(** Two frames carrying the same timestamp, both annotating the car. *)
Definition same_time_frames : list frame :=
  [Frame "s0" 0 [car_at "a0" 0]; Frame "s1" 0 [car_at "a1" 1]].

(** Five key frames at t = 0, 1, 2, 3, 4 s with the car at x = t. *)
Definition five_frames : list frame :=
  map (fun k => Frame "s" (Z.of_nat k * 1000000) [car_at "a" (INR k)]) (seq 0 5).

(** The six predicted samples of the car at key frame [s1]: x = 1, ..., 6. *)
Definition two_frames_fps : list FutureAnno.future :=
  map (fun step => FutureAnno.Future
         (1000000 + Int_part (INR step * FutureAnno.time_step * 10 ^ 6))
         (Vec3 (INR step) 0 0) (Quat 1 0 0 0))
    (seq 1 FutureAnno.prediction_steps).

(** Three key frames whose ego poses sit at x = 0, 1, 2. *)
Definition ego_db : NuScenes.nusc :=
  NuScenes.NuSc [] []
    [NuScenes.EgoPoseRec "e0" 0 (Vec3 0 0 0) [1; 0; 0; 0];
     NuScenes.EgoPoseRec "e1" 500000 (Vec3 1 0 0) [1; 0; 0; 0];
     NuScenes.EgoPoseRec "e2" 1000000 (Vec3 2 0 0) [1; 0; 0; 0]].

Definition ego_frames : list NuScenes.frame_data :=
  [NuScenes.FrameData "s0" (NuScenes.Sample "s0" [(NuScenes.LIDAR_TOP, "l0"%string)] []) 0 "e0";
   NuScenes.FrameData "s1" (NuScenes.Sample "s1" [(NuScenes.LIDAR_TOP, "l1"%string)] []) (1/2) "e1";
   NuScenes.FrameData "s2" (NuScenes.Sample "s2" [(NuScenes.LIDAR_TOP, "l2"%string)] []) 1 "e2"].

(** One key frame whose lidar sweep and ego pose carry the dataset
    timestamp 1532402927647951 us. *)
Definition ts_db : NuScenes.nusc :=
  NuScenes.NuSc []
    [NuScenes.SampleData "l0" 1532402927647951 "e0"]
    [NuScenes.EgoPoseRec "e0" 1532402927647951 (Vec3 1 2 0) [1; 0; 0; 0]].

Definition ts_sample : NuScenes.sample := NuScenes.Sample "s0" [(NuScenes.LIDAR_TOP, "l0"%string)] [].

(** One key frame holding one car annotation ["a1"] of instance ["car-1"]. *)
Definition anno_db : NuScenes.nusc :=
  NuScenes.NuSc [car_at "a1" 0]
    [NuScenes.SampleData "l0" 0 "e0"]
    [NuScenes.EgoPoseRec "e0" 0 (Vec3 0 0 0) [1; 0; 0; 0]].

Definition anno_frames : list NuScenes.frame_data :=
  [NuScenes.FrameData "s0" (NuScenes.Sample "s0" [(NuScenes.LIDAR_TOP, "l0"%string)] ["a1"%string]) 0 "e0"].

End Scenarios.

(** ** Track contents, as seen through [dict_get] *)

Section Collected.
Context {S : Type} (mk : Z -> V2.ann -> S).

(** The samples of instance [k], in frame order and annotation order. *)
Definition collected (k : string) (frames : list V2.frame) : list S :=
  flat_map (fun f => map (mk (V2.f_timestamp f))
                       (filter (fun a => String.eqb (V2.a_instance_token a) k) (V2.f_anns f)))
    frames.

(** The value [dict_append] leaves under a key after appending [c]. *)
Definition opt_app (o : option (list S)) (c : list S) : option (list S) :=
  match o, c with
  | None, [] => None
  | None, _ => Some c
  | Some l, _ => Some (l ++ c)
  end.

End Collected.

(** ** [work/converter_v2/utils.py]: velocity, interpolation, angles, boxes *)

Module UtilsV2.

(** [compute_velocity]; [None] is the [IndexError] of an empty
    [timestamps] list. *)
Definition compute_velocity (positions : list vec3) (timestamps : list Z) : option vec3 :=
  if Nat.ltb (List.length positions) 2 then Some (Vec3 0 0 0)
  else
    let* p_last := last_error positions in
    let* p_first := hd_error positions in
    let displacement := vsub p_last p_first in
    let* t_last := last_error timestamps in
    let* t_first := hd_error timestamps in
    let time_diff := IZR (t_last - t_first) / 1000000 in
    if Rlt_dec time_diff (1 / 100) then Some (Vec3 0 0 0)
    else Some (vdiv displacement time_diff).

(** A trajectory point: the dict [{'timestamp': ..., 'translation': ...}]. *)
Record traj_point := TrajPoint { tp_timestamp : Z; tp_translation : vec3 }.

(** The inner [for i, point in enumerate(trajectory)] loop, from index [i]
    on: it returns [(before_idx, after_idx)]. *)
Fixpoint scan_bounds (target_ts : Z) (pts : list traj_point) (i : nat)
    (before_idx : option nat) : option nat * option nat :=
  match pts with
  | [] => (before_idx, None)
  | point :: rest =>
      let before_idx := if (tp_timestamp point <=? target_ts)%Z then Some i else before_idx in
      if (target_ts <=? tp_timestamp point)%Z then (before_idx, Some i)
      else scan_bounds target_ts rest (S i) before_idx
  end.

(** The body of the outer loop for one [target_ts]: the points it appends;
    [None] is a [ZeroDivisionError] or an [IndexError]. *)
Definition interpolate_at (trajectory : list traj_point) (target_ts : Z)
    : option (list traj_point) :=
  match scan_bounds target_ts trajectory 0 None with
  | (Some before_idx, Some after_idx) =>
      if Nat.eqb before_idx after_idx then
        let* p := nth_error trajectory before_idx in Some [p]
      else
        let* pb := nth_error trajectory before_idx in
        let* pa := nth_error trajectory after_idx in
        let t_before := tp_timestamp pb in
        let t_after := tp_timestamp pa in
        if Z.eqb (t_after - t_before) 0 then None
        else
          let alpha := IZR (target_ts - t_before) / IZR (t_after - t_before) in
          let pos_before := tp_translation pb in
          let pos_after := tp_translation pa in
          Some [TrajPoint target_ts (vadd pos_before (vscale (vsub pos_after pos_before) alpha))]
  | _ => Some []
  end.

Definition interpolate_trajectory (trajectory : list traj_point) (target_timestamps : list Z)
    : option (list traj_point) :=
  if Nat.ltb (List.length trajectory) 2 then Some []
  else
    let* chunks := map_opt (interpolate_at trajectory) target_timestamps in
    Some (List.concat chunks).

(** [normalize_angle]: each [while] loop runs at most [fuel] times; [None]
    means a loop has not finished within [fuel] iterations. *)
Fixpoint sub_loop (fuel : nat) (angle : R) : option R :=
  match fuel with
  | O => None
  | S fuel' => if Rlt_dec PI angle then sub_loop fuel' (angle - 2 * PI) else Some angle
  end.

Fixpoint add_loop (fuel : nat) (angle : R) : option R :=
  match fuel with
  | O => None
  | S fuel' => if Rlt_dec angle (- PI) then add_loop fuel' (angle + 2 * PI) else Some angle
  end.

Definition normalize_angle (fuel : nat) (angle : R) : option R :=
  let* angle := sub_loop fuel angle in
  add_loop fuel angle.

(** [np.min] and [np.max] of a column; [None] is the [ValueError] on an
    empty array. *)
Definition np_min (xs : list R) : option R :=
  match xs with [] => None | x :: r => Some (fold_left Rmin r x) end.

Definition np_max (xs : list R) : option R :=
  match xs with [] => None | x :: r => Some (fold_left Rmax r x) end.

Definition get_2d_bbox_from_3d (vertices : list vec3) : option (R * R * R * R) :=
  let* min_x := np_min (map v0 vertices) in
  let* max_x := np_max (map v0 vertices) in
  let* min_y := np_min (map v1 vertices) in
  let* max_y := np_max (map v1 vertices) in
  Some (min_x, min_y, max_x, max_y).

Fixpoint dot (a b : list R) : R :=
  match a, b with
  | x :: a', y :: b' => x * y + dot a' b'
  | _, _ => 0
  end.

(** pyquaternion's [_q_matrix] and [_q_bar_matrix], by rows. *)
Definition _q_matrix (q : Quaternion) : list (list R) :=
  [[qw q; - qx q; - qy q; - qz q];
   [qx q; qw q; - qz q; qy q];
   [qy q; qz q; qw q; - qx q];
   [qz q; - qy q; qx q; qw q]].

Definition _q_bar_matrix (q : Quaternion) : list (list R) :=
  [[qw q; - qx q; - qy q; - qz q];
   [qx q; qw q; qz q; - qy q];
   [qy q; - qz q; qw q; qx q];
   [qz q; qy q; - qx q; qw q]].

(** [rotation_matrix]: [self._normalise()], then rows and columns 1..3 of
    [_q_matrix() @ _q_bar_matrix().conj().T]; entry [(i, j)] is row [i]
    of the first matrix dotted with row [j] of the second. *)
Definition rotation_matrix (q : Quaternion) : list (list R) :=
  let q := _normalise q in
  map (fun row => map (fun col => dot row col) (tl (_q_bar_matrix q))) (tl (_q_matrix q)).

Definition mat_vec (m : list (list R)) (v : vec3) : vec3 :=
  let c := [v0 v; v1 v; v2 v] in
  Vec3 (dot (nth 0 m []) c) (dot (nth 1 m []) c) (dot (nth 2 m []) c).

(** [compute_box_vertices]: the columns of [np.vstack([x, y, z])] rotated,
    shifted by the center and returned as rows; [None] is the
    [ValueError] of [w, l, h = size]. *)
Definition compute_box_vertices (center : vec3) (size : list R) (rotation : Quaternion)
    : option (list vec3) :=
  match size with
  | [w; l; h] =>
      let x_corners := [l / 2; l / 2; - l / 2; - l / 2; l / 2; l / 2; - l / 2; - l / 2] in
      let y_corners := [w / 2; - w / 2; - w / 2; w / 2; w / 2; - w / 2; - w / 2; w / 2] in
      let z_corners := [- h / 2; - h / 2; - h / 2; - h / 2; h / 2; h / 2; h / 2; h / 2] in
      let m := rotation_matrix rotation in
      Some (map (fun '(x, (y, z)) => vadd (mat_vec m (Vec3 x y z)) center)
              (combine x_corners (combine y_corners z_corners)))
  | _ => None
  end.

End UtilsV2.

(** ** [hex_to_rgba] of [work/convert_v3/utils.py] *)

Module ColorV3.

(** A digit of base 16. *)
Definition hex_digit (c : ascii) : option Z :=
  let n := Z.of_nat (nat_of_ascii c) in
  if (48 <=? n)%Z && (n <=? 57)%Z then Some (n - 48)%Z
  else if (97 <=? n)%Z && (n <=? 102)%Z then Some (n - 87)%Z
  else if (65 <=? n)%Z && (n <=? 70)%Z then Some (n - 55)%Z
  else None.

(** The ASCII characters [int()] strips: space, \t \n \v \f \r and the
    separators 0x1c..0x1f. *)
Definition is_space (c : ascii) : bool :=
  let n := nat_of_ascii c in
  (n =? 32)%nat || ((9 <=? n)%nat && (n <=? 13)%nat) || ((28 <=? n)%nat && (n <=? 31)%nat).

Fixpoint lstrip (cs : list ascii) : list ascii :=
  match cs with
  | c :: cs' => if is_space c then lstrip cs' else cs
  | [] => []
  end.

Definition strip (cs : list ascii) : list ascii := rev (lstrip (rev (lstrip cs))).

(** Digits, single underscores allowed between two digits. *)
Fixpoint digits_go (cs : list ascii) (acc : Z) : option Z :=
  match cs with
  | [] => Some acc
  | c :: cs' =>
      if Ascii.eqb c "_"%char then
        match cs' with
        | d :: cs'' => let* v := hex_digit d in digits_go cs'' (acc * 16 + v)%Z
        | [] => None
        end
      else let* v := hex_digit c in digits_go cs' (acc * 16 + v)%Z
  end.

Definition digits (cs : list ascii) : option Z :=
  match cs with
  | c :: cs' => let* v := hex_digit c in digits_go cs' v
  | [] => None
  end.

(** [int(s, 16)] on an ASCII string: surrounding whitespace, an optional
    sign, an optional [0x] prefix (one underscore may follow it), then the
    digits; [None] is the [ValueError]. *)
Definition int16 (s : string) : option Z :=
  let cs := strip (list_ascii_of_string s) in
  let '(neg, cs) :=
    match cs with
    | c :: cs' =>
        if Ascii.eqb c "-"%char then (true, cs')
        else if Ascii.eqb c "+"%char then (false, cs')
        else (false, cs)
    | [] => (false, [])
    end in
  let cs :=
    match cs with
    | z :: x :: cs' =>
        if Ascii.eqb z "0"%char && (Ascii.eqb x "x"%char || Ascii.eqb x "X"%char) then
          match cs' with
          | u :: cs'' => if Ascii.eqb u "_"%char then cs'' else cs'
          | [] => cs'
          end
        else cs
    | _ => cs
    end in
  let* n := digits cs in
  Some (if neg then (- n)%Z else n).

(** [hex_to_rgba]; [None] is the [ValueError]. *)
Definition hex_to_rgba (hex_color : string) : option (list Z) :=
  let hex_color :=
    if String.prefix "#" hex_color
    then substring 1 (String.length hex_color - 1) hex_color else hex_color in
  let* hex_color :=
    if Nat.eqb (String.length hex_color) 6 then Some (hex_color ++ "FF")%string
    else if Nat.eqb (String.length hex_color) 8 then Some hex_color
    else None in
  let* r := int16 (substring 0 2 hex_color) in
  let* g := int16 (substring 2 2 hex_color) in
  let* b := int16 (substring 4 2 hex_color) in
  let* a := int16 (substring 6 2 hex_color) in
  Some [r; g; b; a].

(** The format ['%02X'] of a byte, used to state the round trip. *)
Definition hex_char (d : Z) : ascii :=
  match String.get (Z.to_nat d) "0123456789ABCDEF" with
  | Some c => c
  | None => "0"%char
  end.

Definition hex2 (n : Z) : string :=
  String (hex_char (n / 16)) (String (hex_char (n mod 16)) EmptyString).

End ColorV3.

(** ** [split_collections] of [work/convert_v3/map_utils.py] *)

Module GeomV3.

(** A shapely geometry as [split_collections] sees it: its [geom_type],
    [is_valid], [is_empty] and, for a multi-geometry, its [geoms]. *)
Local Set Warnings "-register-all".
Inductive geometry :=
  Geometry (geom_type : string) (is_valid : bool) (is_empty : bool) (geoms : list geometry).

Definition geom_type (g : geometry) : string := let '(Geometry t _ _ _) := g in t.
Definition is_valid (g : geometry) : bool := let '(Geometry _ v _ _) := g in v.
Definition is_empty (g : geometry) : bool := let '(Geometry _ _ e _) := g in e.
Definition geoms (g : geometry) : list geometry := let '(Geometry _ _ _ gs) := g in gs.

(** Python's [pat in s] on strings. *)
Fixpoint contains (pat s : string) : bool :=
  String.prefix pat s ||
  match s with
  | String _ s' => contains pat s'
  | EmptyString => false
  end.

(** [split_collections]; [None] is the [AssertionError]. *)
Definition split_collections (geom : geometry) : option (list geometry) :=
  if existsb (String.eqb (geom_type geom))
       ["MultiLineString"; "LineString"; "MultiPolygon"; "Polygon"; "GeometryCollection"]%string
  then
    if contains "Multi" (geom_type geom) then
      Some (filter (fun g => is_valid g && negb (is_empty g)) (geoms geom))
    else if is_valid geom && negb (is_empty geom) then Some [geom] else Some []
  else None.

End GeomV3.

(** ** [work/converter_v2/converters/pose_converter.py] *)

Module PoseV2.
Import V2 NuScenes.

(** [poses_by_frame] values; the orientation is not kept. *)
Record pose_data := PoseData { pd_timestamp : R; pd_position : vec3 }.

(** [nusc.get('sample', token)] over the [sample] table. *)
Definition get_sample (samples : list sample) (tok : string) : option sample :=
  find (fun s => String.eqb (sm_token s) tok) samples.

Definition _get_ego_pose (db : nusc) (s : sample) : option ego_pose_rec :=
  let* lidar_token := dict_get (sm_data s) LIDAR_TOP in
  let* sample_data := get_sample_data db lidar_token in
  get_ego_pose db (sd_ego_pose_token sample_data).

(** [_convert_pose]: [Rotation.from_quat] on the reordered rotation, with
    its [IndexError] and [ValueError]. *)
Definition _convert_pose (ego_pose : ego_pose_rec) (timestamp : Z) : option pose_data :=
  let position := ep_translation ego_pose in
  let quaternion := ep_rotation ego_pose in
  let* q1 := nth_error quaternion 1 in
  let* q2 := nth_error quaternion 2 in
  let* q3 := nth_error quaternion 3 in
  let* q0 := nth_error quaternion 0 in
  let* _ := ScipyRotation.from_quat q1 q2 q3 q0 in
  let timestamp_seconds := IZR timestamp / 1000000 in
  Some (PoseData timestamp_seconds position).

Definition load_frame (db : nusc) (samples : list sample)
    (acc : option (dict pose_data)) (frame : V2.frame) : option (dict pose_data) :=
  let* poses_by_frame := acc in
  let* s := get_sample samples (f_token frame) in
  let* ego_pose := _get_ego_pose db s in
  let* pose_data := _convert_pose ego_pose (f_timestamp frame) in
  Some (dict_set poses_by_frame (f_token frame) pose_data).

(** [PoseConverter.load]: [poses_by_frame]. *)
Definition load (db : nusc) (samples : list sample) (frames : list V2.frame)
    : option (dict pose_data) :=
  fold_left (load_frame db samples) frames (Some []).

Definition VEHICLE_TRAJECTORY : string := "/vehicle/trajectory".

(** [_add_trajectory]: the primitives it adds. *)
Definition _add_trajectory (poses_by_frame : dict pose_data) (frames : list V2.frame)
    (message_index : nat) : option (list primitive) :=
  let start_idx := 0%nat in
  let end_idx := Nat.min (List.length frames) (message_index + 6) in
  let* points := map_opt (fun i =>
      let* frame := nth_error frames i in
      let* pose := dict_get poses_by_frame (f_token frame) in
      Some (vlist (pd_position pose)))
    (seq start_idx (end_idx - start_idx)) in
  let trajectory_points := List.concat points in
  if Nat.ltb 0 (List.length trajectory_points)
  then Some [Prim VEHICLE_TRAJECTORY Polyline trajectory_points None []]
  else Some [].

End PoseV2.

(* ------------------------------------------------------------------ *)
(** * Lemmas *)

Lemma is_unit_of_ss1 (q : Quaternion) :
  _sum_of_squares q = 1 -> is_unit q = true.
Proof.
  intros H. unfold is_unit. rewrite H.
  replace (1 - 1) with 0 by ring. rewrite Rabs_R0.
  destruct (Rlt_dec 0 (1 / 10 ^ 14)) as [_|n]; [reflexivity|].
  exfalso; apply n. apply Rdiv_lt_0_compat; [lra|]. apply pow_lt; lra.
Qed.

Lemma rotate_unit (q : Quaternion) (v : vec3) :
  _sum_of_squares q = 1 ->
  rotate q v = vector (mul (mul q (of_vector v)) (conjugate q)).
Proof.
  intros H. unfold rotate, _normalise. rewrite (is_unit_of_ss1 q H). reflexivity.
Qed.

Lemma inverse_unit (q : Quaternion) :
  _sum_of_squares q = 1 -> inverse q = Some (conjugate q).
Proof.
  intros H. unfold inverse. rewrite H.
  destruct (Rlt_dec 0 1) as [_|n]; [|lra].
  destruct q as [w x y z]; unfold qdiv, conjugate; cbn [v0 v1 v2 qw qx qy qz].
  f_equal; f_equal; field.
Qed.

Lemma ss_conjugate (q : Quaternion) :
  _sum_of_squares (conjugate q) = _sum_of_squares q.
Proof. destruct q; unfold _sum_of_squares, conjugate; cbn [v0 v1 v2 qw qx qy qz]; ring. Qed.

Ltac quat_ring :=
  repeat match goal with q : Quaternion |- _ => destruct q | v : vec3 |- _ => destruct v end;
  unfold mul, conjugate, of_vector, vector, vscale, _sum_of_squares;
  cbn [v0 v1 v2 qw qx qy qz]; f_equal; ring.

Lemma mul_assoc (a b c : Quaternion) : mul a (mul b c) = mul (mul a b) c.
Proof. quat_ring. Qed.

Lemma mul_conj_l (q : Quaternion) :
  mul (conjugate q) q = Quat (_sum_of_squares q) 0 0 0.
Proof. quat_ring. Qed.

Lemma mul_conj_r (q : Quaternion) :
  mul q (conjugate q) = Quat (_sum_of_squares q) 0 0 0.
Proof. quat_ring. Qed.

Lemma conjugate_involutive (q : Quaternion) : conjugate (conjugate q) = q.
Proof. quat_ring. Qed.

Lemma sandwich_pure (q : Quaternion) (v : vec3) :
  of_vector (vector (mul (mul q (of_vector v)) (conjugate q))) =
  mul (mul q (of_vector v)) (conjugate q).
Proof. quat_ring. Qed.

Lemma scalar_sandwich (s : R) (v : vec3) :
  vector (mul (mul (Quat s 0 0 0) (of_vector v)) (Quat s 0 0 0)) = vscale v (s * s).
Proof. quat_ring. Qed.

(** Rotating by [q] then by [conjugate q] (or the other way round) scales
    by the squared norm twice. *)
Lemma rotate_conj_rotate_raw (q : Quaternion) (v : vec3) :
  let r a u := vector (mul (mul a (of_vector u)) (conjugate a)) in
  r (conjugate q) (r q v) = vscale v (_sum_of_squares q * _sum_of_squares q) /\
  r q (r (conjugate q) v) = vscale v (_sum_of_squares q * _sum_of_squares q).
Proof.
  cbv beta zeta. rewrite !sandwich_pure, conjugate_involutive. split.
  - rewrite (mul_assoc (conjugate q) (mul q (of_vector v)) (conjugate q)).
    rewrite (mul_assoc (conjugate q) q (of_vector v)).
    rewrite <- (mul_assoc (mul (mul (conjugate q) q) (of_vector v)) (conjugate q) q).
    rewrite mul_conj_l. apply scalar_sandwich.
  - rewrite (mul_assoc q (mul (conjugate q) (of_vector v)) q).
    rewrite (mul_assoc q (conjugate q) (of_vector v)).
    rewrite <- (mul_assoc (mul (mul q (conjugate q)) (of_vector v)) q (conjugate q)).
    rewrite mul_conj_r. apply scalar_sandwich.
Qed.

Lemma vscale_1 (v : vec3) : vscale v (1 * 1) = v.
Proof. destruct v; unfold vscale; cbn [v0 v1 v2 qw qx qy qz]; f_equal; ring. Qed.

Lemma vadd_vsub (a b : vec3) : vadd (vsub a b) b = a.
Proof. destruct a, b; unfold vadd, vsub; cbn [v0 v1 v2 qw qx qy qz]; f_equal; ring. Qed.

Lemma vsub_vadd (a b : vec3) : vsub (vadd a b) b = a.
Proof. destruct a, b; unfold vadd, vsub; cbn [v0 v1 v2 qw qx qy qz]; f_equal; ring. Qed.

(** C1: world -> vehicle -> world and vehicle -> world -> vehicle are the
    identity on points, for every unit quaternion (exact arithmetic: the
    error is 0, within any tolerance such as 1e-6). *)
Theorem frame_transform_round_trip (P t : vec3) (q : Quaternion)
  (Hunit : _sum_of_squares q = 1) :
  option_map (fun pv => vehicle_to_global_frame pv t q)
    (global_to_vehicle_frame P t q) = Some P /\
  global_to_vehicle_frame (vehicle_to_global_frame P t q) t q = Some P.
Proof.
  unfold global_to_vehicle_frame, vehicle_to_global_frame.
  rewrite (inverse_unit q Hunit).
  assert (Hc : _sum_of_squares (conjugate q) = 1) by (rewrite ss_conjugate; exact Hunit).
  split; cbn [option_map].
  - rewrite (rotate_unit _ _ Hc), (rotate_unit _ _ Hunit).
    destruct (rotate_conj_rotate_raw q (vsub P t)) as [_ H2].
    cbv beta zeta in H2. rewrite H2, Hunit, vscale_1, vadd_vsub. reflexivity.
  - rewrite (rotate_unit _ _ Hc), (rotate_unit _ _ Hunit).
    rewrite vsub_vadd.
    destruct (rotate_conj_rotate_raw q P) as [H1 _].
    cbv beta zeta in H1. rewrite H1, Hunit, vscale_1. reflexivity.
Qed.

Lemma frame_transform_round_trip_witness :
  _sum_of_squares (Quat 0 0 0 1) = 1 /\
  global_to_vehicle_frame
    (vehicle_to_global_frame (Vec3 1 2 3) (Vec3 10 20 30) (Quat 0 0 0 1))
    (Vec3 10 20 30) (Quat 0 0 0 1) = Some (Vec3 1 2 3).
Proof.
  assert (H : _sum_of_squares (Quat 0 0 0 1) = 1)
    by (unfold _sum_of_squares; cbn [v0 v1 v2 qw qx qy qz]; ring).
  split; [exact H|].
  exact (proj2 (frame_transform_round_trip (Vec3 1 2 3) (Vec3 10 20 30) _ H)).
Defined.

Lemma find_index_some {A} (p : A -> bool) (l : list A) (i : nat) :
  find_index p l = Some i -> exists x, nth_error l i = Some x /\ p x = true.
Proof.
  revert i; induction l as [|y l IH]; intros i H; cbn in H; [discriminate|].
  destruct (p y) eqn:Hy.
  - injection H as <-. exists y; auto.
  - destruct (find_index p l) as [j|] eqn:Hj; cbn in H; [|discriminate].
    injection H as <-. destruct (IH j eq_refl) as (x & Hx & Hp). exists x; auto.
Qed.

Lemma time_step_half : FutureAnno.time_step = 1 / 2.
Proof.
  unfold FutureAnno.time_step, FutureAnno.prediction_horizon, FutureAnno.prediction_steps.
  replace (INR 6) with 6 by (cbn; ring). field.
Qed.

(** C3: a prediction is six positions at uniform half-second steps from the
    current position under the estimated (planar) velocity, with the
    orientation of the current sample. *)
Lemma predict_shape (trajs : dict (list FutureAnno.sample)) (inst : string)
    (T : Z) (fps : list FutureAnno.future) :
  FutureAnno._predict_future_positions trajs inst T = Some fps ->
  exists traj idx cur v,
    dict_get trajs inst = Some traj /\ nth_error traj idx = Some cur /\
    FutureAnno.s_timestamp cur = T /\
    FutureAnno._estimate_velocity traj idx = Some v /\
    List.length fps = 6%nat /\
    (forall k, (k < 6)%nat -> exists f, nth_error fps k = Some f /\
       FutureAnno.ft_translation f =
         vadd (FutureAnno.s_translation cur) (vscale v (INR (S k) * (1 / 2))) /\
       FutureAnno.ft_rotation f = FutureAnno.s_rotation cur).
Proof.
  unfold FutureAnno._predict_future_positions.
  destruct (dict_get trajs inst) as [traj|] eqn:Hd; [|discriminate].
  destruct (find_index _ traj) as [idx|] eqn:Hf; [|discriminate].
  destruct (FutureAnno._estimate_velocity traj idx) as [v|] eqn:He; [|discriminate].
  destruct (Rlt_dec _ _) as [_|_]; [discriminate|].
  destruct (nth_error traj idx) as [cur|] eqn:Hn; [|discriminate].
  intros Hs; injection Hs as <-.
  destruct (find_index_some _ _ _ Hf) as (x & Hx & Hp).
  rewrite Hn in Hx; injection Hx as <-. apply Z.eqb_eq in Hp.
  exists traj, idx, cur, v. repeat split; auto.
  intros k Hk. rewrite time_step_half.
  do 6 (destruct k as [|k]; [eexists; split; [reflexivity|split; reflexivity]|]).
  lia.
Qed.

(** C3: Future-Motion Predictor projection.  Whenever a prediction is made
    for an instance, it consists of exactly six positions; the k-th
    (k = 1..6) is the current position plus the estimated velocity times
    k * 0.5 s, with the current orientation; and the emitted primitives are
    the predicted-path Polyline and one footprint Polygon placed at the
    sixth (final) predicted position, transformed into the vehicle frame. *)
Theorem future_prediction_constant_velocity
    (trajs : dict (list FutureAnno.sample)) (T : Z) (ep : V2.ego_pose)
    (a : V2.ann) (fps : list FutureAnno.future)
    (Hpred : FutureAnno._predict_future_positions trajs (V2.a_instance_token a) T
             = Some fps) :
  (exists traj idx cur v,
    dict_get trajs (V2.a_instance_token a) = Some traj /\
    nth_error traj idx = Some cur /\ FutureAnno.s_timestamp cur = T /\
    FutureAnno._estimate_velocity traj idx = Some v /\
    List.length fps = 6%nat /\
    (forall k, (k < 6)%nat -> exists f, nth_error fps k = Some f /\
       FutureAnno.ft_translation f =
         vadd (FutureAnno.s_translation cur) (vscale v (INR (S k) * (1 / 2))) /\
       FutureAnno.ft_rotation f = FutureAnno.s_rotation cur)) /\
  (forall prims, FutureAnno.convert_ann trajs T ep a = Some prims ->
     exists f vp tr y,
       nth_error fps 5 = Some f /\
       FutureAnno._global_to_vehicle (FutureAnno.ft_translation f) ep = Some vp /\
       V2.p_kind tr = V2.Polyline /\
       prims = [tr; V2.Prim "/object/future_boxes"%string V2.Polygon
                      (V2.vlist vp ++ V2.vlist (V2.a_size a) ++ [y])
                      (Some (String.append (V2.a_instance_token a) "_future_box")) []]).
Proof.
  split; [exact (predict_shape _ _ _ _ Hpred)|].
  destruct (predict_shape _ _ _ _ Hpred) as (_ & _ & _ & _ & _ & _ & _ & _ & Hlen & _).
  intros prims Hc. unfold FutureAnno.convert_ann in Hc. rewrite Hpred in Hc.
  do 6 (destruct fps as [|? fps]; [discriminate|]).
  destruct fps; [|discriminate].
  unfold FutureAnno._convert_future_trajectory in Hc.
  destruct (fold_right _ (Some []) _) as [pts|]; [|discriminate].
  unfold FutureAnno._convert_future_boxes in Hc. cbn in Hc.
  destruct (FutureAnno._global_to_vehicle _ ep) as [vp|] eqn:Hv; [|discriminate].
  destruct (inverse (V2.e_rotation ep)) as [inv|]; [|discriminate].
  injection Hc as <-.
  do 4 eexists. split; [reflexivity|]. split; [exact Hv|]. split; [|reflexivity]. reflexivity.
Qed.

Lemma two_frames_track :
  dict_get (FutureAnno.build Scenarios.two_frames) "car-1" =
  Some [FutureAnno.Sample 0 (Vec3 (-2) 0 0) (Quat 1 0 0 0) (Vec3 2 4 1) V2.zero3;
        FutureAnno.Sample 1000000 (Vec3 0 0 0) (Quat 1 0 0 0) (Vec3 2 4 1) V2.zero3].
Proof. reflexivity. Qed.

Lemma vnorm_zero3 : vnorm V2.zero3 = 0.
Proof.
  unfold vnorm, V2.zero3; cbn [v0 v1 v2].
  replace (0 * 0 + 0 * 0 + 0 * 0) with 0 by ring. apply sqrt_0.
Qed.

Lemma two_frames_velocity :
  FutureAnno._estimate_velocity
    [FutureAnno.Sample 0 (Vec3 (-2) 0 0) (Quat 1 0 0 0) (Vec3 2 4 1) V2.zero3;
     FutureAnno.Sample 1000000 (Vec3 0 0 0) (Quat 1 0 0 0) (Vec3 2 4 1) V2.zero3] 1
  = Some (Vec3 2 0 0).
Proof.
  unfold FutureAnno._estimate_velocity. cbn [nth_error FutureAnno.s_velocity].
  rewrite vnorm_zero3. destruct (Rlt_dec 0 0) as [H|_]; [lra|].
  cbn [Nat.min Nat.add Nat.ltb Nat.leb Nat.sub slice firstn skipn map hd_error
       last_error rev List.app FutureAnno.s_translation FutureAnno.s_timestamp].
  replace (IZR (1000000 - 0) / 10 ^ 6) with 1 by (rewrite Z.sub_0_r; field).  
  destruct (Rlt_dec 1 (1 / 100)) as [H|_]; [lra|].
  unfold vdiv, vsub; cbn [v0 v1 v2]. do 2 f_equal; field.
Qed.

Lemma identity_pose_transform (p : vec3) :
  FutureAnno._global_to_vehicle p Scenarios.identity_pose = Some p.
Proof.
  assert (H : _sum_of_squares (Quat 1 0 0 0) = 1)
    by (unfold _sum_of_squares; cbn [qw qx qy qz]; ring).
  unfold FutureAnno._global_to_vehicle, global_to_vehicle_frame, Scenarios.identity_pose.
  cbn [V2.e_rotation V2.e_translation]. rewrite (inverse_unit _ H).
  rewrite (rotate_unit _ _ (eq_trans (ss_conjugate _) H)).
  destruct p as [x y z]. unfold vector, mul, of_vector, conjugate, vsub.
  cbn [v0 v1 v2 qw qx qy qz]. do 2 f_equal; ring.
Qed.

Lemma two_frames_prediction :
  FutureAnno._predict_future_positions (FutureAnno.build Scenarios.two_frames)
    "car-1" 1000000 = Some Scenarios.two_frames_fps.
Proof.
  unfold FutureAnno._predict_future_positions. rewrite two_frames_track.
  cbn [find_index FutureAnno.s_timestamp Z.eqb Pos.eqb option_map].
  rewrite two_frames_velocity.
  replace (vnorm (Vec3 2 0 0)) with 2
    by (unfold vnorm; cbn [v0 v1 v2];
        replace (2 * 2 + 0 * 0 + 0 * 0) with (2 * 2) by ring;
        rewrite sqrt_square; lra).
  destruct (Rlt_dec 2 (1 / 10)) as [H|_]; [lra|].
  cbn [nth_error FutureAnno.s_translation FutureAnno.s_rotation].
  unfold Scenarios.two_frames_fps. f_equal. apply map_ext. intros step.
  f_equal. unfold vadd, vscale; cbn [v0 v1 v2]. rewrite time_step_half. f_equal; field.
Qed.

Lemma future_prediction_constant_velocity_witness :
  FutureAnno._predict_future_positions (FutureAnno.build Scenarios.two_frames)
    (V2.a_instance_token (Scenarios.car_at "a1" 0)) 1000000
    = Some Scenarios.two_frames_fps /\
  map FutureAnno.ft_translation Scenarios.two_frames_fps =
    [Vec3 1 0 0; Vec3 2 0 0; Vec3 3 0 0; Vec3 4 0 0; Vec3 5 0 0; Vec3 6 0 0] /\
  FutureAnno._global_to_vehicle (Vec3 6 0 0) Scenarios.identity_pose
    = Some (Vec3 6 0 0) /\
  ((exists traj idx cur v,
    dict_get (FutureAnno.build Scenarios.two_frames) "car-1" = Some traj /\
    nth_error traj idx = Some cur /\ FutureAnno.s_timestamp cur = 1000000%Z /\
    FutureAnno._estimate_velocity traj idx = Some v /\
    List.length Scenarios.two_frames_fps = 6%nat /\
    (forall k, (k < 6)%nat -> exists f, nth_error Scenarios.two_frames_fps k = Some f /\
       FutureAnno.ft_translation f =
         vadd (FutureAnno.s_translation cur) (vscale v (INR (S k) * (1 / 2))) /\
       FutureAnno.ft_rotation f = FutureAnno.s_rotation cur)) /\
  (forall prims, FutureAnno.convert_ann (FutureAnno.build Scenarios.two_frames)
                   1000000 Scenarios.identity_pose (Scenarios.car_at "a1" 0) = Some prims ->
     exists f vp tr y,
       nth_error Scenarios.two_frames_fps 5 = Some f /\
       FutureAnno._global_to_vehicle (FutureAnno.ft_translation f)
         Scenarios.identity_pose = Some vp /\
       V2.p_kind tr = V2.Polyline /\
       prims = [tr; V2.Prim "/object/future_boxes"%string V2.Polygon
                      (V2.vlist vp ++ V2.vlist (Vec3 2 4 1) ++ [y])
                      (Some (String.append "car-1" "_future_box")) []])).
Proof.
  split; [exact two_frames_prediction|].
  split.
  { unfold Scenarios.two_frames_fps. cbn [map seq FutureAnno.prediction_steps
      FutureAnno.ft_translation].
    repeat f_equal; cbn; ring. }
  split; [apply identity_pose_transform|].
  exact (future_prediction_constant_velocity (FutureAnno.build Scenarios.two_frames)
           1000000 Scenarios.identity_pose (Scenarios.car_at "a1" 0)
           Scenarios.two_frames_fps two_frames_prediction).
Defined.

(** ** Window arithmetic of [_estimate_velocity] *)

Lemma last_error_nth {A} (l : list A) : last_error l = nth_error l (List.length l - 1).
Proof.
  unfold last_error. destruct l as [|x l]; [reflexivity|].
  change (hd_error (rev (x :: l))) with (nth_error (rev (x :: l)) 0).
  rewrite nth_error_rev. cbn [List.length Nat.ltb Nat.leb]. replace (S (List.length l) - 1)%nat with (List.length l - 0)%nat by lia. reflexivity.
Qed.

Lemma hd_error_map {A B} (f : A -> B) (l : list A) :
  hd_error (map f l) = option_map f (hd_error l).
Proof. destruct l; reflexivity. Qed.

Lemma last_error_map {A B} (f : A -> B) (l : list A) :
  last_error (map f l) = option_map f (last_error l).
Proof. rewrite !last_error_nth, length_map, nth_error_map. reflexivity. Qed.

Lemma slice_ends {A} (l : list A) (a b : nat) :
  (a < b)%nat -> (b <= List.length l)%nat ->
  hd_error (slice l a b) = nth_error l a /\ last_error (slice l a b) = nth_error l (b - 1).
Proof.
  intros Hab Hb. unfold slice. split.
  - change (hd_error (firstn (b - a) (skipn a l)))
      with (nth_error (firstn (b - a) (skipn a l)) 0).
    rewrite nth_error_firstn.
    destruct (Nat.ltb_spec 0 (b - a)); [|lia].
    rewrite nth_error_skipn. f_equal. lia.
  - rewrite last_error_nth, length_firstn, length_skipn, nth_error_firstn.
    destruct (Nat.ltb_spec (Nat.min (b - a) (List.length l - a) - 1) (b - a)); [|lia].
    rewrite nth_error_skipn. f_equal. lia.
Qed.

(** [_estimate_velocity] in closed form: the declared velocity when it is
    non-zero, else the finite difference between the current sample and
    the sample two places before it (or the first sample). *)
Lemma estimate_velocity_closed (traj : list FutureAnno.sample) (idx : nat)
    (cur : FutureAnno.sample) :
  nth_error traj idx = Some cur ->
  FutureAnno._estimate_velocity traj idx =
  let d := FutureAnno.s_velocity cur in
  if Rlt_dec 0 (vnorm d) then Some (Vec3 (v0 d) (v1 d) 0)
  else if Nat.eqb idx 0 then None
  else match nth_error traj (idx - 2) with
       | None => None
       | Some first =>
           let el := IZR (FutureAnno.s_timestamp cur - FutureAnno.s_timestamp first)
                     / 10 ^ 6 in
           if Rlt_dec el (1 / 100) then None
           else Some (Vec3 ((v0 (FutureAnno.s_translation cur)
                              - v0 (FutureAnno.s_translation first)) / el)
                           ((v1 (FutureAnno.s_translation cur)
                              - v1 (FutureAnno.s_translation first)) / el) 0)
       end.
Proof.
  intros Hcur. assert (Hlt : (idx < List.length traj)%nat)
    by (apply nth_error_Some; rewrite Hcur; discriminate).
  unfold FutureAnno._estimate_velocity. rewrite Hcur. cbv zeta.
  destruct (Rlt_dec 0 _) as [_|_]; [reflexivity|].
  destruct idx as [|idx]; [reflexivity|].
  assert (Hst : (S idx + 1 - Nat.min 3 (S idx + 1))%nat = (S idx - 2)%nat) by lia.
  destruct (Nat.ltb_spec (Nat.min 3 (S idx + 1)) 2) as [Hl|_]; [lia|].
  rewrite Hst. cbn [Nat.eqb].
  destruct (slice_ends traj (S idx - 2) (S idx + 1)) as [Hh Hl]; [lia|lia|].
  replace (S idx + 1 - 1)%nat with (S idx) in Hl by lia.
  rewrite !hd_error_map, !last_error_map, Hh, Hl, Hcur.
  destruct (nth_error traj (S idx - 2)) as [first|]; [|reflexivity].
  cbn [option_map].
  destruct (Rlt_dec _ (1 / 100)); [reflexivity|].
  unfold vdiv, vsub. reflexivity.
Qed.

Lemma vnorm_nonneg (v : vec3) : 0 <= vnorm v.
Proof. apply sqrt_pos. Qed.

(** The skip condition of the predictor, in the claim's terms. *)
Lemma predict_none_iff (trajs : dict (list FutureAnno.sample)) (inst : string) (T : Z) :
  FutureAnno._predict_future_positions trajs inst T = None <->
  match dict_get trajs inst with
  | None => True
  | Some traj =>
    match find_index (fun p => Z.eqb (FutureAnno.s_timestamp p) T) traj with
    | None => True
    | Some idx =>
      exists cur first,
        nth_error traj idx = Some cur /\ nth_error traj (idx - 2) = Some first /\
        let d := FutureAnno.s_velocity cur in
        let el := IZR (FutureAnno.s_timestamp cur - FutureAnno.s_timestamp first)
                  / 10 ^ 6 in
        let fd := Vec3 ((v0 (FutureAnno.s_translation cur)
                          - v0 (FutureAnno.s_translation first)) / el)
                       ((v1 (FutureAnno.s_translation cur)
                          - v1 (FutureAnno.s_translation first)) / el) 0 in
        (0 < vnorm d /\ vnorm (Vec3 (v0 d) (v1 d) 0) < 1 / 10) \/
        (vnorm d = 0 /\ (idx = 0%nat \/ el < 1 / 100 \/ vnorm fd < 1 / 10))
    end
  end.
Proof.
  unfold FutureAnno._predict_future_positions.
  destruct (dict_get trajs inst) as [traj|]; [|tauto].
  destruct (find_index _ traj) as [idx|] eqn:Hf; [|tauto].
  destruct (find_index_some _ _ _ Hf) as (cur & Hcur & _).
  assert (Hlt : (idx < List.length traj)%nat)
    by (apply nth_error_Some; rewrite Hcur; discriminate).
  destruct (nth_error traj (idx - 2)) as [first|] eqn:Hfirst;
    [|apply nth_error_None in Hfirst; lia].
  match goal with |- _ <-> (exists c f, _ /\ _ /\ @?P c f) =>
    transitivity (P cur first) end.
  2:{ cbv beta zeta. split.
      - intros HP. exists cur, first. auto.
      - intros (c & f & H1 & H2 & HP). rewrite Hcur in H1.
        injection H1 as <-. injection H2 as <-. exact HP. }
  rewrite (estimate_velocity_closed _ _ _ Hcur), Hfirst, Hcur. cbv zeta.
  pose proof (vnorm_nonneg (FutureAnno.s_velocity cur)) as Hn.
  destruct (Rlt_dec 0 (vnorm (FutureAnno.s_velocity cur))) as [Hp|Hp].
  - destruct (Rlt_dec (vnorm _) (1 / 10)) as [Hs|Hs].
    + split; [intros _; left; auto|reflexivity].
    + split; [discriminate|]. intros [[_ H]|[H _]]; [contradiction|lra].
  - assert (Hz : vnorm (FutureAnno.s_velocity cur) = 0) by lra.
    destruct (Nat.eqb_spec idx 0) as [Hi|Hi].
    + split; [intros _; right; auto|reflexivity].
    + destruct (Rlt_dec _ (1 / 100)) as [He|He].
      * split; [intros _; right; auto|reflexivity].
      * destruct (Rlt_dec (vnorm _) (1 / 10)) as [Hs|Hs].
        -- split; [intros _; right; auto|reflexivity].
        -- split; [discriminate|].
           intros [[H _]|[_ [H|[H|H]]]]; [lra|contradiction|contradiction|contradiction].
Qed.

Lemma global_to_vehicle_total (p : vec3) (ep : V2.ego_pose) :
  0 < _sum_of_squares (V2.e_rotation ep) ->
  exists vp, FutureAnno._global_to_vehicle p ep = Some vp.
Proof.
  intros H. unfold FutureAnno._global_to_vehicle, global_to_vehicle_frame, inverse.
  destruct (Rlt_dec 0 _) as [_|n]; [eexists; reflexivity|contradiction].
Qed.

(** For a non-degenerate ego rotation the per-annotation step emits either
    nothing (no prediction) or the predicted-path Polyline followed by one
    footprint Polygon. *)
Lemma convert_ann_cases (trajs : dict (list FutureAnno.sample)) (T : Z)
    (ep : V2.ego_pose) (a : V2.ann) :
  0 < _sum_of_squares (V2.e_rotation ep) ->
  (FutureAnno._predict_future_positions trajs (V2.a_instance_token a) T = None ->
   FutureAnno.convert_ann trajs T ep a = Some []) /\
  (forall fps, FutureAnno._predict_future_positions trajs (V2.a_instance_token a) T
               = Some fps ->
   exists tr bx, FutureAnno.convert_ann trajs T ep a = Some [tr; bx] /\
     V2.p_kind tr = V2.Polyline /\ V2.p_kind bx = V2.Polygon).
Proof.
  intros Hego. split.
  - intros Hp. unfold FutureAnno.convert_ann. rewrite Hp. reflexivity.
  - intros fps Hp.
    destruct (predict_shape _ _ _ _ Hp) as (_ & _ & _ & _ & _ & _ & _ & _ & Hlen & _).
    unfold FutureAnno.convert_ann. rewrite Hp.
    assert (Hfold : forall l : list FutureAnno.future, exists pts,
      fold_right (fun pd acc =>
        let* vp := FutureAnno._global_to_vehicle (FutureAnno.ft_translation pd) ep in
        let* rest := acc in Some (V2.vlist vp ++ rest)) (Some []) l = Some pts).
    { induction l as [|pd l [pts IH]]; [eexists; reflexivity|].
      cbn [fold_right]. rewrite IH.
      destruct (global_to_vehicle_total (FutureAnno.ft_translation pd) ep Hego) as [vp Hv].
      rewrite Hv. eexists; reflexivity. }
    do 6 (destruct fps as [|? fps]; [discriminate|]). destruct fps; [|discriminate].
    unfold FutureAnno._convert_future_trajectory.
    destruct (Hfold [f; f0; f1; f2; f3; f4]) as [pts Hpts]. rewrite Hpts.
    unfold FutureAnno._convert_future_boxes. cbn [last_error rev List.app hd_error].
    destruct (global_to_vehicle_total (FutureAnno.ft_translation f4) ep Hego) as [vp Hv].
    rewrite Hv. unfold inverse. destruct (Rlt_dec 0 _) as [_|n]; [|contradiction].
    do 2 eexists. split; [reflexivity|]. split; reflexivity.
Qed.

(** C4: velocity fallback and skip.  The velocity is the declared one
    (made planar) when its norm is non-zero, else the finite difference
    (displacement / elapsed time, made planar) over the samples from two
    places before the current one (or the first sample) to the current
    one; and no future primitive is emitted for an annotation exactly when
    the instance has no track, the track has no sample at the current
    timestamp, or the chosen estimate is unusable: declared velocity with
    planar speed below 0.1, or finite difference with fewer than 2 samples,
    elapsed time below 0.01 s, or speed below 0.1.  Otherwise exactly the
    Polyline and the Polygon are emitted. *)
Theorem future_velocity_fallback_and_skip
    (trajs : dict (list FutureAnno.sample)) (T : Z) (ep : V2.ego_pose) (a : V2.ann)
    (Hego : 0 < _sum_of_squares (V2.e_rotation ep)) :
  (forall traj idx cur, nth_error traj idx = Some cur ->
    FutureAnno._estimate_velocity traj idx =
    let d := FutureAnno.s_velocity cur in
    if Rlt_dec 0 (vnorm d) then Some (Vec3 (v0 d) (v1 d) 0)
    else if Nat.eqb idx 0 then None
    else match nth_error traj (idx - 2) with
         | None => None
         | Some first =>
             let el := IZR (FutureAnno.s_timestamp cur - FutureAnno.s_timestamp first)
                       / 10 ^ 6 in
             if Rlt_dec el (1 / 100) then None
             else Some (Vec3 ((v0 (FutureAnno.s_translation cur)
                                - v0 (FutureAnno.s_translation first)) / el)
                             ((v1 (FutureAnno.s_translation cur)
                                - v1 (FutureAnno.s_translation first)) / el) 0)
         end) /\
  (FutureAnno.convert_ann trajs T ep a = Some [] <->
   match dict_get trajs (V2.a_instance_token a) with
   | None => True
   | Some traj =>
     match find_index (fun p => Z.eqb (FutureAnno.s_timestamp p) T) traj with
     | None => True
     | Some idx =>
       exists cur first,
         nth_error traj idx = Some cur /\ nth_error traj (idx - 2) = Some first /\
         let d := FutureAnno.s_velocity cur in
         let el := IZR (FutureAnno.s_timestamp cur - FutureAnno.s_timestamp first)
                   / 10 ^ 6 in
         let fd := Vec3 ((v0 (FutureAnno.s_translation cur)
                           - v0 (FutureAnno.s_translation first)) / el)
                        ((v1 (FutureAnno.s_translation cur)
                           - v1 (FutureAnno.s_translation first)) / el) 0 in
         (0 < vnorm d /\ vnorm (Vec3 (v0 d) (v1 d) 0) < 1 / 10) \/
         (vnorm d = 0 /\ (idx = 0%nat \/ el < 1 / 100 \/ vnorm fd < 1 / 10))
     end
   end) /\
  (FutureAnno.convert_ann trajs T ep a <> Some [] ->
   exists tr bx, FutureAnno.convert_ann trajs T ep a = Some [tr; bx] /\
     V2.p_kind tr = V2.Polyline /\ V2.p_kind bx = V2.Polygon).
Proof.
  destruct (convert_ann_cases trajs T ep a Hego) as [Hnone Hsome].
  split; [exact estimate_velocity_closed|].
  rewrite <- predict_none_iff.
  destruct (FutureAnno._predict_future_positions trajs (V2.a_instance_token a) T)
    as [fps|] eqn:Hp.
  - destruct (Hsome fps eq_refl) as (tr & bx & Hc & Hk).
    rewrite Hc. split; [split; discriminate|]. intros _. eauto.
  - rewrite (Hnone eq_refl). split; [tauto|]. intros H; contradiction.
Qed.

Lemma identity_pose_ss : 0 < _sum_of_squares (V2.e_rotation Scenarios.identity_pose).
Proof. unfold _sum_of_squares; cbn [V2.e_rotation Scenarios.identity_pose qw qx qy qz]. lra. Qed.

Lemma future_velocity_fallback_and_skip_witness :
  0 < _sum_of_squares (V2.e_rotation Scenarios.identity_pose) /\
  FutureAnno.convert_ann (FutureAnno.build Scenarios.two_frames) 0
    Scenarios.identity_pose (Scenarios.car_at "a0" (-2)) = Some [] /\
  (forall traj idx cur, nth_error traj idx = Some cur ->
    FutureAnno._estimate_velocity traj idx =
    let d := FutureAnno.s_velocity cur in
    if Rlt_dec 0 (vnorm d) then Some (Vec3 (v0 d) (v1 d) 0)
    else if Nat.eqb idx 0 then None
    else match nth_error traj (idx - 2) with
         | None => None
         | Some first =>
             let el := IZR (FutureAnno.s_timestamp cur - FutureAnno.s_timestamp first)
                       / 10 ^ 6 in
             if Rlt_dec el (1 / 100) then None
             else Some (Vec3 ((v0 (FutureAnno.s_translation cur)
                                - v0 (FutureAnno.s_translation first)) / el)
                             ((v1 (FutureAnno.s_translation cur)
                                - v1 (FutureAnno.s_translation first)) / el) 0)
         end) /\
  (FutureAnno.convert_ann (FutureAnno.build Scenarios.two_frames) 0
     Scenarios.identity_pose (Scenarios.car_at "a0" (-2)) = Some [] <->
   match dict_get (FutureAnno.build Scenarios.two_frames) "car-1" with
   | None => True
   | Some traj =>
     match find_index (fun p => Z.eqb (FutureAnno.s_timestamp p) 0) traj with
     | None => True
     | Some idx =>
       exists cur first,
         nth_error traj idx = Some cur /\ nth_error traj (idx - 2) = Some first /\
         let d := FutureAnno.s_velocity cur in
         let el := IZR (FutureAnno.s_timestamp cur - FutureAnno.s_timestamp first)
                   / 10 ^ 6 in
         let fd := Vec3 ((v0 (FutureAnno.s_translation cur)
                           - v0 (FutureAnno.s_translation first)) / el)
                        ((v1 (FutureAnno.s_translation cur)
                           - v1 (FutureAnno.s_translation first)) / el) 0 in
         (0 < vnorm d /\ vnorm (Vec3 (v0 d) (v1 d) 0) < 1 / 10) \/
         (vnorm d = 0 /\ (idx = 0%nat \/ el < 1 / 100 \/ vnorm fd < 1 / 10))
     end
   end) /\
  (FutureAnno.convert_ann (FutureAnno.build Scenarios.two_frames) 0
     Scenarios.identity_pose (Scenarios.car_at "a0" (-2)) <> Some [] ->
   exists tr bx, FutureAnno.convert_ann (FutureAnno.build Scenarios.two_frames) 0
     Scenarios.identity_pose (Scenarios.car_at "a0" (-2)) = Some [tr; bx] /\
     V2.p_kind tr = V2.Polyline /\ V2.p_kind bx = V2.Polygon).
Proof.
  pose proof (future_velocity_fallback_and_skip (FutureAnno.build Scenarios.two_frames)
                0 Scenarios.identity_pose (Scenarios.car_at "a0" (-2))
                identity_pose_ss) as (H1 & H2 & H3).
  split; [exact identity_pose_ss|].
  split.
  - apply (proj2 H2). cbn [V2.a_instance_token Scenarios.car_at].
    rewrite two_frames_track. cbn [find_index FutureAnno.s_timestamp Z.eqb].
    exists (FutureAnno.Sample 0 (Vec3 (-2) 0 0) (Quat 1 0 0 0) (Vec3 2 4 1) V2.zero3),
           (FutureAnno.Sample 0 (Vec3 (-2) 0 0) (Quat 1 0 0 0) (Vec3 2 4 1) V2.zero3).
    split; [reflexivity|]. split; [reflexivity|].
    cbv zeta. cbn [FutureAnno.s_velocity]. right. split; [exact vnorm_zero3|]. left; reflexivity.
  - split; [exact H1|]. split; [exact H2|exact H3].
Defined.

Lemma fold_transform_flat (ep : V2.ego_pose) (l : list AnnoV2.track_point) :
  0 < _sum_of_squares (V2.e_rotation ep) ->
  fold_right (fun point acc =>
      let* vehicle_pos := AnnoV2._global_to_vehicle (AnnoV2.tp_translation point) ep in
      let* rest := acc in Some (V2.vlist vehicle_pos ++ rest)) (Some []) l =
  Some (flat_map (fun p => match AnnoV2._global_to_vehicle (AnnoV2.tp_translation p) ep with
                           | Some v => V2.vlist v | None => [] end) l).
Proof.
  intros Hego. induction l as [|p l IH]; [reflexivity|].
  cbn [fold_right flat_map]. rewrite IH.
  destruct (global_to_vehicle_total (AnnoV2.tp_translation p) ep Hego) as [vp Hv].
  unfold AnnoV2._global_to_vehicle. unfold FutureAnno._global_to_vehicle in Hv.
  rewrite Hv. reflexivity.
Qed.

(** C5: historical-trajectory window closure.  The samples kept are exactly
    those of the track with [T - 3 s <= ts <= T], in track order; fewer than
    two of them emit nothing, otherwise one Polyline tagged with the
    instance id carries their positions in the vehicle frame. *)
Theorem trajectory_window_closure (trajs : dict (list AnnoV2.track_point))
    (a : V2.ann) (T : Z) (ep : V2.ego_pose)
    (Hego : 0 < _sum_of_squares (V2.e_rotation ep)) :
  match dict_get trajs (V2.a_instance_token a) with
  | None => AnnoV2._convert_trajectory trajs a T ep = Some []
  | Some traj =>
    let sel := filter (fun p => Z.leb (T - 3000000) (AnnoV2.tp_timestamp p) &&
                                Z.leb (AnnoV2.tp_timestamp p) T) traj in
    (forall p, In p sel <->
       In p traj /\ (T - 3000000 <= AnnoV2.tp_timestamp p <= T)%Z) /\
    ((List.length sel < 2)%nat -> AnnoV2._convert_trajectory trajs a T ep = Some []) /\
    ((2 <= List.length sel)%nat ->
     AnnoV2._convert_trajectory trajs a T ep =
       Some [V2.Prim "/object/trajectory"%string V2.Polyline
               (flat_map (fun p =>
                  match AnnoV2._global_to_vehicle (AnnoV2.tp_translation p) ep with
                  | Some v => V2.vlist v | None => [] end) sel)
               (Some (V2.a_instance_token a)) []])
  end.
Proof.
  unfold AnnoV2._convert_trajectory, AnnoV2.time_window.
  destruct (dict_get trajs (V2.a_instance_token a)) as [traj|]; [|reflexivity].
  cbv zeta.
  set (sel := filter (fun p => Z.leb (T - 3000000) (AnnoV2.tp_timestamp p) &&
                               Z.leb (AnnoV2.tp_timestamp p) T) traj).
  assert (Hsel : filter (fun point => Z.geb T (AnnoV2.tp_timestamp point) &&
                    Z.geb (AnnoV2.tp_timestamp point) (T - 3000000)) traj = sel).
  { unfold sel. apply filter_ext. intros p.
    rewrite !Z.geb_leb, andb_comm. reflexivity. }
  rewrite Hsel. split; [|split].
  - intros p. unfold sel. rewrite filter_In, andb_true_iff, !Z.leb_le. tauto.
  - intros Hl. destruct (Nat.ltb_spec (List.length sel) 2); [reflexivity|lia].
  - intros Hl. destruct (Nat.ltb_spec (List.length sel) 2); [lia|].
    rewrite (fold_transform_flat ep sel Hego). reflexivity.
Qed.

Lemma trajectory_window_closure_witness :
  0 < _sum_of_squares (V2.e_rotation Scenarios.identity_pose) /\
  option_map (fun traj => map AnnoV2.tp_timestamp
                (filter (fun p => Z.leb (4000000 - 3000000) (AnnoV2.tp_timestamp p) &&
                                  Z.leb (AnnoV2.tp_timestamp p) 4000000) traj))
    (dict_get (AnnoV2.build Scenarios.five_frames) "car-1")
    = Some [1000000; 2000000; 3000000; 4000000]%Z /\
  option_map (fun traj => map AnnoV2.tp_timestamp
                (filter (fun p => Z.leb (0 - 3000000) (AnnoV2.tp_timestamp p) &&
                                  Z.leb (AnnoV2.tp_timestamp p) 0) traj))
    (dict_get (AnnoV2.build Scenarios.five_frames) "car-1") = Some [0%Z] /\
  AnnoV2._convert_trajectory (AnnoV2.build Scenarios.five_frames)
    (Scenarios.car_at "a" 0) 0 Scenarios.identity_pose = Some [] /\
  (match dict_get (AnnoV2.build Scenarios.five_frames)
           (V2.a_instance_token (Scenarios.car_at "a" (INR 4))) with
   | None => AnnoV2._convert_trajectory (AnnoV2.build Scenarios.five_frames)
               (Scenarios.car_at "a" (INR 4)) 4000000 Scenarios.identity_pose = Some []
   | Some traj =>
    let sel := filter (fun p => Z.leb (4000000 - 3000000) (AnnoV2.tp_timestamp p) &&
                                Z.leb (AnnoV2.tp_timestamp p) 4000000) traj in
    (forall p, In p sel <->
       In p traj /\ (4000000 - 3000000 <= AnnoV2.tp_timestamp p <= 4000000)%Z) /\
    ((List.length sel < 2)%nat ->
       AnnoV2._convert_trajectory (AnnoV2.build Scenarios.five_frames)
         (Scenarios.car_at "a" (INR 4)) 4000000 Scenarios.identity_pose = Some []) /\
    ((2 <= List.length sel)%nat ->
     AnnoV2._convert_trajectory (AnnoV2.build Scenarios.five_frames)
       (Scenarios.car_at "a" (INR 4)) 4000000 Scenarios.identity_pose =
       Some [V2.Prim "/object/trajectory"%string V2.Polyline
               (flat_map (fun p =>
                  match AnnoV2._global_to_vehicle (AnnoV2.tp_translation p)
                          Scenarios.identity_pose with
                  | Some v => V2.vlist v | None => [] end) sel)
               (Some (V2.a_instance_token (Scenarios.car_at "a" (INR 4)))) []])
   end).
Proof.
  split; [exact identity_pose_ss|].
  split; [vm_compute; reflexivity|].
  split; [vm_compute; reflexivity|].
  split; [vm_compute; reflexivity|].
  exact (trajectory_window_closure (AnnoV2.build Scenarios.five_frames)
           (Scenarios.car_at "a" (INR 4)) 4000000 Scenarios.identity_pose identity_pose_ss).
Defined.

(** ** The track builder: ordering of each track *)

Section TrackOrder.
Context {S : Type} (mk : Z -> V2.ann -> S) (ts : S -> Z).
Hypothesis ts_mk : forall t a, ts (mk t a) = t.

Lemma insert_by_perm (x : S) (l : list S) : Permutation (insert_by ts x l) (x :: l).
Proof.
  induction l as [|y l IH]; cbn; [reflexivity|].
  destruct (Z.leb (ts x) (ts y)); [reflexivity|].
  rewrite IH. apply perm_swap.
Qed.

Lemma sort_by_perm (l : list S) : Permutation (sort_by ts l) l.
Proof.
  induction l as [|x l IH]; cbn; [reflexivity|].
  rewrite insert_by_perm, IH. reflexivity.
Qed.

Lemma insert_by_sorted (x : S) (l : list S) :
  Sorted (fun a b => (ts a <= ts b)%Z) l ->
  Sorted (fun a b => (ts a <= ts b)%Z) (insert_by ts x l).
Proof.
  induction 1 as [|y l Hs IH Hhd]; cbn; [repeat constructor|].
  destruct (Z.leb_spec (ts x) (ts y)) as [Hle|Hgt].
  - constructor; [constructor; assumption|constructor; exact Hle].
  - constructor; [exact IH|].
    destruct l as [|z l]; cbn; [constructor; lia|].
    inversion Hhd; subst.
    destruct (Z.leb (ts x) (ts z)); constructor; lia.
Qed.

Lemma sort_by_sorted (l : list S) : Sorted (fun a b => (ts a <= ts b)%Z) (sort_by ts l).
Proof. induction l; cbn; [constructor|apply insert_by_sorted; assumption]. Qed.

(** The samples an instance collects from a list of frames, in scan order. *)
Lemma dict_get_append (d : dict (list S)) (k k' : string) (x : S) :
  dict_get (dict_append d k' x) k =
  if String.eqb k k' then opt_app (dict_get d k) [x] else dict_get d k.
Proof.
  induction d as [|[k1 l] d IH]; cbn.
  - destruct (String.eqb k k'); reflexivity.
  - destruct (String.eqb k' k1) eqn:E1; cbn.
    + apply String.eqb_eq in E1; subst k1.
      destruct (String.eqb k k'); reflexivity.
    + destruct (String.eqb k k1) eqn:E2; rewrite ?IH.
      * apply String.eqb_eq in E2; subst k1.
        destruct (String.eqb_spec k k'); [subst; rewrite String.eqb_refl in E1; discriminate|].
        reflexivity.
      * destruct (String.eqb k k'); reflexivity.
Qed.

Lemma opt_app_app (o : option (list S)) (c1 c2 : list S) :
  opt_app (opt_app o c1) c2 = opt_app o (c1 ++ c2).
Proof.
  destruct o as [l|]; cbn.
  - rewrite app_assoc; reflexivity.
  - destruct c1; cbn; [destruct c2; reflexivity|reflexivity].
Qed.

Lemma opt_app_nil (o : option (list S)) : opt_app o [] = o.
Proof. destruct o; cbn; [rewrite app_nil_r|]; reflexivity. Qed.

Lemma scan_frame_get (d : dict (list S)) (f : V2.frame) (k : string) :
  dict_get (V2.scan_frame mk d f) k = opt_app (dict_get d k) (collected mk k [f]).
Proof.
  unfold V2.scan_frame, collected. cbn [flat_map]. rewrite app_nil_r.
  revert d; induction (V2.f_anns f) as [|a anns IH]; intros d; cbn.
  - rewrite opt_app_nil. reflexivity.
  - rewrite IH, dict_get_append. rewrite String.eqb_sym.
    destruct (String.eqb (V2.a_instance_token a) k); cbn.
    + rewrite opt_app_app. reflexivity.
    + reflexivity.
Qed.

Lemma build_get (frames : list V2.frame) (k : string) :
  dict_get (V2._build_object_trajectories mk ts frames) k =
  option_map (sort_by ts) (opt_app None (collected mk k frames)).
Proof.
  unfold V2._build_object_trajectories.
  assert (Hmap : forall d : dict (list S),
    dict_get (map (fun '(k, l) => (k, sort_by ts l)) d) k = option_map (sort_by ts) (dict_get d k)).
  { induction d as [|[k1 l] d IH]; cbn; [reflexivity|].
    destruct (String.eqb k k1); [reflexivity|exact IH]. }
  rewrite Hmap. f_equal.
  assert (Hgen : forall d, dict_get (fold_left (V2.scan_frame mk) frames d) k =
                           opt_app (dict_get d k) (collected mk k frames)).
  { induction frames as [|f frames IH]; intros d; cbn [fold_left].
    - rewrite opt_app_nil. reflexivity.
    - rewrite IH, scan_frame_get, opt_app_app.
      unfold collected; cbn [flat_map]; rewrite app_nil_r; reflexivity. }
  apply Hgen.
Qed.
End TrackOrder.

Section TrackStrict.
Context {T : Type} (mk : Z -> V2.ann -> T) (ts : T -> Z).
Hypothesis ts_mk : forall t a, ts (mk t a) = t.

Lemma filter_instance_le1 (anns : list V2.ann) (k : string) :
  NoDup (map V2.a_instance_token anns) ->
  (List.length (filter (fun a => String.eqb (V2.a_instance_token a) k) anns) <= 1)%nat.
Proof.
  induction anns as [|a anns IH]; intros Hn; cbn; [lia|].
  inversion Hn as [|x l Hnotin Hn']; subst.
  destruct (String.eqb_spec (V2.a_instance_token a) k) as [E|E]; cbn; [|auto].
  assert (Hz : filter (fun a0 => String.eqb (V2.a_instance_token a0) k) anns = []).
  { destruct (filter _ anns) as [|b rest] eqn:Hf; [reflexivity|].
    assert (Hb : In b (filter (fun a0 => String.eqb (V2.a_instance_token a0) k) anns))
      by (rewrite Hf; left; reflexivity).
    apply filter_In in Hb as [Hb Eb]. apply String.eqb_eq in Eb.
    exfalso. apply Hnotin. rewrite E, <- Eb. apply in_map. exact Hb. }
  rewrite Hz. cbn. lia.
Qed.

Lemma in_collected_ts (k : string) (frames : list V2.frame) (t : Z) :
  In t (map ts (collected mk k frames)) -> In t (map V2.f_timestamp frames).
Proof.
  unfold collected. rewrite flat_map_concat_map, concat_map, map_map.
  intros Hin. apply in_concat in Hin as (l & Hl & Ht).
  apply in_map_iff in Hl as (f & <- & Hf).
  rewrite map_map in Ht. apply in_map_iff in Ht as (a & Ha & _).
  rewrite ts_mk in Ha. subst t. apply in_map. exact Hf.
Qed.

Lemma collected_nodup (k : string) (frames : list V2.frame) :
  NoDup (map V2.f_timestamp frames) ->
  (forall f, In f frames -> NoDup (map V2.a_instance_token (V2.f_anns f))) ->
  NoDup (map ts (collected mk k frames)).
Proof.
  induction frames as [|f frames IH]; intros Hts Hinst; [constructor|].
  inversion Hts as [|x l Hnotin Hts']; subst.
  change (collected mk k (f :: frames)) with
    (map (mk (V2.f_timestamp f))
       (filter (fun a => String.eqb (V2.a_instance_token a) k) (V2.f_anns f))
     ++ collected mk k frames).
  pose proof (filter_instance_le1 (V2.f_anns f) k (Hinst f (or_introl eq_refl))) as Hle.
  destruct (filter _ (V2.f_anns f)) as [|a [|b rest]]; cbn in Hle |- *.
  - apply IH; auto. intros g Hg; apply Hinst; right; exact Hg.
  - rewrite ts_mk. constructor.
    + intros Hin. apply Hnotin. exact (in_collected_ts k frames _ Hin).
    + apply IH; auto. intros g Hg; apply Hinst; right; exact Hg.
  - lia.
Qed.

Lemma sorted_nodup_strict (l : list T) :
  Sorted (fun a b => (ts a <= ts b)%Z) l -> NoDup (map ts l) ->
  forall i s1 s2, nth_error l i = Some s1 -> nth_error l (S i) = Some s2 ->
  (ts s1 < ts s2)%Z.
Proof.
  induction l as [|x l IH]; intros Hs Hn i s1 s2 H1 H2; [destruct i; discriminate|].
  inversion Hs as [|? ? Hs' Hhd]; subst. inversion Hn as [|? ? Hnotin Hn']; subst.
  destruct i as [|i].
  - cbn in H1, H2. injection H1 as <-.
    destruct l as [|y l]; [discriminate|]. cbn in H2. injection H2 as <-.
    inversion Hhd; subst.
    assert (ts x <> ts y) by (intros E; apply Hnotin; rewrite E; left; reflexivity).
    lia.
  - exact (IH Hs' Hn' i s1 s2 H1 H2).
Qed.

Lemma sort_by_nondecreasing (l : list T) :
  forall i s1 s2, nth_error (sort_by ts l) i = Some s1 ->
  nth_error (sort_by ts l) (S i) = Some s2 -> (ts s1 <= ts s2)%Z.
Proof.
  generalize (sort_by_sorted ts l). generalize (sort_by ts l) as m.
  induction m as [|x m IH]; intros Hs i s1 s2 H1 H2; [destruct i; discriminate|].
  inversion Hs as [|? ? Hs' Hhd]; subst.
  destruct i as [|i].
  - cbn in H1, H2. injection H1 as <-.
    destruct m as [|y m]; [discriminate|]. cbn in H2. injection H2 as <-.
    inversion Hhd; assumption.
  - exact (IH Hs' i s1 s2 H1 H2).
Qed.
End TrackStrict.

Lemma opt_app_none_some {T : Type} (c l : list T) (f : list T -> list T) :
  option_map f (opt_app None c) = Some l -> l = f c.
Proof. destruct c; cbn; intros H; inversion H; reflexivity. Qed.

(** C6 (corrected): after the one-pass scan, the track of an instance holds
    exactly its collected samples (up to order) and is sorted by timestamp,
    non-decreasingly for any frame order; adjacent timestamps are strictly
    increasing when the frames carry pairwise distinct timestamps and no
    instance is annotated twice in one frame. *)
Theorem track_order_sorted (frames : list V2.frame) (k : string)
    (l : list AnnoV2.track_point) :
  dict_get (AnnoV2.build frames) k = Some l ->
  Permutation l (collected AnnoV2.mk_track_point k frames) /\
  (forall i s1 s2, nth_error l i = Some s1 -> nth_error l (S i) = Some s2 ->
     (AnnoV2.tp_timestamp s1 <= AnnoV2.tp_timestamp s2)%Z) /\
  (NoDup (map V2.f_timestamp frames) ->
   (forall f, In f frames -> NoDup (map V2.a_instance_token (V2.f_anns f))) ->
   forall i s1 s2, nth_error l i = Some s1 -> nth_error l (S i) = Some s2 ->
     (AnnoV2.tp_timestamp s1 < AnnoV2.tp_timestamp s2)%Z).
Proof.
  unfold AnnoV2.build. rewrite (build_get AnnoV2.mk_track_point AnnoV2.tp_timestamp).
  intros H. apply opt_app_none_some in H. subst l.
  split; [apply sort_by_perm|]. split.
  - apply sort_by_nondecreasing.
  - intros Hts Hinst. apply sorted_nodup_strict.
    + apply sort_by_sorted.
    + apply (Permutation_NoDup (l := map AnnoV2.tp_timestamp
              (collected AnnoV2.mk_track_point k frames))).
      * symmetry. apply Permutation_map. apply sort_by_perm.
      * apply collected_nodup; [reflexivity|assumption|assumption].
Qed.

Lemma track_order_sorted_witness :
  exists l, dict_get (AnnoV2.build Scenarios.five_frames) "car-1" = Some l /\
  map AnnoV2.tp_timestamp l = [0; 1000000; 2000000; 3000000; 4000000]%Z /\
  forall i s1 s2, nth_error l i = Some s1 -> nth_error l (S i) = Some s2 ->
    (AnnoV2.tp_timestamp s1 < AnnoV2.tp_timestamp s2)%Z.
Proof.
  destruct (dict_get (AnnoV2.build Scenarios.five_frames) "car-1") as [l|] eqn:E;
    [|vm_compute in E; discriminate].
  exists l. split; [reflexivity|].
  destruct (track_order_sorted Scenarios.five_frames "car-1" l E) as (_ & _ & Hs).
  split.
  - vm_compute in E. injection E as <-. reflexivity.
  - apply Hs.
    + vm_compute. repeat constructor; cbn; lia.
    + intros f Hf. cbn in Hf. repeat destruct Hf as [<-|Hf]; try contradiction;
        cbn; repeat constructor; intros [].
Defined.

Lemma track_order_counterexample :
  exists l s1 s2, dict_get (AnnoV2.build Scenarios.same_time_frames) "car-1" = Some l /\
    nth_error l 0 = Some s1 /\ nth_error l 1 = Some s2 /\
    ~ (AnnoV2.tp_timestamp s1 < AnnoV2.tp_timestamp s2)%Z.
Proof.
  do 3 eexists. split; [reflexivity|]. split; [reflexivity|]. split; [reflexivity|].
  cbn. lia.
Qed.

(** ** The ego trajectory of convert_v3 *)

Lemma skipn_nth_error {A : Type} (l : list A) (i : nat) (x : A) :
  nth_error l i = Some x -> skipn i l = x :: skipn (S i) l.
Proof.
  revert i; induction l as [|y l IH]; intros [|i] H; cbn in *; try discriminate.
  - injection H as ->. reflexivity.
  - apply IH. exact H.
Qed.

Lemma vehicle_trajectory_points (db : NuScenes.nusc) (frames : list NuScenes.frame_data)
    (Hdb : forall f, In f frames ->
       exists e, NuScenes.get_ego_pose db (NuScenes.fd_ego_pose_token f) = Some e) :
  forall c i, (i + c <= List.length frames)%nat ->
  exists traj,
    map_opt (fun i =>
        let* frame := nth_error frames i in
        let* ego_pose := NuScenes.get_ego_pose db (NuScenes.fd_ego_pose_token frame) in
        Some (NuScenes.ep_translation ego_pose)) (seq i c) = Some traj /\
    Forall2 (fun f p => exists e,
        NuScenes.get_ego_pose db (NuScenes.fd_ego_pose_token f) = Some e /\
        p = NuScenes.ep_translation e)
      (firstn c (skipn i frames)) traj.
Proof.
  induction c as [|c IH]; intros i Hi.
  - exists []. split; [reflexivity|]. constructor.
  - destruct (nth_error frames i) as [f|] eqn:Hf;
      [|apply nth_error_None in Hf; lia].
    destruct (Hdb f (nth_error_In _ _ Hf)) as [e He].
    destruct (IH (S i) ltac:(lia)) as (traj & Ht & Hr).
    exists (NuScenes.ep_translation e :: traj). split.
    + cbn [seq map_opt]. rewrite Hf, He, Ht. reflexivity.
    + rewrite (skipn_nth_error frames i f Hf). cbn [firstn].
      constructor; [exists e; split; [exact He|reflexivity]|exact Hr].
Qed.

Lemma firstn_min_length {A : Type} (l : list A) (n : nat) :
  firstn (Nat.min (List.length l) n) l = firstn n l.
Proof.
  destruct (Nat.le_ge_cases n (List.length l)) as [H|H].
  - rewrite Nat.min_r by exact H. reflexivity.
  - rewrite Nat.min_l by exact H. rewrite firstn_all, firstn_all2 by exact H. reflexivity.
Qed.

Lemma length_flat_map_vlist (l : list vec3) :
  List.length (flat_map V2.vlist l) = (3 * List.length l)%nat.
Proof. induction l as [|v l IH]; cbn [flat_map List.length]; [reflexivity|].
  rewrite length_app, IH. cbn. lia. Qed.

Lemma map_opt_length {A B : Type} (f : A -> option B) (l : list A) (r : list B) :
  map_opt f l = Some r -> List.length r = List.length l.
Proof.
  revert r; induction l as [|x l IH]; intros r H; cbn in H.
  - injection H as <-. reflexivity.
  - destruct (f x); [|discriminate]. destruct (map_opt f l) as [r'|] eqn:E; [|discriminate].
    injection H as <-. cbn. f_equal. apply IH. reflexivity.
Qed.

Lemma from_quat_some (x y z w : R) :
  ~ (x = 0 /\ y = 0 /\ z = 0 /\ w = 0) ->
  exists r, ScipyRotation.from_quat x y z w = Some r.
Proof.
  intros Hnz. unfold ScipyRotation.from_quat.
  destruct (Req_EM_T _ 0) as [E|E]; [|eexists; reflexivity].
  exfalso. apply Hnz.
  assert (Hs : x * x + y * y + z * z + w * w = 0) by (apply sqrt_eq_0; [nra|exact E]).
  repeat split; nra.
Qed.

Lemma quaternion_to_euler_some (w x y z : R) (rest : list R) :
  ~ (w = 0 /\ x = 0 /\ y = 0 /\ z = 0) ->
  exists r, ScipyRotation.quaternion_to_euler (w :: x :: y :: z :: rest) = Some r.
Proof. intros Hnz. apply from_quat_some. tauto. Qed.

Lemma pose_v3_convert_eq (db : NuScenes.nusc) (frames : list NuScenes.frame_data) (i : nat)
    (f : NuScenes.frame_data) (e : NuScenes.ego_pose_rec) (r : R * R * R * R) (traj : list vec3) :
  nth_error frames i = Some f ->
  NuScenes.get_ego_pose db (NuScenes.fd_ego_pose_token f) = Some e ->
  ScipyRotation.quaternion_to_euler (NuScenes.ep_rotation e) = Some r ->
  PoseV3._get_vehicle_trajectory db frames i = Some traj ->
  PoseV3.convert db frames i =
    Some (V2.PoseOut PoseV3.VEHICLE_POSE (NuScenes.fd_timestamp f) (NuScenes.ep_translation e),
          match traj with
          | [] => []
          | _ => [V2.Prim PoseV3.VEHICLE_TRAJECTORY V2.Polyline (flat_map V2.vlist traj) None []]
          end).
Proof.
  intros Hf He Hr Ht. unfold PoseV3.convert. rewrite Hf. cbn iota beta.
  rewrite He. cbn iota beta. rewrite Hr. cbn iota beta. rewrite Ht. destruct traj; reflexivity.
Qed.

(** C10: for every frame index [i] of a scene (each frame's ego pose
    resolvable, the rotation of frame [i]'s pose a list of at least four
    numbers not all zero, as scipy requires), convert_v3's ego trajectory holds exactly
    [min(6, n - i)] positions, the ego positions of frames [i] to
    [min(n, i + 6) - 1] in order, and it is emitted as one Polyline even
    when it holds a single position (at the last frame); a v3 object
    trajectory, by contrast, is only emitted with at least 2 positions. *)
Theorem ego_trajectory_bounded (db : NuScenes.nusc) (frames : list NuScenes.frame_data)
    (i : nat) (Hi : (i < List.length frames)%nat)
    (Hdb : forall f, In f frames ->
       exists e, NuScenes.get_ego_pose db (NuScenes.fd_ego_pose_token f) = Some e)
    (Hrot : forall f e, nth_error frames i = Some f ->
       NuScenes.get_ego_pose db (NuScenes.fd_ego_pose_token f) = Some e ->
       exists w x y z rest, NuScenes.ep_rotation e = w :: x :: y :: z :: rest /\
         ~ (w = 0 /\ x = 0 /\ y = 0 /\ z = 0)) :
  (exists pose traj,
    PoseV3._get_vehicle_trajectory db frames i = Some traj /\
    List.length traj = Nat.min 6 (List.length frames - i) /\
    Forall2 (fun f p => exists e,
        NuScenes.get_ego_pose db (NuScenes.fd_ego_pose_token f) = Some e /\
        p = NuScenes.ep_translation e)
      (firstn 6 (skipn i frames)) traj /\
    PoseV3.convert db frames i =
      Some (pose, [V2.Prim PoseV3.VEHICLE_TRAJECTORY V2.Polyline (flat_map V2.vlist traj) None []])) /\
  (forall a prims p, AnnoV3.object_trajectory db frames i a = Some prims -> In p prims ->
     (6 <= List.length (V2.p_vertices p))%nat).
Proof.
  split.
  - destruct (vehicle_trajectory_points db frames Hdb
                (Nat.min (List.length frames) (i + 6) - i) i ltac:(lia)) as (traj & Ht & Hr).
    assert (Hmin : (Nat.min (List.length frames) (i + 6) - i =
                    Nat.min (List.length (skipn i frames)) 6)%nat)
      by (rewrite length_skipn; lia).
    rewrite Hmin, firstn_min_length in Hr.
    assert (Hg : PoseV3._get_vehicle_trajectory db frames i = Some traj) by exact Ht.
    destruct (nth_error frames i) as [f|] eqn:Hf; [|apply nth_error_None in Hf; lia].
    destruct (Hdb f (nth_error_In _ _ Hf)) as [e He].
    assert (Hlen : List.length traj = Nat.min 6 (List.length frames - i)).
    { rewrite <- (Forall2_length Hr), length_firstn, length_skipn. lia. }
    exists (V2.PoseOut PoseV3.VEHICLE_POSE (NuScenes.fd_timestamp f) (NuScenes.ep_translation e)),
           traj.
    split; [exact Hg|]. split; [exact Hlen|]. split; [exact Hr|].
    destruct (Hrot f e eq_refl He) as (w & x & y & z & rest & Hrot_e & Hnz).
    destruct (quaternion_to_euler_some w x y z rest Hnz) as [q Hq]. rewrite <- Hrot_e in Hq.
    rewrite (pose_v3_convert_eq db frames i f e q traj Hf He Hq Hg).
    destruct traj as [|v traj]; [cbn [List.length] in Hlen; lia|reflexivity].
  - intros a prims p H Hp. unfold AnnoV3.object_trajectory in H.
    destruct (AnnoV3._map_nuscenes_category (V2.a_category_name a)) as [category|];
      [|injection H as <-; destruct Hp].
    destruct (map_opt _ _) as [found|]; [|discriminate].
    destruct (Nat.ltb 1 _) eqn:E; injection H as <-; [|destruct Hp].
    destruct Hp as [<-|[]]. cbn [V2.p_vertices]. rewrite length_flat_map_vlist.
    apply Nat.ltb_lt in E. lia.
Qed.

Lemma ego_trajectory_bounded_witness :
  exists pose traj,
    PoseV3.convert Scenarios.ego_db Scenarios.ego_frames 2 =
      Some (pose, [V2.Prim PoseV3.VEHICLE_TRAJECTORY V2.Polyline (flat_map V2.vlist traj) None []]) /\
    traj = [Vec3 2 0 0].
Proof.
  assert (Hdb : forall f, In f Scenarios.ego_frames ->
            exists e, NuScenes.get_ego_pose Scenarios.ego_db (NuScenes.fd_ego_pose_token f) = Some e).
  { intros f Hf. cbn in Hf. repeat destruct Hf as [<-|Hf]; try contradiction;
      eexists; reflexivity. }
  assert (Hrot : forall f e, nth_error Scenarios.ego_frames 2 = Some f ->
            NuScenes.get_ego_pose Scenarios.ego_db (NuScenes.fd_ego_pose_token f) = Some e ->
            exists w x y z rest, NuScenes.ep_rotation e = w :: x :: y :: z :: rest /\
              ~ (w = 0 /\ x = 0 /\ y = 0 /\ z = 0)).
  { intros f e Hf He. cbn in Hf. injection Hf as <-. cbn in He. injection He as <-.
    exists 1, 0, 0, 0, []. split; [reflexivity|lra]. }
  destruct (ego_trajectory_bounded Scenarios.ego_db Scenarios.ego_frames 2 ltac:(cbn; lia) Hdb Hrot)
    as ((pose & traj & Hg & _ & _ & Hc) & _).
  exists pose, traj. split; [exact Hc|].
  cbn in Hg. injection Hg as <-. reflexivity.
Defined.

(** ** Euler angles of converter_v1 *)

Lemma clamp_unit (t : R) :
  let t' := if Rlt_dec 1 t then 1 else t in
  let t'' := if Rlt_dec t' (-1) then -1 else t' in
  -1 <= t'' <= 1.
Proof.
  cbv zeta. destruct (Rlt_dec 1 t) as [H1|H1];
    destruct (Rlt_dec _ (-1)) as [H2|H2]; lra.
Qed.

Lemma np_arcsin_finite (x : R) : -1 <= x <= 1 -> EulerV1.np_arcsin x = EulerV1.Finite (asin x).
Proof.
  intros [H1 H2]. unfold EulerV1.np_arcsin.
  destruct (Rle_dec (-1) x); [|lra]. destruct (Rle_dec x 1); [reflexivity|lra].
Qed.

(** C7: for every rotation list [w, x, y, z, ...] of reals, the clamped
    sine term lies in [-1, 1], so [quaternion_to_euler_angle] returns a
    finite pitch [asin t2] in [-pi/2, pi/2] (never [nan]) together with
    the two [arctan2] angles. *)
Theorem quaternion_to_euler_total (w x y z : R) (rest : list R) :
  exists roll t2 yaw,
    EulerV1.quaternion_to_euler_angle (w :: x :: y :: z :: rest) =
      Some (roll, EulerV1.Finite (asin t2), yaw) /\
    -1 <= t2 <= 1 /\ - (PI / 2) <= asin t2 <= PI / 2.
Proof.
  pose proof (clamp_unit (-2 * (x * z - w * y))) as Hc. cbv zeta in Hc.
  set (t2 := if Rlt_dec (if Rlt_dec 1 (-2 * (x * z - w * y)) then 1 else -2 * (x * z - w * y)) (-1)
             then -1 else if Rlt_dec 1 (-2 * (x * z - w * y)) then 1 else -2 * (x * z - w * y))
    in Hc.
  exists (atan2 (2 * (y * z + w * x)) (-2 * (x * x + y * y) + 1)), t2,
         (atan2 (2 * (x * y + w * z)) (-2 * (y * y + z * z) + 1)).
  split; [|split; [exact Hc|apply asin_bound; exact Hc]].
  unfold EulerV1.quaternion_to_euler_angle. cbn [nth_error]. cbv zeta.
  rewrite <- (np_arcsin_finite t2 Hc). reflexivity.
Qed.

(** ** Pose timestamps of converter_v1 and convert_v3 *)

(** C9: on a key frame whose dataset timestamp is 1532402927647951 us,
    convert_v3 emits the pose at that value divided by 1e6 once, while
    converter_v1's [CoordinateConverter] emits it divided by 1e6 twice,
    a different value. *)
Theorem pose_timestamp_divided_twice_v1 :
  exists frames st po1 po3 prims,
    NuScenes._load_scene_data Scenarios.ts_db [Scenarios.ts_sample] = Some frames /\
    CoordV1.init Scenarios.ts_db frames = Some st /\
    CoordV1.convert_pose st frames 0 = Some po1 /\
    PoseV3.convert Scenarios.ts_db frames 0 = Some (po3, prims) /\
    V2.po_timestamp po3 = IZR 1532402927647951 / 1000000 /\
    V2.po_timestamp po1 = IZR 1532402927647951 / 1000000 / 1000000 /\
    V2.po_timestamp po1 <> V2.po_timestamp po3.
Proof.
  destruct (from_quat_some 0 0 0 1 ltac:(lra)) as [q Hq].
  do 5 eexists.
  split; [reflexivity|]. split; [reflexivity|]. split; [reflexivity|].
  split; [eapply (pose_v3_convert_eq _ _ _ _ _ q); [reflexivity|reflexivity|exact Hq|reflexivity]|].
  split; [reflexivity|]. split; [reflexivity|].
  change (IZR 1532402927647951 / 1000000 / 1000000 <> IZR 1532402927647951 / 1000000).
  assert (Ha : 0 < IZR 1532402927647951) by (apply IZR_lt; reflexivity). lra.
Qed.

(** ** Ids of the footprint polygons (convert_v3 and converter_v1) *)

Lemma map_opt_in {A B : Type} (f : A -> option B) (l : list A) (r : list B) :
  map_opt f l = Some r -> forall y, In y r -> exists x, In x l /\ f x = Some y.
Proof.
  revert r; induction l as [|x l IH]; intros r H y Hy; cbn in H.
  - injection H as <-. destruct Hy.
  - destruct (f x) as [b|] eqn:Hb; [|discriminate].
    destruct (map_opt f l) as [r'|] eqn:E; [|discriminate].
    injection H as <-. destruct Hy as [<-|Hy].
    + exists x. split; [left; reflexivity|exact Hb].
    + destruct (IH r' eq_refl y Hy) as (x' & Hx' & Hf). exists x'. split; [right; exact Hx'|exact Hf].
Qed.

Lemma object_trajectory_polyline (db : NuScenes.nusc) (frames : list NuScenes.frame_data)
    (i : nat) (a : V2.ann) (prims : list V2.primitive) (p : V2.primitive) :
  AnnoV3.object_trajectory db frames i a = Some prims -> In p prims ->
  V2.p_kind p = V2.Polyline.
Proof.
  intros H Hp. unfold AnnoV3.object_trajectory in H.
  destruct (AnnoV3._map_nuscenes_category (V2.a_category_name a)) as [category|];
    [|injection H as <-; destruct Hp].
  destruct (map_opt _ _) as [found|]; [|discriminate].
  destruct (Nat.ltb 1 _); injection H as <-; [|destruct Hp].
  destruct Hp as [<-|[]]. reflexivity.
Qed.

Lemma add_object_trajectories_polyline (db : NuScenes.nusc) (anns : list V2.ann)
    (frames : list NuScenes.frame_data) (i : nat) (trajs : list V2.primitive) :
  AnnoV3._add_object_trajectories db anns frames i = Some trajs ->
  forall p, In p trajs -> V2.p_kind p = V2.Polyline.
Proof.
  unfold AnnoV3._add_object_trajectories. intros H p Hp.
  destruct (map_opt _ anns) as [l|] eqn:E; [|discriminate]. injection H as <-.
  apply in_concat in Hp as (prims & Hprims & Hp).
  destruct (map_opt_in _ _ _ E prims Hprims) as (a & _ & Ha).
  exact (object_trajectory_polyline db frames i a prims p Ha Hp).
Qed.

Lemma dict_get_in {A : Type} (d : dict A) (k : string) (v : A) :
  dict_get d k = Some v -> In (k, v) d.
Proof.
  induction d as [|[k' a] d IH]; cbn; [discriminate|].
  destruct (String.eqb_spec k k') as [->|_].
  - intros H; injection H as <-. left. reflexivity.
  - intros H. right. exact (IH H).
Qed.

Lemma in_dict_set {A : Type} (d : dict A) (k : string) (v : A) (k' : string) (v' : A) :
  In (k', v') (dict_set d k v) -> In (k', v') d \/ v' = v.
Proof.
  induction d as [|[k1 a] d IH]; cbn.
  - intros [H|[]]. injection H as _ <-. right. reflexivity.
  - destruct (String.eqb k k1).
    + intros [H|H]; [injection H as _ <-; right; reflexivity|left; right; exact H].
    + intros [H|H]; [left; left; exact H|].
      destruct (IH H) as [H'|H']; [left; right; exact H'|right; exact H'].
Qed.

Lemma parse_ann_data_token (a : V2.ann) (p : AnnoV1.parsed) :
  AnnoV1._parse_ann_data a = Some p -> AnnoV1.pa_token p = V2.a_token a.
Proof.
  unfold AnnoV1._parse_ann_data.
  destruct (EulerV1.quaternion_to_euler_angle _) as [[[roll pitch] yaw]|]; [|discriminate].
  destruct (dict_get AnnoV1.CATEGORY_MAPPING _); [|discriminate].
  intros H. injection H as <-. reflexivity.
Qed.

Lemma get_sample_annotation_in (db : NuScenes.nusc) (tok : string) (a : V2.ann) :
  NuScenes.get_sample_annotation db tok = Some a -> In a (NuScenes.t_sample_annotation db).
Proof. unfold NuScenes.get_sample_annotation. intros H. exact (proj1 (find_some _ _ H)). Qed.

Section AnnsByFrame.
Variable db : NuScenes.nusc.

(** Every parsed record stored in [anns_by_frame] comes from a mapped
    annotation of the store and carries its [token]. *)
Let stored_ok (d : dict (dict AnnoV1.parsed)) : Prop :=
  forall k inner, In (k, inner) d -> forall k' p, In (k', p) inner ->
  exists a, In a (NuScenes.t_sample_annotation db) /\
    dict_get AnnoV1.CATEGORY_MAPPING (V2.a_category_name a) <> None /\
    AnnoV1.pa_token p = V2.a_token a.

Lemma init_ann_ok (tok : string) (d d' : dict (dict AnnoV1.parsed)) (t : string) :
  AnnoV1.init_ann db tok (Some d) t = Some d' -> stored_ok d -> stored_ok d'.
Proof.
  unfold AnnoV1.init_ann. intros H Hd.
  destruct (NuScenes.get_sample_annotation db t) as [a|] eqn:Ha; [|discriminate].
  destruct (dict_get AnnoV1.CATEGORY_MAPPING (V2.a_category_name a)) as [c|] eqn:Hc.
  2:{ injection H as <-. exact Hd. }
  destruct (AnnoV1._parse_ann_data a) as [p|] eqn:Hp; [|discriminate].
  destruct (dict_get d tok) as [inner|] eqn:Hi; [|discriminate].
  injection H as <-. intros k inner' Hin k' p' Hp'.
  destruct (in_dict_set _ _ _ _ _ Hin) as [Hin'| ->].
  - exact (Hd k inner' Hin' k' p' Hp').
  - destruct (in_dict_set _ _ _ _ _ Hp') as [Hp''| ->].
    + exact (Hd tok inner (dict_get_in _ _ _ Hi) k' p' Hp'').
    + exists a. split; [exact (get_sample_annotation_in db t a Ha)|].
      split; [rewrite Hc; discriminate|exact (parse_ann_data_token a p Hp)].
Qed.

Lemma init_anns_none (tok : string) (toks : list string) :
  fold_left (AnnoV1.init_ann db tok) toks None = None.
Proof. induction toks as [|t toks IH]; [reflexivity|exact IH]. Qed.

Lemma init_anns_ok (tok : string) (toks : list string) :
  forall d d', fold_left (AnnoV1.init_ann db tok) toks (Some d) = Some d' ->
  stored_ok d -> stored_ok d'.
Proof.
  induction toks as [|t toks IH]; intros d d' H Hd; cbn [fold_left] in H.
  - injection H as <-. exact Hd.
  - destruct (AnnoV1.init_ann db tok (Some d) t) as [d1|] eqn:E.
    + exact (IH d1 d' H (init_ann_ok tok d d1 t E Hd)).
    + rewrite init_anns_none in H. discriminate.
Qed.

Lemma init_ok (frames : list NuScenes.frame_data) (d : dict (dict AnnoV1.parsed)) :
  AnnoV1.init db frames = Some d -> stored_ok d.
Proof.
  unfold AnnoV1.init.
  assert (Hgen : forall frames d0 d, stored_ok d0 ->
    fold_left (fun acc frame =>
      let* d := acc in
      fold_left (AnnoV1.init_ann db (NuScenes.fd_token frame)) (NuScenes.sm_anns (NuScenes.fd_sample frame))
        (Some (dict_set d (NuScenes.fd_token frame) []))) frames (Some d0) = Some d -> stored_ok d).
  { induction frames0 as [|f frames0 IH]; intros d0 d1 H0 H; cbn [fold_left] in H.
    - injection H as <-. exact H0.
    - destruct (fold_left (AnnoV1.init_ann db (NuScenes.fd_token f)) _ _) as [d2|] eqn:E.
      + apply (IH d2 d1); [|exact H].
        apply (init_anns_ok _ _ _ _ E). intros k inner Hin k' p Hp.
        destruct (in_dict_set _ _ _ _ _ Hin) as [Hin'| ->]; [exact (H0 k inner Hin' k' p Hp)|destruct Hp].
      + exfalso. clear IH E. induction frames0 as [|g frames0 IH'];
          cbn [fold_left] in H; [discriminate|exact (IH' H)]. }
  intros H. exact (Hgen frames [] d (fun k inner Hin => match Hin with end) H).
Qed.

Lemma convert_v1_polygon_ids (frames : list NuScenes.frame_data) (abf : dict (dict AnnoV1.parsed))
    (i : nat) (prims : list V2.primitive) :
  AnnoV1.init db frames = Some abf -> AnnoV1.convert abf frames i = Some prims ->
  forall p, In p prims -> V2.p_kind p = V2.Polygon ->
  exists a, In a (NuScenes.t_sample_annotation db) /\
    dict_get AnnoV1.CATEGORY_MAPPING (V2.a_category_name a) <> None /\
    V2.p_id p = Some (V2.a_token a).
Proof.
  intros Hinit H p Hp Hk. pose proof (init_ok frames abf Hinit) as Hok.
  unfold AnnoV1.convert in H.
  destruct (nth_error frames i) as [f|]; [|discriminate].
  destruct (dict_get abf (NuScenes.fd_token f)) as [fa|] eqn:Hfa; [|discriminate].
  destruct (map_opt _ fa) as [l|] eqn:E; [|discriminate]. injection H as <-.
  apply in_concat in Hp as (ps & Hps & Hp).
  destruct (map_opt_in _ _ _ E ps Hps) as ([k anno] & Hin & Hf).
  destruct (AnnoV1._get_obj_trajectory _ _ _ _ _); [|discriminate].
  injection Hf as <-. destruct Hp as [<-|[<-|[]]]; [|discriminate].
  destruct (Hok _ fa (dict_get_in _ _ _ Hfa) k anno Hin) as (a & Ha & Hc & Ht).
  exists a. split; [exact Ha|]. split; [exact Hc|]. cbn. rewrite Ht. reflexivity.
Qed.
End AnnsByFrame.

Lemma convert_v3_polygon_ids (db : NuScenes.nusc) (frames : list NuScenes.frame_data)
    (i : nat) (prims : list V2.primitive) :
  AnnoV3.convert db frames i = Some prims ->
  exists f anns,
    nth_error frames i = Some f /\
    map_opt (NuScenes.get_sample_annotation db) (NuScenes.sm_anns (NuScenes.fd_sample f)) = Some anns /\
    (forall a category, In a anns ->
       AnnoV3._map_nuscenes_category (V2.a_category_name a) = Some category ->
       In (V2.Prim category V2.Polygon (flat_map V2.vlist (AnnoV3._get_3d_bbox a))
             (Some (V2.a_token a)) [category]) prims) /\
    (forall p, In p prims -> V2.p_kind p = V2.Polygon ->
       exists a, In a anns /\ V2.p_id p = Some (V2.a_token a)).
Proof.
  intros H. unfold AnnoV3.convert in H.
  destruct (nth_error frames i) as [f|]; [|discriminate].
  destruct (map_opt _ _) as [anns|] eqn:Ha; [|discriminate].
  destruct (AnnoV3._add_object_trajectories db anns frames i) as [trajs|] eqn:Ht;
    [|discriminate].
  injection H as <-. exists f, anns. split; [reflexivity|]. split; [exact Ha|]. split.
  - intros a category Hin Hc. apply in_or_app. left. apply in_flat_map.
    exists a. split; [exact Hin|]. unfold AnnoV3.convert_ann. rewrite Hc. left. reflexivity.
  - intros p Hp Hk. apply in_app_or in Hp as [Hp|Hp].
    + apply in_flat_map in Hp as (a & Hin & Hp). exists a. split; [exact Hin|].
      unfold AnnoV3.convert_ann in Hp.
      destruct (AnnoV3._map_nuscenes_category _); [|destruct Hp].
      destruct Hp as [<-|[<-|[]]]; [reflexivity|discriminate].
    + rewrite (add_object_trajectories_polyline db anns frames i trajs Ht p Hp) in Hk.
      discriminate.
Qed.

(** In convert_v3 every mapped annotation of the frame gets its footprint
    Polygon (stream and class the mapped category) tagged with the
    annotation's per-frame [token], and every Polygon emitted is so
    tagged; in converter_v1 too every emitted footprint Polygon carries
    the [token] of a mapped annotation of the store. *)
Theorem polygon_id_is_annotation_token :
  (forall db frames i prims, AnnoV3.convert db frames i = Some prims ->
   exists f anns,
     nth_error frames i = Some f /\
     map_opt (NuScenes.get_sample_annotation db) (NuScenes.sm_anns (NuScenes.fd_sample f)) = Some anns /\
     (forall a category, In a anns ->
        AnnoV3._map_nuscenes_category (V2.a_category_name a) = Some category ->
        In (V2.Prim category V2.Polygon (flat_map V2.vlist (AnnoV3._get_3d_bbox a))
              (Some (V2.a_token a)) [category]) prims) /\
     (forall p, In p prims -> V2.p_kind p = V2.Polygon ->
        exists a, In a anns /\ V2.p_id p = Some (V2.a_token a))) /\
  (forall db frames abf i prims,
   AnnoV1.init db frames = Some abf -> AnnoV1.convert abf frames i = Some prims ->
   forall p, In p prims -> V2.p_kind p = V2.Polygon ->
   exists a, In a (NuScenes.t_sample_annotation db) /\
     dict_get AnnoV1.CATEGORY_MAPPING (V2.a_category_name a) <> None /\
     V2.p_id p = Some (V2.a_token a)).
Proof.
  split.
  - exact convert_v3_polygon_ids.
  - intros db frames abf i prims Hinit H. exact (convert_v1_polygon_ids db frames abf i prims Hinit H).
Qed.

(** C2 (code bug): on a key frame holding one car annotation ["a1"] of
    instance ["car-1"], convert_v3 and converter_v1 both emit a footprint
    Polygon, and every footprint Polygon they emit carries an id other
    than the instance token ["car-1"] (it is the annotation token ["a1"]),
    so no Polygon is tagged with the instance id. *)
Theorem polygon_id_not_instance_token :
  exists prims3 abf prims1,
    AnnoV3.convert Scenarios.anno_db Scenarios.anno_frames 0 = Some prims3 /\
    AnnoV1.init Scenarios.anno_db Scenarios.anno_frames = Some abf /\
    AnnoV1.convert abf Scenarios.anno_frames 0 = Some prims1 /\
    V2.a_instance_token (Scenarios.car_at "a1" 0) = "car-1"%string /\
    (exists p, In p prims3 /\ V2.p_kind p = V2.Polygon) /\
    (exists p, In p prims1 /\ V2.p_kind p = V2.Polygon) /\
    (forall p, In p prims3 \/ In p prims1 -> V2.p_kind p = V2.Polygon ->
       V2.p_id p = Some "a1"%string /\
       V2.p_id p <> Some (V2.a_instance_token (Scenarios.car_at "a1" 0))).
Proof.
  assert (H3 : AnnoV3.convert Scenarios.anno_db Scenarios.anno_frames 0 = Some _) by reflexivity.
  assert (Hi : AnnoV1.init Scenarios.anno_db Scenarios.anno_frames = Some _) by reflexivity.
  match type of Hi with _ = Some ?abf =>
    assert (H1 : AnnoV1.convert abf Scenarios.anno_frames 0 = Some _) by reflexivity end.
  match type of H3 with _ = Some ?p3 => exists p3 end.
  match type of Hi with _ = Some ?abf => exists abf end.
  match type of H1 with _ = Some ?p1 => exists p1 end.
  split; [exact H3|]. split; [exact Hi|]. split; [exact H1|]. split; [reflexivity|].
  destruct (convert_v3_polygon_ids _ _ _ _ H3) as (f & anns & Hf & Ha & Hin3 & Hid3).
  cbn in Hf. injection Hf as <-. cbn in Ha. injection Ha as <-.
  split.
  { eexists. split; [apply (Hin3 (Scenarios.car_at "a1" 0)); [left|]; reflexivity|reflexivity]. }
  split.
  { cbn. eexists. split; [left; reflexivity|reflexivity]. }
  intros p [Hp|Hp] Hk.
  - destruct (Hid3 p Hp Hk) as (a & Ha & ->). destruct Ha as [<-|[]].
    split; [reflexivity|]. intros E. injection E as E. discriminate E.
  - destruct (convert_v1_polygon_ids _ _ _ _ _ Hi H1 p Hp Hk) as (a & Ha & _ & ->).
    destruct Ha as [<-|[]].
    split; [reflexivity|]. intros E. injection E as E. discriminate E.
Qed.

Lemma polygon_id_is_annotation_token_witness :
  exists prims3 abf prims1,
    AnnoV3.convert Scenarios.anno_db Scenarios.anno_frames 0 = Some prims3 /\
    AnnoV1.init Scenarios.anno_db Scenarios.anno_frames = Some abf /\
    AnnoV1.convert abf Scenarios.anno_frames 0 = Some prims1 /\
    In (V2.Prim "/annotations/car" V2.Polygon
          (flat_map V2.vlist (AnnoV3._get_3d_bbox (Scenarios.car_at "a1" 0)))
          (Some "a1"%string) ["/annotations/car"%string]) prims3 /\
    (forall p, In p prims1 -> V2.p_kind p = V2.Polygon -> V2.p_id p = Some "a1"%string).
Proof.
  destruct polygon_id_is_annotation_token as [H3 H1].
  do 3 eexists. split; [reflexivity|]. split; [reflexivity|]. split; [reflexivity|]. split.
  - destruct (H3 Scenarios.anno_db Scenarios.anno_frames 0%nat _ eq_refl)
      as (f & anns & Hf & Ha & Hin & _).
    cbn in Hf. injection Hf as <-. cbn in Ha. injection Ha as <-.
    apply (Hin (Scenarios.car_at "a1" 0)); [left; reflexivity|reflexivity].
  - intros p Hp Hk.
    destruct (H1 Scenarios.anno_db Scenarios.anno_frames _ 0%nat _ eq_refl eq_refl p Hp Hk)
      as (a & Ha & _ & Hid).
    cbn in Ha. destruct Ha as [<-|[]]. exact Hid.
Defined.

(** ** Greedy merging of [_union_ped] *)

Lemma mem_In (i : nat) (s : list nat) : MapUtils.mem i s = true <-> In i s.
Proof.
  unfold MapUtils.mem. rewrite existsb_exists. split.
  - intros (x & Hx & E). apply Nat.eqb_eq in E. subst. exact Hx.
  - intros H. exists i. split; [exact H|apply Nat.eqb_refl].
Qed.

Lemma discard_perm (i : nat) (s : list nat) :
  NoDup s -> In i s -> Permutation s (i :: MapUtils.discard i s).
Proof.
  unfold MapUtils.discard. induction s as [|x s IH]; intros Hn Hi; [destruct Hi|].
  inversion Hn as [|? ? Hx Hn']; subst. cbn.
  destruct (Nat.eq_dec i x) as [->|Hne].
  - rewrite notin_remove by exact Hx. reflexivity.
  - destruct Hi as [->|Hi]; [contradiction|].
    rewrite (IH Hn' Hi) at 1. apply perm_swap.
Qed.

Lemma discard_nodup (i : nat) (s : list nat) : NoDup s -> NoDup (MapUtils.discard i s).
Proof.
  unfold MapUtils.discard. induction s as [|x s IH]; intros Hn; [constructor|].
  inversion Hn as [|? ? Hx Hn']; subst. cbn.
  destruct (Nat.eq_dec i x); [exact (IH Hn')|].
  constructor; [|exact (IH Hn')]. intros H. apply in_remove in H as [H _]. contradiction.
Qed.

Lemma discard_incl (i j : nat) (s : list nat) : In j (MapUtils.discard i s) -> In j s /\ j <> i.
Proof. unfold MapUtils.discard. intros H. apply in_remove in H. exact H. Qed.

Lemma discard_keep (i j : nat) (s : list nat) : In j s -> j <> i -> In j (MapUtils.discard i s).
Proof. unfold MapUtils.discard. intros H Hne. apply in_in_remove; assumption. Qed.

Section UnionPedProof.
Context {G : Type}
  (minimum_rotated_rectangle : G -> list (R * R))
  (union : G -> G -> G)
  (query : list G -> G -> list nat).

Let dir := MapUtils.get_rec_direction minimum_rotated_rectangle.
Let merge := MapUtils.merge_candidate minimum_rotated_rectangle union.

(** The merge test of a candidate [j] against a leader direction [(pv, pn)]. *)
Let passes (ped : list G) (pv : R * R) (pn : R) (j : nat) : Prop :=
  exists o dj, nth_error ped j = Some o /\ dir o = Some dj /\
    1 - Rabs (MapUtils.dot2 pv (fst dj) / (pn * snd dj)) < 1 / 100.

Lemma merge_none (ped : list G) (i : nat) (pv : R * R) (pn : R) (cands : list nat) :
  fold_left (merge ped i pv pn) cands None = None.
Proof. induction cands as [|c cands IH]; [reflexivity|exact IH]. Qed.

Lemma merge_fold (ped : list G) (i : nat) (pv : R * R) (pn : R) (cands : list nat) :
  forall remain last members remain' last' members',
  NoDup remain ->
  fold_left (merge ped i pv pn) cands (Some (remain, (last, members))) =
    Some (remain', (last', members')) ->
  exists added os,
    members' = members ++ added /\
    Permutation remain (remain' ++ added) /\
    Forall2 (fun j o => nth_error ped j = Some o) added os /\
    last' = fold_left union os last /\
    (forall j, In j added -> In j cands /\ j <> i /\ passes ped pv pn j) /\
    (forall j, In j cands -> j <> i -> In j remain -> passes ped pv pn j -> In j added).
Proof.
  induction cands as [|c cands IH];
    intros remain last members remain' last' members' Hnd H; cbn [fold_left] in H.
  - injection H as <- <- <-. exists [], []. rewrite !app_nil_r.
    split; [reflexivity|]. split; [reflexivity|]. split; [constructor|].
    split; [reflexivity|]. split; [intros j []|]. intros j [].
  - unfold merge at 2, MapUtils.merge_candidate in H.
    destruct (negb (MapUtils.mem c remain) || Nat.eqb c i) eqn:Eskip.
    + destruct (IH _ _ _ _ _ _ Hnd H) as (added & os & Hm & Hp & Hf & Hl & Ha & Hmax).
      exists added, os. do 4 (split; [assumption|]). split.
      * intros j Hj. destruct (Ha j Hj) as (? & ? & ?). split; [right; assumption|auto].
      * intros j [<-|Hj] Hji Hjr Hpass.
        -- exfalso. apply orb_true_iff in Eskip as [E|E].
           ++ apply negb_true_iff in E. apply (proj2 (mem_In c remain)) in Hjr. congruence.
           ++ apply Nat.eqb_eq in E. contradiction.
        -- exact (Hmax j Hj Hji Hjr Hpass).
    + apply orb_false_iff in Eskip as [Ein Ei]. apply negb_false_iff, mem_In in Ein.
      apply Nat.eqb_neq in Ei.
      destruct (nth_error ped c) as [o|] eqn:Ho; [|rewrite merge_none in H; discriminate].
      destruct (MapUtils.get_rec_direction minimum_rotated_rectangle o) as [dj|] eqn:Hd;
        [|rewrite merge_none in H; discriminate].
      destruct (Rlt_dec _ _) as [Hlt|Hge].
      * destruct (IH _ _ _ _ _ _ (discard_nodup c remain Hnd) H)
          as (added & os & Hm & Hp & Hf & Hl & Ha & Hmax).
        exists (c :: added), (o :: os).
        split; [rewrite Hm, <- app_assoc; reflexivity|].
        split; [rewrite (discard_perm c remain Hnd Ein), Hp; apply Permutation_middle|].
        split; [constructor; assumption|].
        split; [exact Hl|]. split.
        -- intros j [<-|Hj].
           ++ split; [left; reflexivity|]. split; [exact Ei|]. exists o, dj. auto.
           ++ destruct (Ha j Hj) as (? & ? & ?). split; [right; assumption|auto].
        -- intros j [<-|Hj] Hji Hjr Hpass; [left; reflexivity|].
           destruct (Nat.eq_dec j c) as [->|Hjc]; [left; reflexivity|].
           right. exact (Hmax j Hj Hji (discard_keep c j remain Hjr Hjc) Hpass).
      * destruct (IH _ _ _ _ _ _ Hnd H) as (added & os & Hm & Hp & Hf & Hl & Ha & Hmax).
        exists added, os. do 4 (split; [assumption|]). split.
        -- intros j Hj. destruct (Ha j Hj) as (? & ? & ?). split; [right; assumption|auto].
        -- intros j [<-|Hj] Hji Hjr Hpass; [|exact (Hmax j Hj Hji Hjr Hpass)].
           exfalso. destruct Hpass as (o' & dj' & Ho' & Hd' & Ht).
           rewrite Ho in Ho'. injection Ho' as <-. fold dir in Hd. rewrite Hd in Hd'.
           injection Hd' as <-. exact (Hge Ht).
Qed.

Let visit := MapUtils.visit minimum_rotated_rectangle union query.

(** What the loop guarantees of an output group [(g, ms)], [pre] being
    the groups emitted before it. *)
Let group_ok (ped : list G) (pre : list (G * list nat)) (g : G) (ms : list nat) : Prop :=
  exists l absorbed pgeom dl os,
    ms = l :: absorbed /\ nth_error ped l = Some pgeom /\ dir pgeom = Some dl /\
    Forall2 (fun j o => nth_error ped j = Some o) absorbed os /\
    g = fold_left union os pgeom /\
    (forall j, In j absorbed ->
       In j (query ped pgeom) /\ j <> l /\ passes ped (fst dl) (snd dl) j) /\
    (forall j, In j (query ped pgeom) -> j <> l -> passes ped (fst dl) (snd dl) j ->
       In j absorbed \/ In j (flat_map snd pre)).

Let inv (ped : list G) (remain : list nat) (final : list (G * list nat)) (done : list nat) : Prop :=
  NoDup remain /\
  Permutation (remain ++ flat_map snd final) (seq 0 (List.length ped)) /\
  (forall j, In j done -> ~ In j remain) /\
  (forall k g ms, nth_error final k = Some (g, ms) -> group_ok ped (firstn k final) g ms).

Lemma visit_none (ped : list G) (ps : list (nat * G)) :
  fold_left (visit ped) ps None = None.
Proof. induction ps as [|p ps IH]; [reflexivity|exact IH]. Qed.

Lemma visit_fold (ped : list G) (ps : list (nat * G)) :
  (forall i pg, In (i, pg) ps -> nth_error ped i = Some pg) ->
  forall remain final done st,
  inv ped remain final done ->
  fold_left (visit ped) ps (Some (remain, final)) = Some st ->
  inv ped (fst st) (snd st) (done ++ map fst ps).
Proof.
  induction ps as [|[i pgeom] ps IH]; intros Hps remain final done st Hinv H;
    cbn [fold_left] in H.
  - injection H as <-. rewrite app_nil_r. exact Hinv.
  - destruct Hinv as (Hnd & Hperm & Hdone & Hgroups).
    assert (Hps' : forall i' pg, In (i', pg) ps -> nth_error ped i' = Some pg)
      by (intros; apply Hps; right; assumption).
    replace (done ++ map fst ((i, pgeom) :: ps)) with ((done ++ [i]) ++ map fst ps)
      by (cbn; rewrite <- app_assoc; reflexivity).
    unfold visit at 2, MapUtils.visit in H.
    destruct (negb (MapUtils.mem i remain)) eqn:Emem.
    + apply (IH Hps' remain final (done ++ [i]) st); [|exact H].
      apply negb_true_iff in Emem.
      split; [exact Hnd|]. split; [exact Hperm|]. split; [|exact Hgroups].
      intros j Hj. apply in_app_or in Hj as [Hj|[<-|[]]]; [exact (Hdone j Hj)|].
      intros Hin. apply (proj2 (mem_In i remain)) in Hin. congruence.
    + apply negb_false_iff, mem_In in Emem.
      destruct (MapUtils.get_rec_direction minimum_rotated_rectangle pgeom) as [dl|] eqn:Hd;
        [|rewrite visit_none in H; discriminate].
      destruct (fold_left _ (query ped pgeom) _) as [[remain2 [last members]]|] eqn:Hf;
        [|rewrite visit_none in H; discriminate].
      pose proof (discard_nodup i remain Hnd) as Hnd1.
      destruct (merge_fold ped i (fst dl) (snd dl) (query ped pgeom) _ _ _ _ _ _ Hnd1 Hf)
        as (added & os & Hm & Hp & Hos & Hl & Ha & Hmax).
      cbn [app] in Hm. subst members.
      apply (IH Hps' remain2 (final ++ [(last, i :: added)]) (done ++ [i]) st); [|exact H].
      assert (Hsub : forall j, In j remain2 -> In j remain /\ j <> i).
      { intros j Hj. apply discard_incl.
        apply (Permutation_in _ (Permutation_sym Hp)). apply in_or_app. left. exact Hj. }
      split; [|split; [|split]].
      * apply (NoDup_app_remove_r _ _ (Permutation_NoDup Hp Hnd1)).
      * rewrite flat_map_app. cbn [flat_map snd]. rewrite app_nil_r.
        eapply perm_trans; [|exact Hperm].
        rewrite (discard_perm i remain Hnd Emem), Hp, (app_assoc remain2).
        eapply perm_trans; [apply Permutation_sym, Permutation_middle|].
        cbn [app]. apply perm_skip. rewrite <- !app_assoc.
        apply Permutation_app_head, Permutation_app_comm.
      * intros j Hj Hin. destruct (Hsub j Hin) as [Hr Hji].
        apply in_app_or in Hj as [Hj|[<-|[]]]; [exact (Hdone j Hj Hr)|exact (Hji eq_refl)].
      * intros k g ms Hk. destruct (Nat.lt_ge_cases k (List.length final)) as [Hlt|Hge].
        -- rewrite nth_error_app1 in Hk by exact Hlt.
           rewrite firstn_app, (proj2 (Nat.sub_0_le k (List.length final)) (Nat.lt_le_incl _ _ Hlt)).
           cbn [firstn]. rewrite app_nil_r. exact (Hgroups k g ms Hk).
        -- rewrite nth_error_app2 in Hk by exact Hge.
           destruct (k - List.length final)%nat as [|k'] eqn:Ek; [|destruct k'; discriminate].
           cbn in Hk. injection Hk as <- <-.
           replace (firstn k (final ++ [(last, i :: added)])) with final
             by (rewrite firstn_app, firstn_all2 by lia; rewrite Ek; cbn; rewrite app_nil_r; reflexivity).
           exists i, added, pgeom, dl, os.
           split; [reflexivity|]. split; [apply Hps; left; reflexivity|].
           split; [exact Hd|]. split; [exact Hos|]. split; [exact Hl|]. split.
           ++ exact Ha.
           ++ intros j Hq Hji Hpass.
              destruct (in_dec Nat.eq_dec j (MapUtils.discard i remain)) as [Hr1|Hr1].
              ** left. exact (Hmax j Hq Hji Hr1 Hpass).
              ** right. destruct Hpass as (o & dj & Ho & _).
                 assert (Hseq : In j (seq 0 (List.length ped))).
                 { apply in_seq. split; [lia|]. cbn [Nat.add].
                   apply nth_error_Some. rewrite Ho. discriminate. }
                 apply (Permutation_in _ (Permutation_sym Hperm)) in Hseq.
                 apply in_app_or in Hseq as [Hr|Hr]; [|exact Hr].
                 exfalso. exact (Hr1 (discard_keep i j remain Hr Hji)).
Qed.

Lemma in_combine_seq_nth (l : list G) : forall k i pg,
  In (i, pg) (combine (seq k (List.length l)) l) -> nth_error l (i - k)%nat = Some pg /\ (k <= i)%nat.
Proof.
  induction l as [|x l IH]; intros k i pg H; [destruct H|].
  cbn in H. destruct H as [H|H].
  - injection H as <- <-. rewrite Nat.sub_diag. split; [reflexivity|lia].
  - destruct (IH (S k) i pg H) as [Hn Hle].
    replace (i - k)%nat with (S (i - S k)) by lia. split; [exact Hn|lia].
Qed.

Lemma map_fst_combine_seq (l : list G) (k : nat) :
  map fst (combine (seq k (List.length l)) l) = seq k (List.length l).
Proof.
  revert k; induction l as [|x l IH]; intros k; [reflexivity|].
  cbn. f_equal. apply IH.
Qed.

Lemma union_groups_greedy (ped : list G) (final : list (G * list nat)) :
  MapUtils.union_groups minimum_rotated_rectangle union query ped = Some final ->
  Permutation (flat_map snd final) (seq 0 (List.length ped)) /\
  (forall k g ms, nth_error final k = Some (g, ms) -> group_ok ped (firstn k final) g ms).
Proof.
  unfold MapUtils.union_groups. intros H.
  destruct (fold_left _ _ _) as [st|] eqn:Hf; [|discriminate]. injection H as <-.
  assert (Hps : forall i pg, In (i, pg) (combine (seq 0 (List.length ped)) ped) ->
                nth_error ped i = Some pg).
  { intros i pg Hin. destruct (in_combine_seq_nth ped 0 i pg Hin) as [Hn _].
    rewrite Nat.sub_0_r in Hn. exact Hn. }
  assert (H0 : inv ped (seq 0 (List.length ped)) [] []).
  { split; [apply seq_NoDup|]. split; [rewrite app_nil_r; reflexivity|].
    split; [intros j []|]. intros k g ms Hk. destruct k; discriminate. }
  destruct (visit_fold ped _ Hps _ _ _ st H0 Hf) as (Hnd & Hperm & Hdone & Hgroups).
  rewrite map_fst_combine_seq in Hdone. cbn [app] in Hdone.
  split; [|exact Hgroups].
  destruct (fst st) as [|j remain] eqn:Er.
  - exact Hperm.
  - exfalso. apply (Hdone j); [|left; reflexivity].
    apply (Permutation_in _ Hperm). left. reflexivity.
Qed.
End UnionPedProof.

Lemma dir_strip (k : Z) :
  MapUtils.get_rec_direction MapUtils.zmrr (MapUtils.strip k) = Some ((4, 0), 4).
Proof.
  unfold MapUtils.get_rec_direction, MapUtils.zmrr, MapUtils.strip. cbn [map hd].
  unfold MapUtils.norm2, MapUtils.vsub2, MapUtils.to_R2. cbn [fst snd]. rewrite plus_IZR.
  destruct (Rlt_dec _ _) as [H|H].
  - exfalso. apply sqrt_lt_0_alt in H. lra.
  - f_equal. f_equal; [f_equal; lra|].
    replace ((4 - 0) * (4 - 0) + (IZR k - IZR k) * (IZR k - IZR k)) with (4 * 4) by ring.
    apply sqrt_square; lra.
Qed.

Lemma dir_diamond :
  MapUtils.get_rec_direction MapUtils.zmrr MapUtils.diamond = Some ((2, 2), sqrt 8).
Proof.
  unfold MapUtils.get_rec_direction, MapUtils.zmrr, MapUtils.diamond. cbn [map hd].
  unfold MapUtils.norm2, MapUtils.vsub2, MapUtils.to_R2. cbn [fst snd].
  destruct (Rlt_dec _ _) as [H|H].
  - exfalso. apply sqrt_lt_0_alt in H. lra.
  - f_equal. f_equal; [f_equal; lra|]. f_equal. lra.
Qed.

Lemma strips_parallel : 1 - Rabs (MapUtils.dot2 (4, 0) (4, 0) / (4 * 4)) < 1 / 100.
Proof.
  unfold MapUtils.dot2. cbn [fst snd].
  replace ((4 * 4 + 0 * 0) / (4 * 4)) with 1 by field. rewrite Rabs_R1. lra.
Qed.

Lemma strip_diamond_not_parallel :
  ~ (1 - Rabs (MapUtils.dot2 (4, 0) (2, 2) / (4 * sqrt 8)) < 1 / 100).
Proof.
  unfold MapUtils.dot2. cbn [fst snd].
  assert (Hs : 28 / 10 < sqrt 8).
  { rewrite <- (sqrt_square (28 / 10)) by lra. apply sqrt_lt_1_alt. lra. }
  assert (Hc : 0 <= (4 * 2 + 0 * 2) / (4 * sqrt 8) <= 72 / 100).
  { split.
    - apply Rmult_le_pos; [lra|]. left. apply Rinv_0_lt_compat. lra.
    - apply (Rmult_le_reg_r (4 * sqrt 8)); [lra|].
      unfold Rdiv. rewrite Rmult_assoc, Rinv_l by lra. lra. }
  rewrite Rabs_pos_eq by (destruct Hc; assumption). lra.
Qed.

Ltac groups_step :=
  cbn -[MapUtils.get_rec_direction MapUtils.strip MapUtils.diamond MapUtils.zquery MapUtils.dot2].

Lemma pair_groups :
  MapUtils.union_groups MapUtils.zmrr MapUtils.zunion MapUtils.zquery
    [MapUtils.strip 0; MapUtils.strip 1] =
  Some [(MapUtils.zunion (MapUtils.strip 0) (MapUtils.strip 1), [0; 1]%nat)].
Proof.
  unfold MapUtils.union_groups. groups_step.
  rewrite dir_strip. groups_step.
  replace (MapUtils.zquery [MapUtils.strip 0; MapUtils.strip 1] (MapUtils.strip 0))
    with [0; 1]%nat by (vm_compute; reflexivity).
  groups_step. rewrite dir_strip. groups_step.
  destruct (Rlt_dec _ _) as [_|Hn]; [|exfalso; exact (Hn strips_parallel)].
  reflexivity.
Qed.

Lemma diagonal_groups :
  MapUtils.union_groups MapUtils.zmrr MapUtils.zunion MapUtils.zquery
    [MapUtils.strip 0; MapUtils.diamond] =
  Some [(MapUtils.strip 0, [0%nat]); (MapUtils.diamond, [1%nat])].
Proof.
  unfold MapUtils.union_groups. groups_step.
  rewrite dir_strip. groups_step.
  replace (MapUtils.zquery [MapUtils.strip 0; MapUtils.diamond] (MapUtils.strip 0))
    with [0; 1]%nat by (vm_compute; reflexivity).
  groups_step. rewrite dir_diamond. groups_step.
  destruct (Rlt_dec _ _) as [Hp|_]; [exfalso; exact (strip_diamond_not_parallel Hp)|].
  groups_step. rewrite dir_diamond. groups_step.
  replace (MapUtils.zquery [MapUtils.strip 0; MapUtils.diamond] MapUtils.diamond)
    with [0; 1]%nat by (vm_compute; reflexivity).
  reflexivity.
Qed.

Lemma chain_groups :
  MapUtils.union_groups MapUtils.zmrr MapUtils.zunion MapUtils.zquery
    [MapUtils.strip 0; MapUtils.strip 1; MapUtils.strip 2] =
  Some [(MapUtils.zunion (MapUtils.strip 0) (MapUtils.strip 1), [0; 1]%nat);
        (MapUtils.strip 2, [2%nat])].
Proof.
  unfold MapUtils.union_groups. groups_step.
  rewrite dir_strip. groups_step.
  replace (MapUtils.zquery [MapUtils.strip 0; MapUtils.strip 1; MapUtils.strip 2] (MapUtils.strip 0))
    with [0; 1]%nat by (vm_compute; reflexivity).
  groups_step. rewrite dir_strip. groups_step.
  destruct (Rlt_dec _ _) as [_|Hn]; [|exfalso; exact (Hn strips_parallel)].
  groups_step. rewrite dir_strip. groups_step.
  replace (MapUtils.zquery [MapUtils.strip 0; MapUtils.strip 1; MapUtils.strip 2] (MapUtils.strip 2))
    with [1; 2]%nat by (vm_compute; reflexivity).
  reflexivity.
Qed.

(** C8 (corrected): [_union_ped] merges greedily in index order.  Every
    index not yet absorbed becomes a leader [l]; it absorbs exactly the
    indices [j <> l], not absorbed by an earlier group, that the spatial
    index returns for the leader's own geometry and whose principal
    direction satisfies [1 - |cos| < 0.01] against the leader's direction;
    the groups partition the input.  Two strips sharing a long edge merge,
    a strip and a rectangle at 45 degrees do not. *)
Theorem ped_crossing_greedy_merge :
  (forall (G : Type) (mrr : G -> list (R * R)) (union : G -> G -> G)
          (query : list G -> G -> list nat) (ped : list G) (final : list (G * list nat)),
     MapUtils.union_groups mrr union query ped = Some final ->
     Permutation (flat_map snd final) (seq 0 (List.length ped)) /\
     forall k g ms, nth_error final k = Some (g, ms) ->
       exists l absorbed pgeom dl os,
         ms = l :: absorbed /\ nth_error ped l = Some pgeom /\
         MapUtils.get_rec_direction mrr pgeom = Some dl /\
         Forall2 (fun j o => nth_error ped j = Some o) absorbed os /\
         g = fold_left union os pgeom /\
         (forall j, In j absorbed ->
            In j (query ped pgeom) /\ j <> l /\
            exists o dj, nth_error ped j = Some o /\
              MapUtils.get_rec_direction mrr o = Some dj /\
              1 - Rabs (MapUtils.dot2 (fst dl) (fst dj) / (snd dl * snd dj)) < 1 / 100) /\
         (forall j o dj, In j (query ped pgeom) -> j <> l ->
            nth_error ped j = Some o -> MapUtils.get_rec_direction mrr o = Some dj ->
            1 - Rabs (MapUtils.dot2 (fst dl) (fst dj) / (snd dl * snd dj)) < 1 / 100 ->
            In j absorbed \/ In j (flat_map snd (firstn k final)))) /\
  MapUtils.union_groups MapUtils.zmrr MapUtils.zunion MapUtils.zquery
    [MapUtils.strip 0; MapUtils.strip 1] =
    Some [(MapUtils.zunion (MapUtils.strip 0) (MapUtils.strip 1), [0; 1]%nat)] /\
  MapUtils.union_groups MapUtils.zmrr MapUtils.zunion MapUtils.zquery
    [MapUtils.strip 0; MapUtils.diamond] =
    Some [(MapUtils.strip 0, [0%nat]); (MapUtils.diamond, [1%nat])].
Proof.
  split; [|exact (conj pair_groups diagonal_groups)].
  intros G mrr union query ped final H.
  destruct (union_groups_greedy mrr union query ped final H) as [Hp Hg].
  split; [exact Hp|]. intros k g ms Hk.
  destruct (Hg k g ms Hk) as (l & absorbed & pgeom & dl & os & Hms & Hl & Hd & Hf & Hu & Ha & Hmax).
  exists l, absorbed, pgeom, dl, os. do 5 (split; [assumption|]). split.
  - exact Ha.
  - intros j o dj Hq Hne Ho Hdj Hc. apply Hmax; [assumption|assumption|].
    exists o, dj. auto.
Qed.

Lemma ped_crossing_greedy_merge_witness :
  exists final,
    MapUtils.union_groups MapUtils.zmrr MapUtils.zunion MapUtils.zquery
      [MapUtils.strip 0; MapUtils.strip 1; MapUtils.strip 2] = Some final /\
    Permutation (flat_map snd final) (seq 0 3).
Proof.
  eexists. split; [exact chain_groups|].
  exact (proj1 (proj1 ped_crossing_greedy_merge _ _ _ _ _ _ chain_groups)).
Defined.

(** C8 counterexample: in a chain of three strips, strips 1 and 2 are
    spatial-index neighbours of each other and pass the parallel test,
    yet strip 1 is absorbed by strip 0 and strip 2 stays a group of its own. *)
Lemma ped_merge_counterexample :
  MapUtils.union_groups MapUtils.zmrr MapUtils.zunion MapUtils.zquery
    [MapUtils.strip 0; MapUtils.strip 1; MapUtils.strip 2] =
    Some [(MapUtils.zunion (MapUtils.strip 0) (MapUtils.strip 1), [0; 1]%nat);
          (MapUtils.strip 2, [2%nat])] /\
  In 2%nat (MapUtils.zquery [MapUtils.strip 0; MapUtils.strip 1; MapUtils.strip 2] (MapUtils.strip 1)) /\
  In 1%nat (MapUtils.zquery [MapUtils.strip 0; MapUtils.strip 1; MapUtils.strip 2] (MapUtils.strip 2)) /\
  exists d1 d2,
    MapUtils.get_rec_direction MapUtils.zmrr (MapUtils.strip 1) = Some d1 /\
    MapUtils.get_rec_direction MapUtils.zmrr (MapUtils.strip 2) = Some d2 /\
    1 - Rabs (MapUtils.dot2 (fst d1) (fst d2) / (snd d1 * snd d2)) < 1 / 100.
Proof.
  split; [exact chain_groups|].
  split; [vm_compute; auto|]. split; [vm_compute; auto|].
  exists ((4, 0), 4), ((4, 0), 4). split; [apply dir_strip|]. split; [apply dir_strip|].
  exact strips_parallel.
Qed.

(* ------------------------------------------------------------------ *)
(** * Further properties of the converters' helpers *)

Section ExtraUtilsV2.
Import UtilsV2.

(** compute_velocity: with at least two positions and an elapsed time of at least 0.01 s, the velocity carries the first position to the last one in the elapsed time. *)
Theorem compute_velocity_displacement (positions : list vec3) (timestamps : list Z)
    (p_first p_last : vec3) (t_first t_last : Z) :
  (2 <= List.length positions)%nat ->
  hd_error positions = Some p_first -> last_error positions = Some p_last ->
  hd_error timestamps = Some t_first -> last_error timestamps = Some t_last ->
  1 / 100 <= IZR (t_last - t_first) / 1000000 ->
  exists v, UtilsV2.compute_velocity positions timestamps = Some v /\
    vadd p_first (vscale v (IZR (t_last - t_first) / 1000000)) = p_last.
Proof.
  intros H Hp0 Hp1 Ht0 Ht1 Hge. unfold UtilsV2.compute_velocity.
  apply Nat.ltb_ge in H. rewrite H, Hp1, Hp0, Ht1, Ht0.
  destruct (Rlt_dec _ _) as [Hlt|_]; [lra|].
  eexists. split; [reflexivity|].
  set (dt := IZR (t_last - t_first) / 1000000) in *.
  destruct p_first as [a0 a1 a2], p_last as [b0 b1 b2].
  unfold vadd, vscale, vdiv, vsub; cbn [v0 v1 v2].
  f_equal; field; lra.
Qed.

Lemma scan_bounds_all_lt (t : Z) (pts : list traj_point) :
  (forall q, In q pts -> (tp_timestamp q < t)%Z) ->
  forall i before, snd (scan_bounds t pts i before) = None.
Proof.
  induction pts as [|p pts IH]; intros H i before; [reflexivity|].
  cbn [scan_bounds]. assert (Hp : (tp_timestamp p < t)%Z) by (apply H; left; reflexivity).
  replace ((t <=? tp_timestamp p)%Z) with false by (symmetry; apply Z.leb_gt; exact Hp).
  apply IH. intros q Hq. apply H. right. exact Hq.
Qed.

Lemma scan_bounds_split (t : Z) (pre : list traj_point) (p : traj_point) (post : list traj_point) :
  (forall q, In q pre -> (tp_timestamp q < t)%Z) -> (t <= tp_timestamp p)%Z ->
  forall i before,
  scan_bounds t (pre ++ p :: post) i before =
    (if (tp_timestamp p <=? t)%Z then Some (i + List.length pre)%nat
     else match pre with [] => before | _ => Some (i + List.length pre - 1)%nat end,
     Some (i + List.length pre)%nat).
Proof.
  intros Hpre Hp. induction pre as [|q pre IH]; intros i before.
  - cbn [app scan_bounds List.length]. rewrite Nat.add_0_r.
    replace ((t <=? tp_timestamp p)%Z) with true by (symmetry; apply Z.leb_le; exact Hp).
    reflexivity.
  - cbn [app scan_bounds List.length].
    assert (Hq : (tp_timestamp q < t)%Z) by (apply Hpre; left; reflexivity).
    replace ((tp_timestamp q <=? t)%Z) with true by (symmetry; apply Z.leb_le; lia).
    replace ((t <=? tp_timestamp q)%Z) with false by (symmetry; apply Z.leb_gt; exact Hq).
    rewrite IH by (intros q' Hq'; apply Hpre; right; exact Hq').
    destruct pre as [|q' pre']; cbn [List.length];
      (destruct (tp_timestamp p <=? t)%Z; f_equal; f_equal; lia).
Qed.

Lemma split_first (t : Z) (pts : list traj_point) :
  (forall q, In q pts -> (tp_timestamp q < t)%Z) \/
  exists pre p post, pts = pre ++ p :: post /\
    (forall q, In q pre -> (tp_timestamp q < t)%Z) /\ (t <= tp_timestamp p)%Z.
Proof.
  induction pts as [|p pts IH]; [left; intros q []|].
  destruct (Z_lt_le_dec (tp_timestamp p) t) as [Hlt|Hge].
  - destruct IH as [Hall|(pre & p' & post & -> & Hpre & Hp')].
    + left. intros q [<-|Hq]; [exact Hlt|exact (Hall q Hq)].
    + right. exists (p :: pre), p', post. split; [reflexivity|]. split; [|exact Hp'].
      intros q [<-|Hq]; [exact Hlt|exact (Hpre q Hq)].
  - right. exists [], p, pts. split; [reflexivity|]. split; [intros q []|exact Hge].
Qed.

Lemma interpolate_at_spec (traj : list traj_point) (t : Z) :
  exists l, interpolate_at traj t = Some l /\
    map tp_timestamp l =
      (if match traj with q :: _ => (tp_timestamp q <=? t)%Z | [] => false end &&
          existsb (fun p => (t <=? tp_timestamp p)%Z) traj then [t] else []) /\
    Forall (fun x => In x traj \/
      exists k pb pa alpha,
        nth_error traj k = Some pb /\ nth_error traj (S k) = Some pa /\
        (tp_timestamp pb < tp_timestamp x < tp_timestamp pa)%Z /\
        alpha = IZR (tp_timestamp x - tp_timestamp pb) / IZR (tp_timestamp pa - tp_timestamp pb) /\
        0 < alpha < 1 /\
        tp_translation x = vadd (tp_translation pb)
                             (vscale (vsub (tp_translation pa) (tp_translation pb)) alpha)) l.
Proof.
  destruct (split_first t traj) as [Hall|(pre & p & post & Htraj & Hpre & Hp)].
  - exists []. unfold interpolate_at.
    pose proof (scan_bounds_all_lt t traj Hall 0 None) as Hs.
    destruct (scan_bounds t traj 0 None) as [b a]. cbn [snd] in Hs. subst a.
    split; [destruct b; reflexivity|]. split; [|constructor].
    replace (existsb _ traj) with false; [rewrite andb_false_r; reflexivity|].
    symmetry. apply not_true_iff_false. intros He. apply existsb_exists in He as (q & Hq & Hle).
    apply Z.leb_le in Hle. specialize (Hall q Hq). lia.
  - assert (Hex : existsb (fun p0 => (t <=? tp_timestamp p0)%Z) traj = true).
    { apply existsb_exists. exists p. split; [rewrite Htraj; apply in_elt|apply Z.leb_le; exact Hp]. }
    rewrite Hex, andb_true_r.
    unfold interpolate_at. rewrite Htraj, (scan_bounds_split t pre p post Hpre Hp 0 None).
    cbn [Nat.add].
    destruct (Z.eq_dec (tp_timestamp p) t) as [Heq|Hne].
    + (* an exact match *)
      replace ((tp_timestamp p <=? t)%Z) with true by (symmetry; apply Z.leb_le; lia).
      rewrite Nat.eqb_refl, nth_error_app2, Nat.sub_diag by lia. cbn [nth_error].
      exists [p]. split; [reflexivity|]. split.
      * replace (match pre ++ p :: post with q :: _ => (tp_timestamp q <=? t)%Z | [] => false end)
          with true; [cbn; rewrite Heq; reflexivity|].
        destruct pre as [|q pre]; cbn; symmetry; apply Z.leb_le; [lia|].
        specialize (Hpre q (or_introl eq_refl)). lia.
      * constructor; [left; apply in_elt|constructor].
    + replace ((tp_timestamp p <=? t)%Z) with false by (symmetry; apply Z.leb_gt; lia).
      destruct pre as [|q0 pre0] eqn:Epre.
      * exists []. split; [reflexivity|]. split; [|constructor].
        cbn. replace ((tp_timestamp p <=? t)%Z) with false by (symmetry; apply Z.leb_gt; lia).
        reflexivity.
      * rewrite <- Epre. rewrite <- Epre in Hpre.
        assert (Hfirst : (tp_timestamp q0 <= t)%Z)
          by (specialize (Hpre q0 ltac:(rewrite Epre; left; reflexivity)); lia).
        destruct (exists_last (l := pre) ltac:(rewrite Epre; discriminate)) as (pre' & q & Hpq).
        rewrite Hpq. rewrite length_app. cbn [List.length].
        replace (List.length pre' + 1 - 1)%nat with (List.length pre') by lia.
        replace (Nat.eqb (List.length pre') (List.length pre' + 1)) with false
          by (symmetry; apply Nat.eqb_neq; lia).
        rewrite <- app_assoc. cbn [app].
        rewrite nth_error_app2, Nat.sub_diag by lia. cbn [nth_error].
        rewrite nth_error_app2 by lia.
        replace (List.length pre' + 1 - List.length pre')%nat with 1%nat by lia. cbn [nth_error].
        assert (Hq : (tp_timestamp q < t)%Z) by (apply Hpre; rewrite Hpq; apply in_elt).
        replace (tp_timestamp p - tp_timestamp q =? 0)%Z with false by (symmetry; apply Z.eqb_neq; lia).
        eexists. split; [reflexivity|]. split.
        -- replace (match pre' ++ q :: p :: post with q1 :: _ => (tp_timestamp q1 <=? t)%Z | [] => false end)
             with true; [reflexivity|].
           destruct pre' as [|q1 pre1]; cbn; symmetry; apply Z.leb_le; [lia|].
           assert (In q1 pre) by (rewrite Hpq; left; reflexivity). specialize (Hpre q1 H). lia.
        -- constructor; [|constructor]. right.
           exists (List.length pre'), q, p, (IZR (t - tp_timestamp q) / IZR (tp_timestamp p - tp_timestamp q)).
           cbn [tp_timestamp tp_translation].
           split; [rewrite nth_error_app2, Nat.sub_diag by lia; reflexivity|].
           split; [change (nth_error (pre' ++ q :: p :: post) (S (List.length pre')) = Some p);
                   rewrite nth_error_app2 by lia;
                   replace (S (List.length pre') - List.length pre')%nat with 1%nat by lia; reflexivity|].
           split; [lia|]. split; [reflexivity|]. split; [|reflexivity].
           assert (H1 : 0 < IZR (t - tp_timestamp q)) by (apply IZR_lt; lia).
           assert (H2 : IZR (t - tp_timestamp q) < IZR (tp_timestamp p - tp_timestamp q))
             by (apply IZR_lt; lia).
           split.
           ++ apply Rdiv_lt_0_compat; lra.
           ++ apply (Rmult_lt_reg_r (IZR (tp_timestamp p - tp_timestamp q))); [lra|].
              unfold Rdiv. rewrite Rmult_assoc, Rinv_l by lra. lra.
Qed.

Lemma interpolate_go (traj : list traj_point) (targets : list Z) :
  exists chunks, map_opt (interpolate_at traj) targets = Some chunks /\
    map tp_timestamp (List.concat chunks) =
      filter (fun t => match traj with q :: _ => (tp_timestamp q <=? t)%Z | [] => false end &&
                       existsb (fun p => (t <=? tp_timestamp p)%Z) traj) targets /\
    Forall (fun x => In x traj \/
      exists k pb pa alpha,
        nth_error traj k = Some pb /\ nth_error traj (S k) = Some pa /\
        (tp_timestamp pb < tp_timestamp x < tp_timestamp pa)%Z /\
        alpha = IZR (tp_timestamp x - tp_timestamp pb) / IZR (tp_timestamp pa - tp_timestamp pb) /\
        0 < alpha < 1 /\
        tp_translation x = vadd (tp_translation pb)
                             (vscale (vsub (tp_translation pa) (tp_translation pb)) alpha))
      (List.concat chunks).
Proof.
  induction targets as [|t targets IH].
  - exists []. split; [reflexivity|]. split; [reflexivity|constructor].
  - destruct (interpolate_at_spec traj t) as (l & Hl & Hts & Hseg).
    destruct IH as (chunks & Hc & Hcts & Hcseg).
    exists (l :: chunks). cbn [map_opt]. rewrite Hl, Hc. split; [reflexivity|].
    cbn [List.concat filter]. rewrite map_app, Hts, Hcts. split.
    + destruct (_ && _); reflexivity.
    + apply Forall_app. split; assumption.
Qed.

(** interpolate_trajectory: fewer than two trajectory points give no output; otherwise the output timestamps are exactly the targets, in order, that are at or after the first point and at or before some point of the trajectory. *)
Theorem interpolate_trajectory_timestamps (trajectory : list traj_point) (target_timestamps : list Z) :
  ((List.length trajectory < 2)%nat ->
     interpolate_trajectory trajectory target_timestamps = Some []) /\
  ((2 <= List.length trajectory)%nat ->
     exists out, interpolate_trajectory trajectory target_timestamps = Some out /\
       map tp_timestamp out =
         filter (fun t => match trajectory with
                          | q :: _ => (tp_timestamp q <=? t)%Z
                          | [] => false end &&
                          existsb (fun p => (t <=? tp_timestamp p)%Z) trajectory)
           target_timestamps).
Proof.
  unfold interpolate_trajectory. split.
  - intros H. apply Nat.ltb_lt in H. rewrite H. reflexivity.
  - intros H. apply Nat.ltb_ge in H. rewrite H.
    destruct (interpolate_go trajectory target_timestamps) as (chunks & Hc & Hts & _).
    rewrite Hc. eexists. split; [reflexivity|exact Hts].
Qed.

Lemma interpolate_out_cases (trajectory : list traj_point) (target_timestamps : list Z)
    (out : list traj_point) :
  interpolate_trajectory trajectory target_timestamps = Some out ->
  forall x, In x out ->
    In x trajectory \/
    exists k pb pa alpha,
      nth_error trajectory k = Some pb /\ nth_error trajectory (S k) = Some pa /\
      (tp_timestamp pb < tp_timestamp x < tp_timestamp pa)%Z /\
      alpha = IZR (tp_timestamp x - tp_timestamp pb) / IZR (tp_timestamp pa - tp_timestamp pb) /\
      0 < alpha < 1 /\
      tp_translation x = vadd (tp_translation pb)
                           (vscale (vsub (tp_translation pa) (tp_translation pb)) alpha).
Proof.
  unfold interpolate_trajectory. intros H x Hx.
  destruct (Nat.ltb _ 2); [injection H as <-; destruct Hx|].
  destruct (interpolate_go trajectory target_timestamps) as (chunks & Hc & _ & Hseg).
  rewrite Hc in H. injection H as <-.
  rewrite Forall_forall in Hseg. exact (Hseg x Hx).
Qed.

(** interpolate_trajectory: each output point is either a trajectory point, or lies strictly between two consecutive trajectory points, at the convex combination given by alpha in (0, 1). *)
Theorem interpolate_trajectory_segments (trajectory : list traj_point) (target_timestamps : list Z)
    (out : list traj_point) :
  interpolate_trajectory trajectory target_timestamps = Some out ->
  forall x, In x out ->
    In x trajectory \/
    exists k pb pa alpha,
      nth_error trajectory k = Some pb /\ nth_error trajectory (S k) = Some pa /\
      (tp_timestamp pb < tp_timestamp x < tp_timestamp pa)%Z /\
      alpha = IZR (tp_timestamp x - tp_timestamp pb) / IZR (tp_timestamp pa - tp_timestamp pb) /\
      0 < alpha < 1 /\
      tp_translation x = vadd (tp_translation pb)
                           (vscale (vsub (tp_translation pa) (tp_translation pb)) alpha).
Proof. exact (interpolate_out_cases trajectory target_timestamps out). Qed.

(** interpolate_trajectory reproduces motion that is linear in time: if every input translation is a + b * t, so is every output translation. *)
Theorem interpolate_trajectory_linear (trajectory : list traj_point) (target_timestamps : list Z)
    (out : list traj_point) (a b : vec3) :
  (forall p, In p trajectory -> tp_translation p = vadd a (vscale b (IZR (tp_timestamp p)))) ->
  interpolate_trajectory trajectory target_timestamps = Some out ->
  forall x, In x out -> tp_translation x = vadd a (vscale b (IZR (tp_timestamp x))).
Proof.
  intros Hlin H x Hx.
  destruct (interpolate_out_cases trajectory target_timestamps out H x Hx)
    as [Hin|(k & pb & pa & alpha & Hb & Ha & Hts & Halpha & _ & Hx')].
  - exact (Hlin x Hin).
  - rewrite Hx', (Hlin pb (nth_error_In _ _ Hb)), (Hlin pa (nth_error_In _ _ Ha)), Halpha.
    assert (Hd : IZR (tp_timestamp pa - tp_timestamp pb) <> 0)
      by (apply not_0_IZR; lia).
    rewrite !minus_IZR in *.
    destruct a as [a0 a1 a2], b as [b0 b1 b2].
    unfold vadd, vscale, vsub; cbn [v0 v1 v2]. f_equal; field; exact Hd.
Qed.

Lemma sub_loop_spec (fuel : nat) : forall angle r,
  sub_loop fuel angle = Some r ->
  r <= PI /\ exists k : Z, r = angle + 2 * PI * IZR k.
Proof.
  induction fuel as [|fuel IH]; intros angle r H; cbn [sub_loop] in H; [discriminate|].
  destruct (Rlt_dec PI angle) as [Hgt|Hle].
  - destruct (IH _ _ H) as [Hr (k & Hk)]. split; [exact Hr|].
    exists (k - 1)%Z. rewrite Hk, minus_IZR. ring.
  - injection H as <-. split; [lra|]. exists 0%Z. ring.
Qed.

Lemma add_loop_spec (fuel : nat) : forall angle r,
  angle <= PI -> add_loop fuel angle = Some r ->
  - PI <= r <= PI /\ exists k : Z, r = angle + 2 * PI * IZR k.
Proof.
  induction fuel as [|fuel IH]; intros angle r Ha H; cbn [add_loop] in H; [discriminate|].
  destruct (Rlt_dec angle (- PI)) as [Hlt|Hge].
  - destruct (IH (angle + 2 * PI) r ltac:(lra) H) as [Hr (k & Hk)]. split; [exact Hr|].
    exists (k + 1)%Z. rewrite Hk, plus_IZR. ring.
  - injection H as <-. split; [lra|]. exists 0%Z. ring.
Qed.

(** normalize_angle: a result lies in [-pi, pi] and differs from the input by a whole number of turns. *)
Theorem normalize_angle_range (fuel : nat) (angle r : R) :
  normalize_angle fuel angle = Some r ->
  - PI <= r <= PI /\ exists k : Z, r = angle + 2 * PI * IZR k.
Proof.
  unfold normalize_angle. intros H.
  destruct (sub_loop fuel angle) as [a|] eqn:Hs; [|discriminate].
  destruct (sub_loop_spec fuel angle a Hs) as [Ha (k1 & Hk1)].
  destruct (add_loop_spec fuel a r Ha H) as [Hr (k2 & Hk2)].
  split; [exact Hr|]. exists (k1 + k2)%Z. rewrite Hk2, Hk1, plus_IZR. ring.
Qed.

Lemma fold_min_spec (r : list R) : forall x,
  (fold_left Rmin r x <= x /\ forall y, In y r -> fold_left Rmin r x <= y) /\
  (fold_left Rmin r x = x \/ In (fold_left Rmin r x) r).
Proof.
  induction r as [|y r IH]; intros x; cbn [fold_left].
  - split; [split; [lra|intros y []]|left; reflexivity].
  - destruct (IH (Rmin x y)) as [[H1 H2] H3].
    split; [split|].
    + pose proof (Rmin_l x y). lra.
    + intros z [<-|Hz]; [pose proof (Rmin_r x y); lra|exact (H2 z Hz)].
    + destruct H3 as [H3|H3]; [|right; right; exact H3].
      rewrite H3. unfold Rmin. destruct (Rle_dec x y); [left; reflexivity|right; left; reflexivity].
Qed.

Lemma fold_max_spec (r : list R) : forall x,
  (x <= fold_left Rmax r x /\ forall y, In y r -> y <= fold_left Rmax r x) /\
  (fold_left Rmax r x = x \/ In (fold_left Rmax r x) r).
Proof.
  induction r as [|y r IH]; intros x; cbn [fold_left].
  - split; [split; [lra|intros y []]|left; reflexivity].
  - destruct (IH (Rmax x y)) as [[H1 H2] H3].
    split; [split|].
    + pose proof (Rmax_l x y). lra.
    + intros z [<-|Hz]; [pose proof (Rmax_r x y); lra|exact (H2 z Hz)].
    + destruct H3 as [H3|H3]; [|right; right; exact H3].
      rewrite H3. unfold Rmax. destruct (Rle_dec x y); [right; left; reflexivity|left; reflexivity].
Qed.

Lemma np_min_spec (xs : list R) (m : R) :
  np_min xs = Some m -> (forall y, In y xs -> m <= y) /\ In m xs.
Proof.
  destruct xs as [|x r]; cbn; [discriminate|]. intros H; injection H as <-.
  destruct (fold_min_spec r x) as [[H1 H2] H3]. split.
  - intros y [<-|Hy]; [exact H1|exact (H2 y Hy)].
  - destruct H3 as [->|H3]; [left; reflexivity|right; exact H3].
Qed.

Lemma np_max_spec (xs : list R) (m : R) :
  np_max xs = Some m -> (forall y, In y xs -> y <= m) /\ In m xs.
Proof.
  destruct xs as [|x r]; cbn; [discriminate|]. intros H; injection H as <-.
  destruct (fold_max_spec r x) as [[H1 H2] H3]. split.
  - intros y [<-|Hy]; [exact H1|exact (H2 y Hy)].
  - destruct H3 as [->|H3]; [left; reflexivity|right; exact H3].
Qed.

(** get_2d_bbox_from_3d: no vertices raise an error; otherwise the box contains every vertex in x and y, and each bound is attained by a vertex. *)
Theorem get_2d_bbox_from_3d_bounds (vertices : list vec3) :
  (vertices = [] -> get_2d_bbox_from_3d vertices = None) /\
  (vertices <> [] -> exists min_x min_y max_x max_y,
     get_2d_bbox_from_3d vertices = Some (min_x, min_y, max_x, max_y) /\
     (forall v, In v vertices -> min_x <= v0 v <= max_x /\ min_y <= v1 v <= max_y) /\
     (exists v, In v vertices /\ v0 v = min_x) /\ (exists v, In v vertices /\ v0 v = max_x) /\
     (exists v, In v vertices /\ v1 v = min_y) /\ (exists v, In v vertices /\ v1 v = max_y)).
Proof.
  split; [intros ->; reflexivity|]. intros Hne.
  destruct vertices as [|v vs]; [contradiction|].
  unfold get_2d_bbox_from_3d.
  destruct (np_min (map v0 (v :: vs))) as [mnx|] eqn:E1; [|discriminate].
  destruct (np_max (map v0 (v :: vs))) as [mxx|] eqn:E2; [|discriminate].
  destruct (np_min (map v1 (v :: vs))) as [mny|] eqn:E3; [|discriminate].
  destruct (np_max (map v1 (v :: vs))) as [mxy|] eqn:E4; [|discriminate].
  apply np_min_spec in E1 as [A1 B1]. apply np_max_spec in E2 as [A2 B2].
  apply np_min_spec in E3 as [A3 B3]. apply np_max_spec in E4 as [A4 B4].
  exists mnx, mny, mxx, mxy. split; [reflexivity|]. split.
  - intros w Hw. pose proof (in_map v0 _ _ Hw). pose proof (in_map v1 _ _ Hw).
    split; split; auto.
  - apply in_map_iff in B1 as (w1 & <- & H1). apply in_map_iff in B2 as (w2 & <- & H2).
    apply in_map_iff in B3 as (w3 & <- & H3). apply in_map_iff in B4 as (w4 & <- & H4).
    split; [exists w1; auto|]. split; [exists w2; auto|]. split; [exists w3; auto|exists w4; auto].
Qed.

Lemma normalise_unit (q : Quaternion) : _sum_of_squares q = 1 -> _normalise q = q.
Proof. intros H. unfold _normalise. rewrite (is_unit_of_ss1 q H). reflexivity. Qed.

Lemma rotation_matrix_norm (q : Quaternion) (v : vec3) :
  _sum_of_squares q = 1 -> vnorm (mat_vec (rotation_matrix q) v) = vnorm v.
Proof.
  intros H. unfold rotation_matrix. rewrite (normalise_unit q H).
  unfold mat_vec, _q_matrix, _q_bar_matrix. cbn [tl map nth dot].
  unfold vnorm. cbn [v0 v1 v2]. f_equal.
  unfold _sum_of_squares in H.
  destruct q as [w x y z], v as [a b c]. cbn [qw qx qy qz v0 v1 v2] in *.
  transitivity ((w * w + x * x + y * y + z * z) * (w * w + x * x + y * y + z * z) *
                (a * a + b * b + c * c)); [ring|]. rewrite H. ring.
Qed.

Lemma box_vertex_norm (l w h sx sy sz : R) :
  (sx = 1 \/ sx = -1) -> (sy = 1 \/ sy = -1) -> (sz = 1 \/ sz = -1) ->
  vnorm (Vec3 (sx * (l / 2)) (sy * (w / 2)) (sz * (h / 2))) = sqrt (l * l + w * w + h * h) / 2.
Proof.
  intros Hx Hy Hz. unfold vnorm. cbn [v0 v1 v2].
  set (X := l * l + w * w + h * h).
  assert (HX : 0 <= X) by (unfold X; nra).
  replace (sx * (l / 2) * (sx * (l / 2)) + sy * (w / 2) * (sy * (w / 2)) + sz * (h / 2) * (sz * (h / 2)))
    with ((sqrt X / 2) * (sqrt X / 2)).
  - apply sqrt_square. pose proof (sqrt_pos X). lra.
  - replace ((sqrt X / 2) * (sqrt X / 2)) with (sqrt X * sqrt X / 4) by field.
    rewrite sqrt_sqrt by exact HX. unfold X.
    destruct Hx as [-> | ->], Hy as [-> | ->], Hz as [-> | ->]; field.
Qed.

(** compute_box_vertices: a size that is not of length 3 fails; otherwise the 8 vertices come in 4 pairs symmetric about the center, and for a unit rotation each vertex lies at half the box diagonal from the center. *)
Theorem compute_box_vertices_shape (center : vec3) (size : list R) (rotation : Quaternion) :
  (List.length size <> 3%nat -> compute_box_vertices center size rotation = None) /\
  forall w l h, size = [w; l; h] ->
  exists a0 a1 a2 a3 a4 a5 a6 a7,
    compute_box_vertices center size rotation = Some [a0; a1; a2; a3; a4; a5; a6; a7] /\
    vadd a0 a6 = vscale center 2 /\ vadd a1 a7 = vscale center 2 /\
    vadd a2 a4 = vscale center 2 /\ vadd a3 a5 = vscale center 2 /\
    (_sum_of_squares rotation = 1 ->
       forall a, In a [a0; a1; a2; a3; a4; a5; a6; a7] ->
       vnorm (vsub a center) = sqrt (l * l + w * w + h * h) / 2).
Proof.
  split.
  - intros H. unfold compute_box_vertices.
    destruct size as [|w [|l [|h [|x r]]]]; try reflexivity. contradiction H. reflexivity.
  - intros w l h ->. unfold compute_box_vertices. cbn [combine map].
    set (m := rotation_matrix rotation).
    do 8 eexists. split; [reflexivity|].
    assert (Hsym : forall x y z,
      vadd (vadd (mat_vec m (Vec3 x y z)) center) (vadd (mat_vec m (Vec3 (- x) (- y) (- z))) center)
      = vscale center 2).
    { intros x y z. unfold m, rotation_matrix.
      set (q := _normalise rotation). unfold mat_vec, _q_matrix, _q_bar_matrix.
      cbn [tl map nth dot]. destruct center as [c0 c1 c2].
      unfold vadd, vscale. cbn [v0 v1 v2]. f_equal; ring. }
    split; [|split; [|split; [|split]]].
    + rewrite <- (Hsym (l / 2) (w / 2) (- h / 2)). repeat f_equal; field.
    + rewrite <- (Hsym (l / 2) (- w / 2) (- h / 2)). repeat f_equal; field.
    + rewrite <- (Hsym (- l / 2) (- w / 2) (- h / 2)). repeat f_equal; field.
    + rewrite <- (Hsym (- l / 2) (w / 2) (- h / 2)). repeat f_equal; field.
    + intros Hunit a Ha.
      assert (Hv : forall sx sy sz, (sx = 1 \/ sx = -1) -> (sy = 1 \/ sy = -1) -> (sz = 1 \/ sz = -1) ->
        vnorm (vsub (vadd (mat_vec m (Vec3 (sx * (l / 2)) (sy * (w / 2)) (sz * (h / 2)))) center) center)
        = sqrt (l * l + w * w + h * h) / 2).
      { intros sx sy sz Hx Hy Hz. rewrite vsub_vadd. unfold m.
        rewrite (rotation_matrix_norm rotation _ Hunit). apply box_vertex_norm; assumption. }
      destruct Ha as [<-|[<-|[<-|[<-|[<-|[<-|[<-|[<-|[]]]]]]]]].
      * replace (Vec3 (l / 2) (w / 2) (- h / 2)) with (Vec3 (1 * (l / 2)) (1 * (w / 2)) ((-1) * (h / 2))) by (f_equal; field). apply Hv; lra.
      * replace (Vec3 (l / 2) (- w / 2) (- h / 2)) with (Vec3 (1 * (l / 2)) ((-1) * (w / 2)) ((-1) * (h / 2))) by (f_equal; field). apply Hv; lra.
      * replace (Vec3 (- l / 2) (- w / 2) (- h / 2)) with (Vec3 ((-1) * (l / 2)) ((-1) * (w / 2)) ((-1) * (h / 2))) by (f_equal; field). apply Hv; lra.
      * replace (Vec3 (- l / 2) (w / 2) (- h / 2)) with (Vec3 ((-1) * (l / 2)) (1 * (w / 2)) ((-1) * (h / 2))) by (f_equal; field). apply Hv; lra.
      * replace (Vec3 (l / 2) (w / 2) (h / 2)) with (Vec3 (1 * (l / 2)) (1 * (w / 2)) (1 * (h / 2))) by (f_equal; field). apply Hv; lra.
      * replace (Vec3 (l / 2) (- w / 2) (h / 2)) with (Vec3 (1 * (l / 2)) ((-1) * (w / 2)) (1 * (h / 2))) by (f_equal; field). apply Hv; lra.
      * replace (Vec3 (- l / 2) (- w / 2) (h / 2)) with (Vec3 ((-1) * (l / 2)) ((-1) * (w / 2)) (1 * (h / 2))) by (f_equal; field). apply Hv; lra.
      * replace (Vec3 (- l / 2) (w / 2) (h / 2)) with (Vec3 ((-1) * (l / 2)) (1 * (w / 2)) (1 * (h / 2))) by (f_equal; field). apply Hv; lra.
Qed.

End ExtraUtilsV2.

Section ExtraColorV3.
Import ColorV3.

Definition int16_hex2_ok (k : nat) : bool :=
  match int16 (hex2 (Z.of_nat k)) with
  | Some m => Z.eqb m (Z.of_nat k) | None => false end.

Lemma int16_hex2_table : forallb int16_hex2_ok (seq 0 256) = true.
Proof. vm_compute. reflexivity. Qed.

Lemma int16_hex2 (n : Z) : (0 <= n < 256)%Z -> int16 (hex2 n) = Some n.
Proof.
  intros Hn.
  assert (Hin : In (Z.to_nat n) (seq 0 256)) by (apply in_seq; lia).
  pose proof (proj1 (forallb_forall _ _) int16_hex2_table (Z.to_nat n) Hin) as H.
  unfold int16_hex2_ok in H. rewrite Z2Nat.id in H by lia.
  destruct (int16 (hex2 n)) as [m|]; [|discriminate H].
  apply Z.eqb_eq in H. subst. reflexivity.
Qed.

Definition int16_pair_ok (i j : nat) : bool :=
  match int16 (String (ascii_of_nat i) (String (ascii_of_nat j) EmptyString)) with
  | Some m => (-15 <=? m)%Z && (m <=? 255)%Z | None => true end.

Lemma int16_pair_table :
  forallb (fun i => forallb (int16_pair_ok i) (seq 0 256)) (seq 0 256) = true.
Proof. vm_compute. reflexivity. Qed.

Lemma int16_pair (c1 c2 : ascii) (m : Z) :
  int16 (String c1 (String c2 EmptyString)) = Some m -> (-15 <= m <= 255)%Z.
Proof.
  intros H.
  assert (H1 : In (nat_of_ascii c1) (seq 0 256)) by (apply in_seq; pose proof (nat_ascii_bounded c1); lia).
  assert (H2 : In (nat_of_ascii c2) (seq 0 256)) by (apply in_seq; pose proof (nat_ascii_bounded c2); lia).
  pose proof (proj1 (forallb_forall _ _) int16_pair_table _ H1) as T. cbv beta in T.
  pose proof (proj1 (forallb_forall _ _) T _ H2) as T2. unfold int16_pair_ok in T2.
  rewrite !ascii_nat_embedding, H in T2.
  apply andb_prop in T2 as [A B]. apply Z.leb_le in A, B. lia.
Qed.

Lemma string_length_append (s t : string) :
  String.length (s ++ t) = (String.length s + String.length t)%nat.
Proof. induction s as [|c s IH]; cbn; [reflexivity|now rewrite IH]. Qed.

Lemma string_length8 (t : string) : String.length t = 8%nat ->
  exists c1 c2 c3 c4 c5 c6 c7 c8,
    t = String c1 (String c2 (String c3 (String c4 (String c5 (String c6 (String c7 (String c8 EmptyString))))))).
Proof.
  intros H.
  destruct t as [|c1 [|c2 [|c3 [|c4 [|c5 [|c6 [|c7 [|c8 [|c9 t]]]]]]]]]; try discriminate H.
  do 8 eexists. reflexivity.
Qed.

Lemma hex_char_not_hash (d : Z) : hex_char d <> "#"%char.
Proof.
  unfold hex_char. generalize (Z.to_nat d) as k. intros k.
  do 16 (destruct k as [|k]; [cbn; discriminate|]). cbn. discriminate.
Qed.

Lemma prefix_hash_hex2 (n : Z) (s : string) : String.prefix "#" (hex2 n ++ s) = false.
Proof.
  unfold hex2. cbn [String.append String.prefix]. destruct (ascii_dec "#" (hex_char (n / 16))) as [E|]; [|reflexivity].
  exfalso. exact (hex_char_not_hash _ (eq_sym E)).
Qed.

Lemma int16_hex2u (n : Z) : (0 <= n < 256)%Z ->
  int16 (String (hex_char (n / 16)) (String (hex_char (n mod 16)) EmptyString)) = Some n.
Proof. exact (int16_hex2 n). Qed.

(** hex_to_rgba inverts the '%02X' formatting of bytes, with or without '#'; 6 digits give alpha 255. *)
Theorem hex_to_rgba_roundtrip (r g b a : Z) :
  (0 <= r < 256)%Z -> (0 <= g < 256)%Z -> (0 <= b < 256)%Z -> (0 <= a < 256)%Z ->
  hex_to_rgba ("#" ++ hex2 r ++ hex2 g ++ hex2 b ++ hex2 a) = Some [r; g; b; a] /\
  hex_to_rgba (hex2 r ++ hex2 g ++ hex2 b ++ hex2 a) = Some [r; g; b; a] /\
  hex_to_rgba ("#" ++ hex2 r ++ hex2 g ++ hex2 b) = Some [r; g; b; 255%Z] /\
  hex_to_rgba (hex2 r ++ hex2 g ++ hex2 b) = Some [r; g; b; 255%Z].
Proof.
  intros Hr Hg Hb Ha. split; [|split; [|split]]; unfold hex_to_rgba;
    try rewrite prefix_hash_hex2; unfold hex2; cbn -[int16 hex_char];
    rewrite (int16_hex2u r Hr), (int16_hex2u g Hg), (int16_hex2u b Hb);
    try rewrite (int16_hex2u a Ha); reflexivity.
Qed.

(** hex_to_rgba: a result has 4 components, each in [-15, 255] (int accepts a sign, so '-F' parses). *)
Theorem hex_to_rgba_range (s : string) (cs : list Z) :
  hex_to_rgba s = Some cs ->
  List.length cs = 4%nat /\ Forall (fun c => (-15 <= c <= 255)%Z) cs.
Proof.
  unfold hex_to_rgba.
  set (h := if String.prefix "#" s then substring 1 (String.length s - 1) s else s).
  assert (Hgen : forall t, String.length t = 8%nat ->
    (let* r := int16 (substring 0 2 t) in let* g := int16 (substring 2 2 t) in
     let* b := int16 (substring 4 2 t) in let* a := int16 (substring 6 2 t) in
     Some [r; g; b; a]) = Some cs ->
    List.length cs = 4%nat /\ Forall (fun c => (-15 <= c <= 255)%Z) cs).
  { intros t Ht. apply string_length8 in Ht as (c1 & c2 & c3 & c4 & c5 & c6 & c7 & c8 & ->).
    cbn -[int16].
    destruct (int16 (String c1 (String c2 EmptyString))) as [r|] eqn:Er; [|discriminate].
    destruct (int16 (String c3 (String c4 EmptyString))) as [g|] eqn:Eg; [|discriminate].
    destruct (int16 (String c5 (String c6 EmptyString))) as [b|] eqn:Eb; [|discriminate].
    destruct (int16 (String c7 (String c8 EmptyString))) as [a|] eqn:Ea; [|discriminate].
    intros [= <-]. split; [reflexivity|].
    apply int16_pair in Er, Eg, Eb, Ea. repeat (constructor; [assumption|]); constructor. }
  destruct (Nat.eqb (String.length h) 6) eqn:E6.
  - apply Hgen. rewrite string_length_append. apply Nat.eqb_eq in E6. rewrite E6. reflexivity.
  - destruct (Nat.eqb (String.length h) 8) eqn:E8; [|discriminate].
    apply Hgen. apply Nat.eqb_eq. exact E8.
Qed.

End ExtraColorV3.

Lemma dict_get_set {A : Type} (d : dict A) (k k' : string) (v : A) :
  dict_get (dict_set d k v) k' = if String.eqb k' k then Some v else dict_get d k'.
Proof.
  induction d as [|[k1 a] d IH]; cbn; [reflexivity|].
  destruct (String.eqb_spec k k1) as [->|Hne]; cbn.
  - destruct (String.eqb k' k1); reflexivity.
  - rewrite IH. destruct (String.eqb_spec k' k) as [->|]; [|reflexivity].
    destruct (String.eqb_spec k k1); [contradiction|reflexivity].
Qed.

Lemma map_opt_map {A B C : Type} (f : B -> option C) (g : A -> B) (l : list A) :
  map_opt f (map g l) = map_opt (fun x => f (g x)) l.
Proof. induction l as [|x l IH]; cbn; [reflexivity|now rewrite IH]. Qed.

Lemma map_opt_nth_seq {A B : Type} (g : A -> option B) (l : list A) (s k : nat) :
  (s + k <= List.length l)%nat ->
  map_opt (fun i => let* x := nth_error l i in g x) (seq s k) = map_opt g (firstn k (skipn s l)).
Proof.
  revert s k; induction l as [|x l IH]; intros s k H.
  - cbn in H. assert (s = 0%nat /\ k = 0%nat) as [-> ->] by lia. reflexivity.
  - destruct s as [|s].
    + destruct k as [|k]; [reflexivity|].
      cbn [seq firstn skipn map_opt nth_error].
      rewrite <- seq_shift, map_opt_map. cbn [nth_error].
      rewrite (IH 0%nat k) by (cbn in H; lia). reflexivity.
    + rewrite <- seq_shift, map_opt_map. cbn [nth_error skipn].
      apply IH. cbn in H. lia.
Qed.

Lemma map_opt_forall {A B : Type} (f : A -> option B) (Q : A -> B -> Prop) (l : list A) :
  (forall x, In x l -> exists y, f x = Some y /\ Q x y) ->
  exists r, map_opt f l = Some r /\ Forall2 Q l r.
Proof.
  induction l as [|x l IH]; intros H; cbn.
  - exists []. split; [reflexivity|constructor].
  - destruct (H x (or_introl eq_refl)) as (y & -> & Hy).
    destruct IH as (r & -> & Hr); [intros z Hz; apply H; right; exact Hz|].
    exists (y :: r). split; [reflexivity|constructor; assumption].
Qed.

Lemma Forall2_exists_map {A B C : Type} (F : B -> C) (P : A -> B -> Prop) (l : list A) (r : list C) :
  Forall2 (fun a c => exists b, c = F b /\ P a b) l r ->
  exists bs, r = map F bs /\ Forall2 P l bs.
Proof.
  induction 1 as [|a c l r (b & -> & Hb) _ (bs & -> & Hbs)].
  - exists []. split; [reflexivity|constructor].
  - exists (b :: bs). split; [reflexivity|constructor; assumption].
Qed.

Section PoseV2Load.
Import V2 NuScenes PoseV2.
Variables (db : nusc) (samples : list NuScenes.sample).

(** The values [load] stores: the position of the ego pose of the key's sample. *)
Definition pose_of_token (k : string) (p : pose_data) : Prop :=
  exists s ep, get_sample samples k = Some s /\ _get_ego_pose db s = Some ep /\
               pd_position p = ep_translation ep.

Lemma convert_pose_position (ep : ego_pose_rec) (ts : Z) (p : pose_data) :
  _convert_pose ep ts = Some p -> pd_position p = ep_translation ep.
Proof.
  unfold _convert_pose.
  destruct (nth_error (ep_rotation ep) 1); [|discriminate].
  destruct (nth_error (ep_rotation ep) 2); [|discriminate].
  destruct (nth_error (ep_rotation ep) 3); [|discriminate].
  destruct (nth_error (ep_rotation ep) 0); [|discriminate].
  destruct (ScipyRotation.from_quat _ _ _ _); [|discriminate].
  intros [= <-]. reflexivity.
Qed.

Lemma load_fold_none (frames : list V2.frame) :
  fold_left (load_frame db samples) frames None = None.
Proof. induction frames as [|f fs IH]; [reflexivity|exact IH]. Qed.

Lemma load_fold (frames : list V2.frame) (d d' : dict pose_data) :
  fold_left (load_frame db samples) frames (Some d) = Some d' ->
  (forall k p, dict_get d k = Some p -> pose_of_token k p) ->
  (forall k p, dict_get d' k = Some p -> pose_of_token k p) /\
  (forall k, dict_get d k <> None -> dict_get d' k <> None) /\
  (forall f, In f frames -> dict_get d' (f_token f) <> None).
Proof.
  revert d; induction frames as [|f fs IH]; intros d H Hd; cbn [fold_left] in H.
  - injection H as <-. split; [exact Hd|split; [auto|intros f []]].
  - unfold load_frame at 2 in H. 
    destruct (get_sample samples (f_token f)) as [s|] eqn:Es;
      [|rewrite load_fold_none in H; discriminate].
    destruct (_get_ego_pose db s) as [ep|] eqn:Ee;
      [|rewrite load_fold_none in H; discriminate].
    destruct (_convert_pose ep (f_timestamp f)) as [pd|] eqn:Ec;
      [|rewrite load_fold_none in H; discriminate].
    destruct (IH _ H) as (H1 & H2 & H3).
    + intros k p. rewrite dict_get_set. destruct (String.eqb_spec k (f_token f)) as [->|_].
      * intros [= <-]. exists s, ep. split; [exact Es|split; [exact Ee|exact (convert_pose_position _ _ _ Ec)]].
      * apply Hd.
    + split; [exact H1|split].
      * intros k Hk. apply H2. rewrite dict_get_set. destruct (String.eqb k (f_token f)); [discriminate|exact Hk].
      * intros g [<-|Hg]; [|apply H3, Hg].
        apply H2. rewrite dict_get_set, String.eqb_refl. discriminate.
Qed.

End PoseV2Load.

(** v2 PoseConverter._add_trajectory after load: no frames give no primitive; otherwise one polyline holding the ego positions of frames 0 to min(n, message_index + 6) - 1, i.e. starting at the first frame of the scene, not at the message index. *)
Theorem add_trajectory_from_first_frame (db : NuScenes.nusc) (samples : list NuScenes.sample)
    (frames : list V2.frame) (poses_by_frame : dict PoseV2.pose_data) (message_index : nat) :
  PoseV2.load db samples frames = Some poses_by_frame ->
  let k := Nat.min (List.length frames) (message_index + 6) in
  (frames = [] -> PoseV2._add_trajectory poses_by_frame frames message_index = Some []) /\
  (frames <> [] ->
   exists eps,
     PoseV2._add_trajectory poses_by_frame frames message_index =
       Some [V2.Prim PoseV2.VEHICLE_TRAJECTORY V2.Polyline
               (List.concat (map (fun ep => V2.vlist (NuScenes.ep_translation ep)) eps)) None []] /\
     Forall2 (fun f ep => exists s, PoseV2.get_sample samples (V2.f_token f) = Some s /\
                                    PoseV2._get_ego_pose db s = Some ep)
             (firstn k frames) eps).
Proof.
  intros Hl k. unfold PoseV2.load in Hl.
  destruct (load_fold db samples frames [] _ Hl) as (Hv & _ & Hin); [intros ? ? [=]|].
  split.
  - intros ->. reflexivity.
  - intros Hne. unfold PoseV2._add_trajectory. fold k. rewrite Nat.sub_0_r.
    rewrite (map_opt_nth_seq _ frames 0 k) by (unfold k; lia). cbn [skipn].
    destruct (map_opt_forall
      (fun frame => let* pose := dict_get poses_by_frame (V2.f_token frame) in
                    Some (V2.vlist (PoseV2.pd_position pose)))
      (fun f pts => exists ep, pts = V2.vlist (NuScenes.ep_translation ep) /\
         exists s, PoseV2.get_sample samples (V2.f_token f) = Some s /\ PoseV2._get_ego_pose db s = Some ep)
      (firstn k frames)) as (r & Hr & HQ).
    { intros f Hf.
      assert (Hf' : In f frames).
      { rewrite <- (firstn_skipn k frames). apply in_or_app. left. exact Hf. }
      specialize (Hin f Hf').
      destruct (dict_get poses_by_frame (V2.f_token f)) as [p|] eqn:Ep; [|contradiction Hin; reflexivity].
      destruct (Hv _ _ Ep) as (s & ep & Hs & He & Hpos).
      exists (V2.vlist (PoseV2.pd_position p)). split; [reflexivity|].
      exists ep. split; [rewrite Hpos; reflexivity|exists s; split; assumption]. }
    rewrite Hr.
    destruct (Forall2_exists_map _ _ _ _ HQ) as (eps & -> & Heps).
    exists eps. split; [|exact Heps].
    destruct eps as [|ep eps].
    + apply Forall2_length in Heps. rewrite length_firstn in Heps. unfold k in Heps.
      destruct frames as [|f0 fr]; [contradiction Hne; reflexivity|].
      cbn [List.length] in Heps. lia.
    + reflexivity.
Qed.

Section CoordV1Init.
Import V2 NuScenes EulerV1 CoordV1.
Variables (db : nusc) (all : list frame_data).

(** The entries [init] stores: the translation of the ego pose of a frame
    with the key's token. *)
Definition entry_of_frame (k : string) (pe : pose_entry) : Prop :=
  exists f ep, In f all /\ fd_token f = k /\ get_ego_pose db (fd_ego_pose_token f) = Some ep /\
    [pe_x pe; pe_y pe; pe_z pe] = vlist (ep_translation ep).

Lemma init_fold_none (fs : list frame_data) :
  fold_left (fun acc frame => let* st := acc in init_frame db st frame) fs None = None.
Proof. induction fs as [|f fs IH]; [reflexivity|exact IH]. Qed.

Lemma init_fold (fs : list frame_data) (st st' : state) :
  (forall f, In f fs -> In f all) ->
  fold_left (fun acc frame => let* st := acc in init_frame db st frame) fs (Some st) = Some st' ->
  (forall k pe, dict_get (pose_by_frames st) k = Some pe -> entry_of_frame k pe) ->
  (forall k pe, dict_get (pose_by_frames st') k = Some pe -> entry_of_frame k pe) /\
  (forall k, dict_get (pose_by_frames st) k <> None -> dict_get (pose_by_frames st') k <> None) /\
  (forall f, In f fs -> dict_get (pose_by_frames st') (fd_token f) <> None).
Proof.
  revert st; induction fs as [|f fs IH]; intros st Hall H Hst; cbn [fold_left] in H.
  - injection H as <-. split; [exact Hst|split; [auto|intros f []]].
  - unfold init_frame at 2 in H.
    destruct (get_ego_pose db (fd_ego_pose_token f)) as [ep|] eqn:Ee;
      [|rewrite init_fold_none in H; discriminate].
    destruct (quaternion_to_euler_angle (ep_rotation ep)) as [[[roll pitch] yaw]|];
      [|rewrite init_fold_none in H; discriminate].
    destruct (IH _ (fun g Hg => Hall g (or_intror Hg)) H) as (H1 & H2 & H3).
    + cbn [pose_by_frames]. intros k pe. rewrite dict_get_set.
      destruct (String.eqb_spec k (fd_token f)) as [->|_].
      * intros [= <-]. exists f, ep. split; [apply Hall; left; reflexivity|].
        split; [reflexivity|split; [exact Ee|reflexivity]].
      * apply Hst.
    + split; [exact H1|split].
      * intros k Hk. apply H2. cbn [pose_by_frames]. rewrite dict_get_set.
        destruct (String.eqb k (fd_token f)); [discriminate|exact Hk].
      * intros g [<-|Hg]; [|apply H3, Hg].
        apply H2. cbn [pose_by_frames]. rewrite dict_get_set, String.eqb_refl. discriminate.
Qed.

End CoordV1Init.

(** v1 CoordinateConverter.convert after init: for every frame index it succeeds and emits one ego trajectory polyline of min(n - i, 7) positions, each the ego translation of a frame with the token of frames i, i+1, ... *)
Theorem coord_v1_convert_trajectory (db : NuScenes.nusc) (frames : list NuScenes.frame_data)
    (st : CoordV1.state) (frame_index : nat) :
  CoordV1.init db frames = Some st ->
  (frame_index < List.length frames)%nat ->
  exists pose eps,
    CoordV1.convert st frames frame_index =
      Some (pose, [V2.Prim CoordV1.EGO_TRAJECTORY V2.Polyline
                     (List.concat (map (fun ep => V2.vlist (NuScenes.ep_translation ep)) eps)) None []]) /\
    List.length eps = Nat.min (List.length frames - frame_index) 7 /\
    Forall2 (fun f ep => exists f', In f' frames /\ NuScenes.fd_token f' = NuScenes.fd_token f /\
                                    NuScenes.get_ego_pose db (NuScenes.fd_ego_pose_token f') = Some ep)
            (firstn (Nat.min (List.length frames - frame_index) 7) (skipn frame_index frames)) eps.
Proof.
  intros Hi Hlt. unfold CoordV1.init in Hi.
  destruct (init_fold db frames frames (CoordV1.State [] []) st (fun f H => H) Hi)
    as (Hv & _ & Hin); [intros ? ? [=]|].
  set (k := Nat.min (List.length frames - frame_index) 7).
  assert (Hk : (Nat.min (List.length frames) (frame_index + 7) - frame_index)%nat = k) by (unfold k; lia).
  destruct (nth_error frames frame_index) as [f|] eqn:Hf; [|apply nth_error_None in Hf; lia].
  destruct (dict_get (CoordV1.pose_by_frames st) (NuScenes.fd_token f)) as [pe|] eqn:Hpe;
    [|contradiction (Hin f (nth_error_In _ _ Hf)); exact Hpe].
  unfold CoordV1.convert, CoordV1.convert_pose, CoordV1._get_ego_trajectory.
  rewrite Hf, Hpe, Hk.
  rewrite (map_opt_nth_seq _ frames frame_index k) by (unfold k; lia).
  destruct (map_opt_forall
    (fun frame => let* pose := dict_get (CoordV1.pose_by_frames st) (NuScenes.fd_token frame) in
                  Some [CoordV1.pe_x pose; CoordV1.pe_y pose; CoordV1.pe_z pose])
    (fun f pts => exists ep, pts = V2.vlist (NuScenes.ep_translation ep) /\
       exists f', In f' frames /\ NuScenes.fd_token f' = NuScenes.fd_token f /\
                  NuScenes.get_ego_pose db (NuScenes.fd_ego_pose_token f') = Some ep)
    (firstn k (skipn frame_index frames))) as (r & Hr & HQ).
  { intros g Hg.
    assert (Hg' : In g frames).
    { rewrite <- (firstn_skipn frame_index frames). apply in_or_app. right.
      rewrite <- (firstn_skipn k (skipn frame_index frames)). apply in_or_app. left. exact Hg. }
    specialize (Hin g Hg').
    destruct (dict_get (CoordV1.pose_by_frames st) (NuScenes.fd_token g)) as [p|] eqn:Ep;
      [|contradiction Hin; reflexivity].
    destruct (Hv _ _ Ep) as (f' & ep & Hf' & Htok & He & Hpos).
    eexists. split; [reflexivity|]. exists ep. split; [exact Hpos|].
    exists f'. auto. }
  rewrite Hr.
  destruct (Forall2_exists_map _ _ _ _ HQ) as (eps & -> & Heps).
  do 2 eexists. split; [reflexivity|]. split; [|exact Heps].
  apply Forall2_length in Heps. rewrite length_firstn, length_skipn in Heps.
  unfold k in *. lia.
Qed.

Lemma sandwich_vsub (p : Quaternion) (u v : vec3) :
  vsub (vector (mul (mul p (of_vector u)) (conjugate p)))
       (vector (mul (mul p (of_vector v)) (conjugate p))) =
  vector (mul (mul p (of_vector (vsub u v))) (conjugate p)).
Proof. unfold vsub. quat_ring. Qed.

Lemma sandwich_norm (p : Quaternion) (v : vec3) :
  _sum_of_squares p = 1 ->
  vnorm (vector (mul (mul p (of_vector v)) (conjugate p))) = vnorm v.
Proof.
  intros H. unfold vnorm. f_equal.
  destruct p as [a b c d], v as [x y z]. unfold _sum_of_squares in H. cbn [qw qx qy qz] in H.
  transitivity ((a * a + b * b + c * c + d * d) * (a * a + b * b + c * c + d * d) *
                (x * x + y * y + z * z)).
  - unfold mul, conjugate, of_vector, vector. cbn [v0 v1 v2 qw qx qy qz]. ring.
  - rewrite H. cbn [v0 v1 v2]. ring.
Qed.

Lemma corner_diff (a : V2.ann) (s0 s1 s2 t0 t1 t2 : R) :
  vsub (AnnoV3.box_corner a s0 s1 s2) (AnnoV3.box_corner a t0 t1 t2) =
  rotate (V2.a_rotation a)
    (vsub (Vec3 (s0 * (v1 (V2.a_size a) / 2)) (s1 * (v0 (V2.a_size a) / 2)) (s2 * (v2 (V2.a_size a) / 2)))
          (Vec3 (t0 * (v1 (V2.a_size a) / 2)) (t1 * (v0 (V2.a_size a) / 2)) (t2 * (v2 (V2.a_size a) / 2)))).
Proof.
  unfold AnnoV3.box_corner, rotate. rewrite <- sandwich_vsub.
  generalize (vector (mul (mul (_normalise (V2.a_rotation a)) (of_vector (Vec3 (s0 * (v1 (V2.a_size a) / 2)) (s1 * (v0 (V2.a_size a) / 2)) (s2 * (v2 (V2.a_size a) / 2))))) (conjugate (_normalise (V2.a_rotation a))))) as u.
  generalize (vector (mul (mul (_normalise (V2.a_rotation a)) (of_vector (Vec3 (t0 * (v1 (V2.a_size a) / 2)) (t1 * (v0 (V2.a_size a) / 2)) (t2 * (v2 (V2.a_size a) / 2))))) (conjugate (_normalise (V2.a_rotation a))))) as v.
  intros v u. destruct u, v, (V2.a_translation a). unfold vsub, vadd. cbn [v0 v1 v2]. f_equal; ring.
Qed.

(** convert_v3 _get_3d_bbox: a closed ring of 4 corners forming a parallelogram centred half the height below the box center; for a unit rotation its sides are w and l and its diagonal sqrt(w^2 + l^2) (a rectangle). *)
Theorem get_3d_bbox_footprint (a : V2.ann) :
  let w := v0 (V2.a_size a) in
  let l := v1 (V2.a_size a) in
  let h := v2 (V2.a_size a) in
  exists c0 c1 c2 c3,
    AnnoV3._get_3d_bbox a = [c0; c1; c2; c3; c0] /\
    vsub c1 c0 = vsub c2 c3 /\
    vscale (vadd c0 c2) (1 / 2) = vadd (rotate (V2.a_rotation a) (Vec3 0 0 (- (h / 2)))) (V2.a_translation a) /\
    (_sum_of_squares (V2.a_rotation a) = 1 ->
       vnorm (vsub c1 c0) = Rabs w /\ vnorm (vsub c2 c1) = Rabs l /\
       vnorm (vsub c2 c0) = sqrt (w * w + l * l)).
Proof.
  intros w l h. do 4 eexists. split; [reflexivity|]. split; [|split].
  - rewrite !corner_diff. f_equal. unfold vsub. cbn [v0 v1 v2]. f_equal; ring.
  - unfold AnnoV3.box_corner, rotate. fold w l h.
    generalize (_normalise (V2.a_rotation a)) as p. intros p.
    destruct (V2.a_translation a) as [t0 t1 t2].
    destruct p as [pw px py pz].
    unfold vscale, vadd, mul, conjugate, of_vector, vector. cbn [v0 v1 v2 qw qx qy qz].
    f_equal; field.
  - intros Hu. rewrite !corner_diff, !(rotate_unit _ _ Hu), !(sandwich_norm _ _ Hu). fold w l h.
    unfold vnorm, vsub. cbn [v0 v1 v2]. split; [|split].
    + rewrite <- sqrt_Rsqr_abs. unfold Rsqr. f_equal. field.
    + rewrite <- sqrt_Rsqr_abs. unfold Rsqr. f_equal. field.
    + f_equal. field.
Qed.

Lemma in_keys_dict_set {A : Type} (d : dict A) (k k' : string) (v : A) :
  In k' (map fst (dict_set d k v)) <-> k' = k \/ In k' (map fst d).
Proof.
  induction d as [|[k1 a] d IH]; cbn; [intuition (subst; auto)|].
  destruct (String.eqb_spec k k1) as [->|_]; cbn; [intuition (subst; auto)|].
  rewrite IH. intuition (subst; auto).
Qed.

Lemma nodup_dict_set {A : Type} (d : dict A) (k : string) (v : A) :
  NoDup (map fst d) -> NoDup (map fst (dict_set d k v)).
Proof.
  induction d as [|[k1 a] d IH]; cbn; intros H.
  - constructor; [intros []|constructor].
  - inversion H as [|? ? Hn Hd]; subst.
    destruct (String.eqb_spec k k1) as [->|Hne]; cbn; constructor; try assumption.
    + rewrite in_keys_dict_set. intros [->|Hin]; [contradiction|contradiction].
    + apply IH. exact Hd.
Qed.

Lemma dict_get_nodup {A : Type} (d : dict A) (k : string) (v : A) :
  NoDup (map fst d) -> In (k, v) d -> dict_get d k = Some v.
Proof.
  induction d as [|[k1 a] d IH]; cbn; intros H Hin; [destruct Hin|].
  inversion H as [|? ? Hn Hd]; subst.
  destruct Hin as [E|Hin].
  - injection E as -> ->. rewrite String.eqb_refl. reflexivity.
  - destruct (String.eqb_spec k k1) as [->|_].
    + exfalso. apply Hn. exact (in_map fst _ _ Hin).
    + exact (IH Hd Hin).
Qed.

Lemma parse_ann_data_instance (a : V2.ann) (p : AnnoV1.parsed) :
  AnnoV1._parse_ann_data a = Some p -> AnnoV1.pa_instance_token p = V2.a_instance_token a.
Proof.
  unfold AnnoV1._parse_ann_data.
  destruct (EulerV1.quaternion_to_euler_angle _) as [[[roll pitch] yaw]|]; [|discriminate].
  destruct (dict_get AnnoV1.CATEGORY_MAPPING _); [|discriminate].
  intros H. injection H as <-. reflexivity.
Qed.

(** Each per-frame dict of [anns_by_frame] is keyed by the instance token of
    its records, each key once. *)
Definition inner_ok (inner : dict AnnoV1.parsed) : Prop :=
  NoDup (map fst inner) /\ forall k p, In (k, p) inner -> AnnoV1.pa_instance_token p = k.

Definition abf_ok (d : dict (dict AnnoV1.parsed)) : Prop :=
  forall k inner, In (k, inner) d -> inner_ok inner.

Lemma in_dict_set_key {A : Type} (d : dict A) (k0 : string) (v : A) (k : string) (q : A) :
  In (k, q) (dict_set d k0 v) -> In (k, q) d \/ (k = k0 /\ q = v).
Proof.
  induction d as [|[k1 a] d IH]; cbn.
  - intros [E|[]]. injection E as <- <-. right. split; reflexivity.
  - destruct (String.eqb_spec k0 k1) as [->|_].
    + intros [E|H]; [injection E as <- <-; right; split; reflexivity|left; right; exact H].
    + intros [E|H]; [left; left; exact E|].
      destruct (IH H) as [H'|H']; [left; right; exact H'|right; exact H'].
Qed.

Lemma inner_ok_set (inner : dict AnnoV1.parsed) (p : AnnoV1.parsed) :
  inner_ok inner -> inner_ok (dict_set inner (AnnoV1.pa_instance_token p) p).
Proof.
  intros [Hn Hk]. split; [apply nodup_dict_set, Hn|].
  intros k q Hin. destruct (in_dict_set_key _ _ _ _ _ Hin) as [H|[-> ->]]; [exact (Hk k q H)|reflexivity].
Qed.

Section AnnsByFrameKeys.
Variable db : NuScenes.nusc.

Lemma init_ann_keys (tok : string) (d d' : dict (dict AnnoV1.parsed)) (t : string) :
  AnnoV1.init_ann db tok (Some d) t = Some d' -> abf_ok d -> abf_ok d'.
Proof.
  unfold AnnoV1.init_ann. intros H Hd.
  destruct (NuScenes.get_sample_annotation db t) as [a|]; [|discriminate].
  destruct (dict_get AnnoV1.CATEGORY_MAPPING (V2.a_category_name a)) as [c|].
  2:{ injection H as <-. exact Hd. }
  destruct (AnnoV1._parse_ann_data a) as [p|] eqn:Hp; [|discriminate].
  destruct (dict_get d tok) as [inner|] eqn:Hi; [|discriminate].
  injection H as <-. intros k inner' Hin.
  destruct (in_dict_set_key _ _ _ _ _ Hin) as [Hin'|[-> ->]]; [exact (Hd k inner' Hin')|].
  rewrite <- (parse_ann_data_instance a p Hp). apply inner_ok_set.
  exact (Hd tok inner (dict_get_in _ _ _ Hi)).
Qed.

Lemma init_anns_keys (tok : string) (toks : list string) :
  forall d d', fold_left (AnnoV1.init_ann db tok) toks (Some d) = Some d' ->
  abf_ok d -> abf_ok d'.
Proof.
  induction toks as [|t toks IH]; intros d d' H Hd; cbn [fold_left] in H.
  - injection H as <-. exact Hd.
  - destruct (AnnoV1.init_ann db tok (Some d) t) as [d1|] eqn:E.
    + exact (IH d1 d' H (init_ann_keys tok d d1 t E Hd)).
    + rewrite init_anns_none in H. discriminate.
Qed.

Lemma init_keys (frames : list NuScenes.frame_data) (d : dict (dict AnnoV1.parsed)) :
  AnnoV1.init db frames = Some d -> abf_ok d.
Proof.
  unfold AnnoV1.init.
  assert (Hgen : forall frames d0 d, abf_ok d0 ->
    fold_left (fun acc frame =>
      let* d := acc in
      fold_left (AnnoV1.init_ann db (NuScenes.fd_token frame)) (NuScenes.sm_anns (NuScenes.fd_sample frame))
        (Some (dict_set d (NuScenes.fd_token frame) []))) frames (Some d0) = Some d -> abf_ok d).
  { induction frames0 as [|f frames0 IH]; intros d0 d1 H0 H; cbn [fold_left] in H.
    - injection H as <-. exact H0.
    - destruct (fold_left (AnnoV1.init_ann db (NuScenes.fd_token f)) _ _) as [d2|] eqn:E.
      + apply (IH d2 d1); [|exact H].
        apply (init_anns_keys _ _ _ _ E). intros k inner Hin.
        destruct (in_dict_set_key _ _ _ _ _ Hin) as [Hin'|[_ ->]]; [exact (H0 k inner Hin')|].
        split; [constructor|intros ? ? []].
      + exfalso. clear IH E. induction frames0 as [|g frames0 IH'];
          cbn [fold_left] in H; [discriminate|exact (IH' H)]. }
  intros H. exact (Hgen frames [] d (fun k inner Hin => match Hin with end) H).
Qed.

End AnnsByFrameKeys.

Lemma obj_trajectory_go_length (abf : dict (dict AnnoV1.parsed)) (frames : list NuScenes.frame_data)
    (obj : AnnoV1.parsed) (is : list nat) (traj : list R) :
  AnnoV1.obj_trajectory_go abf frames obj is = Some traj ->
  exists m, List.length traj = (3 * m)%nat /\ (m <= List.length is)%nat.
Proof.
  revert traj; induction is as [|i is IH]; intros traj H; cbn in H.
  - injection H as <-. exists 0%nat. split; reflexivity.
  - destruct (nth_error frames i); [|discriminate].
    destruct (dict_get abf _); [|discriminate].
    destruct (dict_get _ (AnnoV1.pa_instance_token obj)).
    + destruct (AnnoV1.obj_trajectory_go abf frames obj is) as [r|]; [|discriminate].
      injection H as <-. destruct (IH r eq_refl) as (m & Hm & Hle).
      exists (S m). cbn [List.length app]. split; lia.
    + injection H as <-. exists 0%nat. cbn. split; lia.
Qed.


Lemma map_opt_forall2 {A B : Type} (f : A -> option B) (l : list A) (r : list B) :
  map_opt f l = Some r -> Forall2 (fun x y => f x = Some y) l r.
Proof.
  revert r; induction l as [|x l IH]; intros r H; cbn in H.
  - injection H as <-. constructor.
  - destruct (f x) as [y|] eqn:Hx; [|discriminate].
    destruct (map_opt f l) as [r'|]; [|discriminate].
    injection H as <-. constructor; [exact Hx|apply IH; reflexivity].
Qed.

Lemma map_opt_combine {A B C : Type} (g : A -> option C) (h : A -> B -> C) (P : A -> B -> Prop)
    (l : list A) (r : list C) :
  Forall2 (fun x y => g x = Some y) l r ->
  (forall x c, In x l -> g x = Some c -> exists t, c = h x t /\ P x t) ->
  exists ts, r = map (fun '(x, t) => h x t) (combine l ts) /\ Forall2 P l ts.
Proof.
  intros H Hg. induction H as [|x c l r Hx _ IH].
  - exists []. split; [reflexivity|constructor].
  - destruct (Hg x c (or_introl eq_refl) Hx) as (t & -> & Ht).
    destruct IH as (ts & -> & Hts); [intros y d Hy; apply Hg; right; exact Hy|].
    exists (t :: ts). split; [reflexivity|constructor; assumption].
Qed.

Lemma obj_trajectory_own (abf : dict (dict AnnoV1.parsed)) (frames : list NuScenes.frame_data)
    (i : nat) (f : NuScenes.frame_data) (inner : dict AnnoV1.parsed) (k : string)
    (anno : AnnoV1.parsed) (traj : list R) :
  nth_error frames i = Some f -> dict_get abf (NuScenes.fd_token f) = Some inner ->
  inner_ok inner -> In (k, anno) inner ->
  AnnoV1._get_obj_trajectory abf frames anno i (Nat.min (List.length frames) (i + 7)) = Some traj ->
  k = AnnoV1.pa_instance_token anno /\
  (exists rest, traj = [AnnoV1.pa_x anno; AnnoV1.pa_y anno; AnnoV1.pa_z anno] ++ rest) /\
  exists m, List.length traj = (3 * m)%nat /\ (1 <= m <= 7)%nat.
Proof.
  intros Hf Hfa [Hnd Hkeys] Hin Ht.
  pose proof (Hkeys k anno Hin) as Hka. subst k. split; [reflexivity|].
  assert (Hn : (i < List.length frames)%nat) by (apply nth_error_Some; rewrite Hf; discriminate).
  unfold AnnoV1._get_obj_trajectory in Ht.
  destruct (obj_trajectory_go_length _ _ _ _ _ Ht) as (m & Hm & Hle).
  rewrite length_seq in Hle.
  replace (Nat.min (List.length frames) (i + 7) - i)%nat
    with (S (Nat.min (List.length frames) (i + 7) - S i)) in Ht by lia.
  cbn [seq AnnoV1.obj_trajectory_go] in Ht. rewrite Hf, Hfa, (dict_get_nodup _ _ _ Hnd Hin) in Ht.
  destruct (AnnoV1.obj_trajectory_go abf frames anno _) as [rest|]; [|discriminate].
  injection Ht as <-. split; [exists rest; reflexivity|].
  exists m. split; [exact Hm|]. split; [|lia]. destruct m; [cbn in Hm; discriminate|lia].
Qed.

(** v1 AnnotationConverter.convert after init: for each annotation of the frame, in order, the converter emits its Polygon followed by its own trajectory polyline on '/annotations/<category>/trajectory'; that polyline starts at the position of this very annotation and holds between 1 and 7 positions. *)
Theorem anno_v1_trajectory_starts_at_object (db : NuScenes.nusc) (frames : list NuScenes.frame_data)
    (abf : dict (dict AnnoV1.parsed)) (i : nat) (prims : list V2.primitive) :
  AnnoV1.init db frames = Some abf -> AnnoV1.convert abf frames i = Some prims ->
  exists f inner trajs,
    nth_error frames i = Some f /\ dict_get abf (NuScenes.fd_token f) = Some inner /\
    prims = List.concat (map (fun '((_, anno), traj) =>
        let stream := (AnnoV1.ANNOTATIONS ++ "/" ++ AnnoV1.pa_category anno)%string in
        [V2.Prim stream V2.Polygon (AnnoV1.pa_vertices anno) (Some (AnnoV1.pa_token anno))
           [AnnoV1.pa_category anno];
         V2.Prim (stream ++ "/trajectory")%string V2.Polyline traj None []])
      (combine inner trajs)) /\
    Forall2 (fun '(k, anno) traj =>
        k = AnnoV1.pa_instance_token anno /\
        (exists rest, traj = [AnnoV1.pa_x anno; AnnoV1.pa_y anno; AnnoV1.pa_z anno] ++ rest) /\
        exists m, List.length traj = (3 * m)%nat /\ (1 <= m <= 7)%nat)
      inner trajs.
Proof.
  intros Hinit H. pose proof (init_keys db frames abf Hinit) as Hok.
  unfold AnnoV1.convert in H.
  destruct (nth_error frames i) as [f|] eqn:Hf; [|discriminate].
  destruct (dict_get abf (NuScenes.fd_token f)) as [fa|] eqn:Hfa; [|discriminate].
  destruct (map_opt _ fa) as [l|] eqn:E; [|discriminate]. injection H as <-.
  pose proof (Hok _ fa (dict_get_in _ _ _ Hfa)) as Hin_ok.
  apply map_opt_forall2 in E.
  set (h := fun (kv : string * AnnoV1.parsed) (traj : list R) => let '(_, anno) := kv in
        let stream := (AnnoV1.ANNOTATIONS ++ "/" ++ AnnoV1.pa_category anno)%string in
        [V2.Prim stream V2.Polygon (AnnoV1.pa_vertices anno) (Some (AnnoV1.pa_token anno))
           [AnnoV1.pa_category anno];
         V2.Prim (stream ++ "/trajectory")%string V2.Polyline traj None []]).
  set (P := fun '((k, anno) : string * AnnoV1.parsed) (traj : list R) =>
        k = AnnoV1.pa_instance_token anno /\
        (exists rest, traj = [AnnoV1.pa_x anno; AnnoV1.pa_y anno; AnnoV1.pa_z anno] ++ rest) /\
        exists m, List.length traj = (3 * m)%nat /\ (1 <= m <= 7)%nat).
  assert (HC := map_opt_combine _ h P fa l E).
  lapply HC; [intros (trajs & Hl & Htr)|clear HC].
  - exists f, fa, trajs. split; [reflexivity|]. split; [exact Hfa|]. split; [|exact Htr].
    rewrite Hl. reflexivity.
  - intros [k anno] ps Hin Hg. cbn beta iota in Hg.
    destruct (AnnoV1._get_obj_trajectory _ _ _ _ _) as [traj|] eqn:Ht; [|discriminate].
    injection Hg as <-. exists traj. split; [reflexivity|].
    exact (obj_trajectory_own abf frames i f fa k anno traj Hf Hfa Hin_ok Hin Ht).
Qed.



(* ------------------------------------------------------------------ *)
(** ** Instances of the properties above on concrete inputs *)

Lemma compute_velocity_displacement_witness :
  exists v, UtilsV2.compute_velocity [Vec3 0 0 0; Vec3 1 1 1; Vec3 2 0 0] [0; 500000; 1000000]%Z = Some v /\
    vadd (Vec3 0 0 0) (vscale v (IZR (1000000 - 0) / 1000000)) = Vec3 2 0 0.
Proof.
  apply (compute_velocity_displacement [Vec3 0 0 0; Vec3 1 1 1; Vec3 2 0 0] [0; 500000; 1000000]%Z
           (Vec3 0 0 0) (Vec3 2 0 0) 0 1000000);
    [cbn; lia|reflexivity|reflexivity|reflexivity|reflexivity|].
  replace (1000000 - 0)%Z with 1000000%Z by reflexivity. lra.
Defined.

Lemma interpolate_trajectory_timestamps_witness :
  exists out,
    UtilsV2.interpolate_trajectory
      [UtilsV2.TrajPoint 0 (Vec3 0 0 0); UtilsV2.TrajPoint 10 (Vec3 10 0 0)] [5; 20; -1]%Z = Some out /\
    map UtilsV2.tp_timestamp out = [5%Z].
Proof.
  destruct (proj2 (interpolate_trajectory_timestamps
      [UtilsV2.TrajPoint 0 (Vec3 0 0 0); UtilsV2.TrajPoint 10 (Vec3 10 0 0)] [5; 20; -1]%Z))
    as (out & H1 & H2); [cbn; lia|].
  exists out. split; [exact H1|]. rewrite H2. reflexivity.
Defined.

Lemma interpolate_trajectory_segments_witness :
  exists out,
    UtilsV2.interpolate_trajectory
      [UtilsV2.TrajPoint 0 (Vec3 0 0 0); UtilsV2.TrajPoint 10 (Vec3 10 0 0)] [5%Z] = Some out /\
    forall x, In x out ->
      In x [UtilsV2.TrajPoint 0 (Vec3 0 0 0); UtilsV2.TrajPoint 10 (Vec3 10 0 0)] \/
      exists k pb pa alpha,
        nth_error [UtilsV2.TrajPoint 0 (Vec3 0 0 0); UtilsV2.TrajPoint 10 (Vec3 10 0 0)] k = Some pb /\
        nth_error [UtilsV2.TrajPoint 0 (Vec3 0 0 0); UtilsV2.TrajPoint 10 (Vec3 10 0 0)] (S k) = Some pa /\
        (UtilsV2.tp_timestamp pb < UtilsV2.tp_timestamp x < UtilsV2.tp_timestamp pa)%Z /\
        alpha = IZR (UtilsV2.tp_timestamp x - UtilsV2.tp_timestamp pb) /
                IZR (UtilsV2.tp_timestamp pa - UtilsV2.tp_timestamp pb) /\
        0 < alpha < 1 /\
        UtilsV2.tp_translation x = vadd (UtilsV2.tp_translation pb)
          (vscale (vsub (UtilsV2.tp_translation pa) (UtilsV2.tp_translation pb)) alpha).
Proof.
  eexists. split; [reflexivity|].
  apply (interpolate_trajectory_segments
           [UtilsV2.TrajPoint 0 (Vec3 0 0 0); UtilsV2.TrajPoint 10 (Vec3 10 0 0)] [5%Z]).
  reflexivity.
Defined.

Lemma interpolate_trajectory_linear_witness :
  exists out,
    UtilsV2.interpolate_trajectory
      [UtilsV2.TrajPoint 0 (vadd (Vec3 1 0 0) (vscale (Vec3 2 3 0) (IZR 0)));
       UtilsV2.TrajPoint 10 (vadd (Vec3 1 0 0) (vscale (Vec3 2 3 0) (IZR 10)))] [4%Z] = Some out /\
    forall x, In x out ->
      UtilsV2.tp_translation x = vadd (Vec3 1 0 0) (vscale (Vec3 2 3 0) (IZR (UtilsV2.tp_timestamp x))).
Proof.
  eexists. split; [reflexivity|].
  apply (interpolate_trajectory_linear
           [UtilsV2.TrajPoint 0 (vadd (Vec3 1 0 0) (vscale (Vec3 2 3 0) (IZR 0)));
            UtilsV2.TrajPoint 10 (vadd (Vec3 1 0 0) (vscale (Vec3 2 3 0) (IZR 10)))] [4%Z]).
  - intros p [<-|[<-|[]]]; reflexivity.
  - reflexivity.
Defined.

Lemma normalize_two_pi : UtilsV2.normalize_angle 2 (2 * PI) = Some (2 * PI - 2 * PI).
Proof.
  pose proof PI_RGT_0 as Hpi.
  unfold UtilsV2.normalize_angle. cbn [UtilsV2.sub_loop].
  destruct (Rlt_dec PI (2 * PI)) as [_|n]; [|lra].
  destruct (Rlt_dec PI (2 * PI - 2 * PI)) as [c|_]; [lra|].
  cbn [UtilsV2.add_loop]. destruct (Rlt_dec (2 * PI - 2 * PI) (- PI)) as [c|_]; [lra|].
  reflexivity.
Qed.

Lemma normalize_angle_range_witness :
  - PI <= 2 * PI - 2 * PI <= PI /\ exists k : Z, 2 * PI - 2 * PI = 2 * PI + 2 * PI * IZR k.
Proof. exact (normalize_angle_range 2 (2 * PI) (2 * PI - 2 * PI) normalize_two_pi). Defined.

Lemma get_2d_bbox_from_3d_bounds_witness :
  exists min_x min_y max_x max_y,
    UtilsV2.get_2d_bbox_from_3d [Vec3 1 2 0; Vec3 3 (-1) 5] = Some (min_x, min_y, max_x, max_y) /\
    (forall v, In v [Vec3 1 2 0; Vec3 3 (-1) 5] -> min_x <= v0 v <= max_x /\ min_y <= v1 v <= max_y).
Proof.
  destruct (proj2 (get_2d_bbox_from_3d_bounds [Vec3 1 2 0; Vec3 3 (-1) 5]))
    as (a & b & c & d & H1 & H2 & _); [discriminate|].
  exists a, b, c, d. split; [exact H1|exact H2].
Defined.

Lemma compute_box_vertices_shape_witness :
  exists vs, UtilsV2.compute_box_vertices (Vec3 1 1 1) [2; 4; 1] (Quat 1 0 0 0) = Some vs /\
    forall a, In a vs -> vnorm (vsub a (Vec3 1 1 1)) = sqrt (4 * 4 + 2 * 2 + 1 * 1) / 2.
Proof.
  destruct (proj2 (compute_box_vertices_shape (Vec3 1 1 1) [2; 4; 1] (Quat 1 0 0 0)) 2 4 1 eq_refl)
    as (a0 & a1 & a2 & a3 & a4 & a5 & a6 & a7 & H & _ & _ & _ & _ & Hn).
  eexists. split; [exact H|]. apply Hn. unfold _sum_of_squares. cbn [qw qx qy qz]. ring.
Defined.

Lemma hex_to_rgba_roundtrip_witness :
  ColorV3.hex_to_rgba ("#" ++ ColorV3.hex2 18 ++ ColorV3.hex2 52 ++ ColorV3.hex2 86 ++ ColorV3.hex2 255)%string
  = Some [18; 52; 86; 255]%Z.
Proof.
  destruct (hex_to_rgba_roundtrip 18 52 86 255 ltac:(lia) ltac:(lia) ltac:(lia) ltac:(lia)) as [H _].
  exact H.
Defined.

Lemma hex_to_rgba_range_witness :
  ColorV3.hex_to_rgba "-1-1-1"%string = Some [-1; -1; -1; 255]%Z /\
  Forall (fun c => (-15 <= c <= 255)%Z) [-1; -1; -1; 255]%Z.
Proof.
  assert (H : ColorV3.hex_to_rgba "-1-1-1"%string = Some [-1; -1; -1; 255]%Z) by (vm_compute; reflexivity).
  split; [exact H|]. exact (proj2 (hex_to_rgba_range _ _ H)).
Defined.

Lemma add_trajectory_from_first_frame_witness :
  exists pbf eps,
    PoseV2.load Scenarios.ts_db [Scenarios.ts_sample] [V2.Frame "s0" 1532402927647951 []] = Some pbf /\
    PoseV2._add_trajectory pbf [V2.Frame "s0" 1532402927647951 []] 4 =
      Some [V2.Prim PoseV2.VEHICLE_TRAJECTORY V2.Polyline
              (List.concat (map (fun ep => V2.vlist (NuScenes.ep_translation ep)) eps)) None []].
Proof.
  destruct (from_quat_some 0 0 0 1 ltac:(lra)) as [q Hq].
  assert (Hl : PoseV2.load Scenarios.ts_db [Scenarios.ts_sample]
                 [V2.Frame "s0" 1532402927647951 []] =
               Some [("s0"%string, PoseV2.PoseData (IZR 1532402927647951 / 1000000) (Vec3 1 2 0))]).
  { unfold PoseV2.load, fold_left, PoseV2.load_frame at 1. cbn -[ScipyRotation.from_quat IZR Rdiv].
    unfold PoseV2._convert_pose. cbn -[ScipyRotation.from_quat IZR Rdiv]. rewrite Hq. reflexivity. }
  eexists. destruct (proj2 (add_trajectory_from_first_frame Scenarios.ts_db [Scenarios.ts_sample]
                     [V2.Frame "s0" 1532402927647951 []] _ 4 Hl) ltac:(discriminate)) as (eps & H & _).
  exists eps. split; [exact Hl|exact H].
Defined.

Lemma coord_v1_convert_trajectory_witness :
  exists st pose eps,
    CoordV1.init Scenarios.ego_db Scenarios.ego_frames = Some st /\
    CoordV1.convert st Scenarios.ego_frames 1 =
      Some (pose, [V2.Prim CoordV1.EGO_TRAJECTORY V2.Polyline
                     (List.concat (map (fun ep => V2.vlist (NuScenes.ep_translation ep)) eps)) None []]) /\
    List.length eps = 2%nat.
Proof.
  eexists. assert (Hi : CoordV1.init Scenarios.ego_db Scenarios.ego_frames = Some _) by reflexivity.
  destruct (coord_v1_convert_trajectory Scenarios.ego_db Scenarios.ego_frames _ 1 Hi ltac:(cbn; lia))
    as (pose & eps & H & Hlen & _).
  exists pose, eps. split; [exact Hi|]. split; [exact H|]. rewrite Hlen. reflexivity.
Defined.

Lemma get_3d_bbox_footprint_witness :
  exists c0 c1 c2 c3,
    AnnoV3._get_3d_bbox (Scenarios.car_at "a" 0) = [c0; c1; c2; c3; c0] /\
    vnorm (vsub c1 c0) = Rabs 2 /\ vnorm (vsub c2 c1) = Rabs 4.
Proof.
  destruct (get_3d_bbox_footprint (Scenarios.car_at "a" 0)) as (c0 & c1 & c2 & c3 & H & _ & _ & Hu).
  destruct Hu as (H1 & H2 & _); [unfold _sum_of_squares; cbn; ring|].
  exists c0, c1, c2, c3. split; [exact H|]. split; [exact H1|exact H2].
Defined.

Lemma anno_v1_trajectory_starts_at_object_witness :
  exists abf prims inner trajs,
    AnnoV1.init Scenarios.anno_db Scenarios.anno_frames = Some abf /\
    AnnoV1.convert abf Scenarios.anno_frames 0 = Some prims /\
    dict_get abf "s0" = Some inner /\ List.length inner = 1%nat /\
    Forall2 (fun '(k, anno) traj =>
        k = AnnoV1.pa_instance_token anno /\
        (exists rest, traj = [AnnoV1.pa_x anno; AnnoV1.pa_y anno; AnnoV1.pa_z anno] ++ rest) /\
        exists m, List.length traj = (3 * m)%nat /\ (1 <= m <= 7)%nat)
      inner trajs.
Proof.
  assert (Hi : AnnoV1.init Scenarios.anno_db Scenarios.anno_frames = Some _) by reflexivity.
  match type of Hi with _ = Some ?abf =>
    assert (Hc : AnnoV1.convert abf Scenarios.anno_frames 0 = Some _) by reflexivity;
    exists abf end.
  match type of Hc with _ = Some ?prims => exists prims end.
  destruct (anno_v1_trajectory_starts_at_object Scenarios.anno_db Scenarios.anno_frames _ 0 _ Hi Hc)
    as (f & inner & trajs & Hf & Hin & _ & Htr).
  cbn in Hf. injection Hf as <-.
  match type of Hin with dict_get ?A ?K = _ =>
    assert (Hs' : dict_get A K = Some _) by reflexivity end.
  rewrite Hs' in Hin. injection Hin as <-.
  eexists. exists trajs. split; [exact Hi|]. split; [exact Hc|]. split; [exact Hs'|].
  split; [reflexivity|exact Htr].
Defined.

